(** * Leaderboard computation of [src/utils.ts]

    A shallow embedding of the leaderboard pipeline
    ([mulBN], [divBN], [getEarnings], [getROI], [getAllPositions],
    [getAggregatedPositions], [getTopTen]) together with the parts of the
    JavaScript run time and of the two libraries the functions rely on:
    [BigNumber] of [@ethersproject/bignumber] (ethers 5, over bn.js) and
    [groupBy] of [lodash].

    - A JavaScript [number] is an IEEE 754 binary64 value: Rocq's primitive
      [float], whose operations round to nearest, ties to even, as
      JavaScript's do.
    - An ethers [BigNumber] is an arbitrary-precision integer: [Z].
    - A thrown exception is the [Err] case of [result].
    - An array is an immutable list where only its content matters, and a
      reference into a store ([Store]) where it matters which array a
      function writes to.
    - A plain object used as a map is the list of its properties in
      creation order; [Object.values] lists keys that are array indices
      first.
    - [Array.prototype.sort] is the stable sort of V8 (Node.js). *)

From Stdlib Require Import ZArith List String Ascii Bool Lia Floats.
From Stdlib Require Import Sorting.Sorted Sorting.Permutation.
Import ListNotations.

Local Open Scope Z_scope.

(* ===================================================================== *)
(** * JavaScript numbers *)
(* ===================================================================== *)

Module JS.

Definition number := float.

(** The number nearest to an integer (ties to even): the value of a numeric
    literal, of [BigNumber.toNumber] and of [Number] on an integer string. *)
Definition Z2F (z : Z) : number :=
  SF2Prim (binary_normalize prec emax z 0 false).

(** The number nearest to the rational [n / d], negated when [neg]. *)
Definition Q2F (neg : bool) (n d : positive) : number :=
  SF2Prim
    (let '(q, e, l) := SFdiv_core_binary prec emax (Zpos n) 0 (Zpos d) 0 in
     binary_round_aux prec emax neg q e l).

(** The integer a number holds, when it is finite and has no fraction. *)
Definition int_value (x : number) : option Z :=
  match Prim2SF x with
  | S754_zero _ => Some 0
  | S754_finite s m e =>
      if 0 <=? e then Some (cond_Zopp s (Zpos m * 2 ^ e))
      else if Zpos m mod 2 ^ (- e) =? 0
           then Some (cond_Zopp s (Zpos m / 2 ^ (- e)))
           else None
  | _ => None
  end.

(** [Math.round]: the integer nearest to [x], halves towards +infinity;
    NaN, the infinities and the zeros are returned as they are, and a result
    of zero keeps the sign of [x]. *)
Definition Math_round (x : number) : number :=
  match Prim2SF x with
  | S754_finite s m e =>
      if 0 <=? e then x
      else
        let r := (2 * cond_Zopp s (Zpos m) + 2 ^ (- e)) / 2 ^ (1 - e) in
        if r =? 0 then (if s then neg_zero else zero) else Z2F r
  | _ => x
  end.

(** [a > b] on numbers: false as soon as one side is NaN. *)
Definition gt (a b : number) : bool := PrimFloat.ltb b a.

(** ** [Number(string)]: the StringToNumber grammar of ECMAScript *)

Definition code (c : ascii) : Z := Z.of_nat (nat_of_ascii c).

(** A string is held as the bytes of its UTF-8 encoding.  White space and
    line terminators of one byte: TAB, LF, VT, FF, CR and the space. *)
Definition is_white_space (c : ascii) : bool :=
  let n := code c in
  (9 <=? n) && (n <=? 13) || (n =? 32).

(** White space of two bytes: U+00A0. *)
Definition is_white_space2 (c0 c1 : ascii) : bool :=
  (code c0 =? 194) && (code c1 =? 160).

(** White space and line terminators of three bytes: U+1680, U+2000 to
    U+200A, U+2028, U+2029, U+202F, U+205F, U+3000 and U+FEFF. *)
Definition is_white_space3 (c0 c1 c2 : ascii) : bool :=
  let a := code c0 in
  let b := code c1 in
  let c := code c2 in
  (a =? 225) && (b =? 154) && (c =? 128)
  || (a =? 226) && (b =? 128)
     && ((128 <=? c) && (c <=? 138) || (c =? 168) || (c =? 169) || (c =? 175))
  || (a =? 226) && (b =? 129) && (c =? 159)
  || (a =? 227) && (b =? 128) && (c =? 128)
  || (a =? 239) && (b =? 187) && (c =? 191).

Fixpoint trim_left (l : list ascii) : list ascii :=
  match l with
  | c0 :: t0 =>
      if is_white_space c0 then trim_left t0
      else
        match t0 with
        | c1 :: t1 =>
            if is_white_space2 c0 c1 then trim_left t1
            else
              match t1 with
              | c2 :: t2 =>
                  if is_white_space3 c0 c1 c2 then trim_left t2 else l
              | [] => l
              end
        | [] => l
        end
  | [] => []
  end.

(** The same from the end, on the reversed bytes. *)
Fixpoint trim_right (reversed : list ascii) : list ascii :=
  match reversed with
  | c0 :: t0 =>
      if is_white_space c0 then trim_right t0
      else
        match t0 with
        | c1 :: t1 =>
            if is_white_space2 c1 c0 then trim_right t1
            else
              match t1 with
              | c2 :: t2 =>
                  if is_white_space3 c2 c1 c0 then trim_right t2
                  else reversed
              | [] => reversed
              end
        | [] => reversed
        end
  | [] => []
  end.

Definition trim (l : list ascii) : list ascii :=
  rev (trim_right (rev (trim_left l))).

(** The value of a digit character in a base up to 16. *)
Definition digit_value (base : Z) (c : ascii) : option Z :=
  let n := code c in
  let v :=
    if (48 <=? n) && (n <=? 57) then n - 48
    else if (97 <=? n) && (n <=? 102) then n - 87
    else if (65 <=? n) && (n <=? 70) then n - 55
    else 16 in
  if v <? base then Some v else None.

(** The value of a non-empty run of digits; [None] when a character is not
    a digit of the base or the run is empty. *)
Fixpoint digits_from (base acc : Z) (l : list ascii) : option Z :=
  match l with
  | [] => Some acc
  | c :: t =>
      match digit_value base c with
      | Some v => digits_from base (base * acc + v) t
      | None => None
      end
  end.

Definition digits (base : Z) (l : list ascii) : option Z :=
  match l with
  | [] => None
  | _ => digits_from base 0 l
  end.

(** The longest prefix of decimal digits, and what follows it. *)
Fixpoint span_digits (l : list ascii) : list ascii * list ascii :=
  match l with
  | c :: t =>
      match digit_value 10 c with
      | Some _ => let (d, r) := span_digits t in (c :: d, r)
      | None => ([], l)
      end
  | [] => ([], [])
  end.

Definition is_char (c : ascii) (s : string) : bool :=
  match s with
  | String c' EmptyString => Ascii.eqb c c'
  | _ => false
  end.

(** StrUnsignedDecimalLiteral without [Infinity]: the decimal mantissa and
    the power of ten it is scaled by. *)
Definition unsigned_decimal (l : list ascii) : option (Z * Z) :=
  let (ip, r1) := span_digits l in
  let (fp, r2) :=
    match r1 with
    | c :: r => if is_char c "." then span_digits r else ([], r1)
    | [] => ([], r1)
    end in
  match ip ++ fp with
  | [] => None
  | ds =>
      match digits_from 10 0 ds with
      | None => None
      | Some m =>
          let frac := Z.of_nat (List.length fp) in
          match r2 with
          | [] => Some (m, - frac)
          | c :: r3 =>
              if is_char c "e" || is_char c "E" then
                let (neg, r4) :=
                  match r3 with
                  | s :: r => if is_char s "-" then (true, r)
                              else if is_char s "+" then (false, r)
                              else (false, r3)
                  | [] => (false, r3)
                  end in
                match digits 10 r4 with
                | Some x => Some (m, (if neg then - x else x) - frac)
                | None => None
                end
              else None
          end
      end
  end.

(** The number nearest to [m * 10 ^ e], for [0 <= m]. *)
Definition decimal_value (neg : bool) (m e : Z) : number :=
  match m with
  | Zpos p =>
      if 0 <=? e then Q2F neg (p * Z.to_pos (10 ^ e)) 1
      else Q2F neg p (Z.to_pos (10 ^ (- e)))
  | _ => if neg then neg_zero else zero
  end.

Definition Number_of_chars (l : list ascii) : number :=
  match trim l with
  | [] => zero
  | c0 :: c1 :: r =>
      if is_char c0 "0" && (is_char c1 "x" || is_char c1 "X") then
        match digits 16 r with Some v => Z2F v | None => nan end
      else if is_char c0 "0" && (is_char c1 "o" || is_char c1 "O") then
        match digits 8 r with Some v => Z2F v | None => nan end
      else if is_char c0 "0" && (is_char c1 "b" || is_char c1 "B") then
        match digits 2 r with Some v => Z2F v | None => nan end
      else
        let (neg, u) :=
          if is_char c0 "-" then (true, c1 :: r)
          else if is_char c0 "+" then (false, c1 :: r)
          else (false, c0 :: c1 :: r) in
        if list_eq_dec ascii_dec u (list_ascii_of_string "Infinity")
        then (if neg then neg_infinity else infinity)
        else match unsigned_decimal u with
             | Some (m, e) => decimal_value neg m e
             | None => nan
             end
  | [c0] =>
      match digit_value 10 c0 with
      | Some v => Z2F v
      | None => nan
      end
  end.

(** [Number(s)] for a string [s]. *)
Definition Number (s : string) : number :=
  Number_of_chars (list_ascii_of_string s).

(** [Number(v)] where [v] is a string or [undefined] (an array read past
    the end): [Number(undefined)] is NaN. *)
Definition Number_opt (v : option string) : number :=
  match v with
  | Some s => Number s
  | None => nan
  end.

End JS.

(* ===================================================================== *)
(** * Exceptions *)
(* ===================================================================== *)

(** The faults of ethers' [NUMERIC_FAULT] error. *)
Inductive fault : Set := underflow | overflow | division_by_zero.

(** What the code can throw: ethers' [INVALID_ARGUMENT] (with the rejected
    value) and [NUMERIC_FAULT] errors, and JavaScript's [TypeError] (a
    property read on [undefined]). *)
Inductive error : Set :=
| INVALID_ARGUMENT (value : string)
| NUMERIC_FAULT (f : fault)
| TypeError.

Inductive result (A : Type) : Type :=
| Ok (a : A)
| Err (e : error).

Arguments Ok {A} a.
Arguments Err {A} e.

Definition bind {A B : Type} (r : result A) (k : A -> result B) : result B :=
  match r with
  | Ok a => k a
  | Err e => Err e
  end.

Notation "x <- r ;; k" := (bind r (fun x => k))
  (at level 61, r at next level, right associativity).

(* ===================================================================== *)
(** * [@ethersproject/bignumber] *)
(* ===================================================================== *)

Module BigNumber.

Import JS.

(** [MAX_SAFE = 0x1fffffffffffff], the bound [BigNumber.from] puts on a
    JavaScript number. *)
Definition MAX_SAFE : Z := 9007199254740991.

(** [BigNumber.from(value)] for a string: an optional minus sign, then
    either [0x] and hexadecimal digits or decimal digits, and nothing else;
    any other string is rejected as an invalid argument.  (The prefix is
    matched in lower case only: for [0X] the library keeps a malformed
    hexadecimal string whose later reading depends on the bn.js version.) *)
Definition from_string (value : string) : result Z :=
  let l := list_ascii_of_string value in
  let (neg, u) :=
    match l with
    | c :: r => if is_char c "-" then (true, r) else (false, l)
    | [] => (false, l)
    end in
  let hex :=
    match u with
    | c0 :: c1 :: r =>
        if is_char c0 "0" && is_char c1 "x" then digits 16 r else None
    | _ => None
    end in
  match hex with
  | Some v => Ok (if neg then - v else v)
  | None =>
      match digits 10 u with
      | Some v => Ok (if neg then - v else v)
      | None => Err (INVALID_ARGUMENT value)
      end
  end.

(** [BigNumber.from(value)] for a JavaScript number: a fraction is an
    underflow ([value % 1] is not zero), a magnitude of [MAX_SAFE] or more
    an overflow, and what is left goes through [String(value)], which is
    ["NaN"] for NaN and is rejected by the string rule. *)
Definition from_number (value : number) : result Z :=
  match Prim2SF value with
  | S754_nan => Err (INVALID_ARGUMENT "NaN")
  | S754_infinity _ => Err (NUMERIC_FAULT overflow)
  | _ =>
      match int_value value with
      | None => Err (NUMERIC_FAULT underflow)
      | Some z =>
          if (MAX_SAFE <=? z) || (z <=? - MAX_SAFE)
          then Err (NUMERIC_FAULT overflow)
          else Ok z
      end
  end.

Definition add (a b : Z) : Z := a + b.
Definition sub (a b : Z) : Z := a - b.
Definition mul (a b : Z) : Z := a * b.

(** [a.div(b)]: a zero divisor is a fault; the quotient is truncated
    towards zero (bn.js's [div]). *)
Definition div (a b : Z) : result Z :=
  if b =? 0 then Err (NUMERIC_FAULT division_by_zero) else Ok (Z.quot a b).

(** [a.toNumber()]: bn.js converts up to 53 bits; beyond, ethers reports an
    overflow. *)
Definition toNumber (a : Z) : result number :=
  if Z.abs a <? 2 ^ 53 then Ok (Z2F a) else Err (NUMERIC_FAULT overflow).

End BigNumber.

(* ===================================================================== *)
(** * Scaled arithmetic: [mulBN] and [divBN] *)
(* ===================================================================== *)

Import JS.

(** The default value of the [scale] parameter. *)
Definition default_scale : number := 10000%float.

(** [a.mul(Math.round(b * scale)).div(scale)]: both numbers given to
    [mul] and [div] go through [BigNumber.from]. *)
Definition mulBN (a : Z) (b : number) (scale : number) : result Z :=
  r <- BigNumber.from_number (Math_round (b * scale)%float) ;;
  let product := BigNumber.mul a r in
  s <- BigNumber.from_number scale ;;
  BigNumber.div product s.

(** [a.mul(scale).div(b).toNumber() / scale]; [b] is a BigNumber at both
    call sites. *)
Definition divBN (a : Z) (b : Z) (scale : number) : result number :=
  s <- BigNumber.from_number scale ;;
  q <- BigNumber.div (BigNumber.mul a s) b ;;
  n <- BigNumber.toNumber q ;;
  Ok (n / scale)%float.

(* ===================================================================== *)
(** * Data model *)
(* ===================================================================== *)

(** Modelled from the spec: the [market] field of the [Position] interface
    of [./interfaces] (not among the sources): the prices of the outcomes,
    decimal strings. *)
Record Market : Set := { outcomeTokenPrices : list string }.

(** Modelled from the spec: the [user] field of the [Position] interface:
    the identity of the user, a string. *)
Record User : Set := { id : string }.

(** Modelled from the spec: the [Position] interface of [./interfaces].
    The amounts are large-integer strings and the outcome index is a
    non-negative integer. *)
Record Position : Set := {
  netQuantity : string;
  valueSold : string;
  valueBought : string;
  outcomeIndex : nat;
  market : Market;
  user : User
}.

(** Modelled from the spec: the [LeaderBoardPosition] interface of
    [./interfaces]; its fields are those of the object literals of
    [getAllPositions] and [getAggregatedPositions].  The field [user] of
    the source is [lb_user] here, [user] being a field of [Position]. *)
Record LeaderBoardPosition : Set := {
  lb_user : string;
  earnings : number;
  invested : number;
  roi : number
}.

(** Modelled from the spec: the [BoardData] interface of [./interfaces]. *)
Record BoardData : Set := { leaderBoardPositions : list LeaderBoardPosition }.

(* ===================================================================== *)
(** * Valuation of one position: [getEarnings] and [getROI] *)
(* ===================================================================== *)

(** [position.market.outcomeTokenPrices[position.outcomeIndex]]: a string,
    or [undefined] past the end of the array. *)
Definition price_entry (position : Position) : option string :=
  nth_error (outcomeTokenPrices (market position)) (outcomeIndex position).

Definition getEarnings (position : Position) : result number :=
  netQuantity <- BigNumber.from_string (netQuantity position) ;;
  let outcomeTokenPrice := Number_opt (price_entry position) in
  valueSold <- BigNumber.from_string (valueSold position) ;;
  valueBought <- BigNumber.from_string (valueBought position) ;;
  netValue <- mulBN netQuantity outcomeTokenPrice default_scale ;;
  BigNumber.toNumber
    (BigNumber.sub (BigNumber.add netValue valueSold) valueBought).

Definition getROI (position : Position) : result number :=
  netQuantity <- BigNumber.from_string (netQuantity position) ;;
  let outcomeTokenPrice := Number_opt (price_entry position) in
  valueSold <- BigNumber.from_string (valueSold position) ;;
  valueBought <- BigNumber.from_string (valueBought position) ;;
  netValue <- mulBN netQuantity outcomeTokenPrice default_scale ;;
  let netEarnings :=
    BigNumber.sub (BigNumber.add netValue valueSold) valueBought in
  d <- divBN netEarnings valueBought default_scale ;;
  Ok (d * 100)%float.

(* ===================================================================== *)
(** * [getAllPositions] *)
(* ===================================================================== *)

(** The callback of [data.forEach]: the record pushed for one position. *)
Definition positionObject (position : Position) : result LeaderBoardPosition :=
  earnings <- getEarnings position ;;
  roi <- getROI position ;;
  Ok {| lb_user := id (user position);
        earnings := earnings;
        invested := Number (valueBought position);
        roi := roi |}.

(** [items.forEach(x => { array.push(callback(x)) })]: the array built so
    far is threaded through the loop, and an exception thrown by the
    callback ends it. *)
Fixpoint forEach_push {X : Type} (callback : X -> result LeaderBoardPosition)
    (array : list LeaderBoardPosition) (items : list X)
  : result (list LeaderBoardPosition) :=
  match items with
  | [] => Ok array
  | x :: rest =>
      obj <- callback x ;;
      forEach_push callback (array ++ [obj]) rest
  end.

Definition getAllPositions (data : list Position)
  : result (list LeaderBoardPosition) :=
  let allPositions := [] in
  forEach_push positionObject allPositions data.

(* ===================================================================== *)
(** * [lodash]'s [groupBy] and [Object.values] *)
(* ===================================================================== *)

(** A JavaScript object with string keys: its own properties in the order
    they were created. *)
Definition JSObject (V : Type) : Type := list (string * V).

Fixpoint get {V : Type} (key : string) (o : JSObject V) : option V :=
  match o with
  | [] => None
  | (k, v) :: rest => if String.eqb k key then Some v else get key rest
  end.

(** [o[key].push(value)] on the array stored under an existing key. *)
Fixpoint push_at {A : Type} (key : string) (value : A)
    (o : JSObject (list A)) : JSObject (list A) :=
  match o with
  | [] => []
  | (k, v) :: rest =>
      if String.eqb k key then (k, v ++ [value]) :: rest
      else (k, v) :: push_at key value rest
  end.

(** One step of [groupBy]: push onto the key's array when the object has
    the key, else create the key with a one-element array. *)
Definition groupBy_step {A : Type} (iteratee : A -> string)
    (result : JSObject (list A)) (value : A) : JSObject (list A) :=
  let key := iteratee value in
  match get key result with
  | Some _ => push_at key value result
  | None => result ++ [(key, [value])]
  end.

Definition groupBy {A : Type} (collection : list A) (iteratee : A -> string)
  : JSObject (list A) :=
  fold_left (groupBy_step iteratee) collection [].

(** An array index: the canonical decimal string of an integer below
    [2 ^ 32 - 1].  JavaScript lists such keys of an object first, in
    ascending numeric order, before its other keys. *)
Definition array_index (key : string) : option Z :=
  match list_ascii_of_string key with
  | [] => None
  | c :: r =>
      match r with
      | _ :: _ => if is_char c "0" then None else
          match digits 10 (c :: r) with
          | Some v => if v <? 2 ^ 32 - 1 then Some v else None
          | None => None
          end
      | [] => digits 10 [c]
      end
  end.

(** Insertion of an indexed property among those already ordered. *)
Fixpoint insert_indexed {V : Type} (i : Z) (v : V) (l : list (Z * V))
  : list (Z * V) :=
  match l with
  | [] => [(i, v)]
  | (j, w) :: rest =>
      if i <? j then (i, v) :: (j, w) :: rest
      else (j, w) :: insert_indexed i v rest
  end.

(** The properties whose key is an array index, in ascending order. *)
Fixpoint indexed_properties {V : Type} (o : JSObject V)
  : list (Z * (string * V)) :=
  match o with
  | [] => []
  | (k, v) :: rest =>
      match array_index k with
      | Some i => insert_indexed i (k, v) (indexed_properties rest)
      | None => indexed_properties rest
      end
  end.

(** The other properties, in creation order. *)
Fixpoint named_properties {V : Type} (o : JSObject V) : list (string * V) :=
  match o with
  | [] => []
  | (k, v) :: rest =>
      match array_index k with
      | Some _ => named_properties rest
      | None => (k, v) :: named_properties rest
      end
  end.

(** [Object.entries(o)], [Object.keys(o)] and [Object.values(o)] list the
    own properties in the same order. *)
Definition Object_entries {V : Type} (o : JSObject V) : list (string * V) :=
  map snd (indexed_properties o) ++ named_properties o.

Definition Object_keys {V : Type} (o : JSObject V) : list string :=
  map fst (Object_entries o).

Definition Object_values {V : Type} (o : JSObject V) : list V :=
  map snd (Object_entries o).

(* ===================================================================== *)
(** * [getAggregatedPositions] *)
(* ===================================================================== *)

(** [Object.values(position).reduce((t, {f}) => t + f, 0)]: the values of
    an array are its elements in order. *)
Definition total (f : LeaderBoardPosition -> number)
    (position : list LeaderBoardPosition) : number :=
  fold_left (fun t p => (t + f p)%float) position 0%float.

(** The callback of the [forEach] over the groups: the record pushed for
    one group.  [position[0].user] throws on an empty group. *)
Definition aggregate (position : list LeaderBoardPosition)
  : result LeaderBoardPosition :=
  let totalInvested := total invested position in
  let totalEarnings := total earnings position in
  let totalROI := total roi position in
  match position with
  | [] => Err TypeError
  | first :: _ =>
      Ok {| lb_user := lb_user first;
            invested := totalInvested;
            earnings := totalEarnings;
            roi := totalROI |}
  end.

Definition getAggregatedPositions (allPositions : list LeaderBoardPosition)
  : result (list LeaderBoardPosition) :=
  let aggregatedPositions := [] in
  let positionsByUser := groupBy allPositions lb_user in
  forEach_push aggregate aggregatedPositions (Object_values positionsByUser).

(* ===================================================================== *)
(** * [Array.prototype.sort], [slice] and [getTopTen] *)
(* ===================================================================== *)

(** [Array.prototype.sort(comparefn)] as V8 runs it: a stable sort that
    looks at a result of [comparefn] only to test whether it is negative,
    in which case the later of the two elements moves ahead of the earlier
    one.  Where that test is a strict weak order on the elements, every
    such sort yields the same array; the embedding inserts each element
    among those that follow it.  (Where the test is no such order, as for
    earnings that are NaN, the array V8 produces depends on the comparisons
    its algorithm happens to make; the statements below on the order of the
    result leave these arrays out.) *)
Section ArraySort.

Context {A : Type}.
Variable comparefn : A -> A -> Z.

Fixpoint sort_insert (x : A) (sorted : list A) : list A :=
  match sorted with
  | [] => [x]
  | h :: t =>
      if comparefn h x <? 0 then h :: sort_insert x t else x :: h :: t
  end.

Fixpoint Array_sort (l : list A) : list A :=
  match l with
  | [] => []
  | x :: t => sort_insert x (Array_sort t)
  end.

End ArraySort.

(** [l.slice(start, end)] for indices within [0 .. length]. *)
Definition Array_slice {A : Type} (start stop : nat) (l : list A) : list A :=
  firstn (stop - start) (skipn start l).

(** The comparator of [getTopTen]:
    [Number(a.earnings) > Number(b.earnings) ? -1 : 1]. *)
Definition byEarnings (a b : LeaderBoardPosition) : Z :=
  if gt (earnings a) (earnings b) then -1 else 1.

(** The value [getTopTen] returns. *)
Definition getTopTen (aggregatedPositions : list LeaderBoardPosition)
  : BoardData :=
  let sorted := Array_sort byEarnings aggregatedPositions in
  let board := Array_slice 0 10 sorted in
  {| leaderBoardPositions := board |}.

(* ===================================================================== *)
(** * The three stages on mutable arrays *)
(* ===================================================================== *)

(** Arrays are objects: a variable holds a reference into a store, [push]
    and [sort] update the array behind the reference, [slice] and an array
    literal allocate a new one. *)
Module Store.

Inductive array : Set :=
| Positions (l : list Position)
| Board (l : list LeaderBoardPosition).

Definition ref := nat.
Definition store := list array.

Definition alloc (a : array) (h : store) : ref * store :=
  (List.length h, h ++ [a]).

Definition read (r : ref) (h : store) : option array := nth_error h r.

Fixpoint write (r : ref) (a : array) (h : store) : store :=
  match h, r with
  | [], _ => []
  | _ :: t, O => a :: t
  | x :: t, S r' => x :: write r' a t
  end.

Definition read_positions (r : ref) (h : store) : result (list Position) :=
  match read r h with
  | Some (Positions l) => Ok l
  | _ => Err TypeError
  end.

Definition read_board (r : ref) (h : store)
  : result (list LeaderBoardPosition) :=
  match read r h with
  | Some (Board l) => Ok l
  | _ => Err TypeError
  end.

(** [a.push(obj)]. *)
Definition push (a : ref) (obj : LeaderBoardPosition) (h : store)
  : result store :=
  l <- read_board a h ;;
  Ok (write a (Board (l ++ [obj])) h).

(** [items.forEach(x => target.push(f x))], where [f] may throw. *)
Fixpoint forEach_push_at {X : Type} (f : X -> result LeaderBoardPosition)
    (target : ref) (items : list X) (h : store) : result store :=
  match items with
  | [] => Ok h
  | x :: rest =>
      obj <- f x ;;
      h' <- push target obj h ;;
      forEach_push_at f target rest h'
  end.

Definition getAllPositions (data : ref) (h : store) : result (ref * store) :=
  let (allPositions, h1) := alloc (Board []) h in
  items <- read_positions data h1 ;;
  h2 <- forEach_push_at positionObject allPositions items h1 ;;
  Ok (allPositions, h2).

Definition getAggregatedPositions (allPositions : ref) (h : store)
  : result (ref * store) :=
  let (aggregatedPositions, h1) := alloc (Board []) h in
  items <- read_board allPositions h1 ;;
  let positionsByUser := groupBy items lb_user in
  h2 <- forEach_push_at aggregate aggregatedPositions
          (Object_values positionsByUser) h1 ;;
  Ok (aggregatedPositions, h2).

(** [getTopTen]: [sort] rearranges the array it is called on; [slice]
    copies.  The result is the reference held by [leaderBoardPositions]. *)
Definition getTopTen (aggregatedPositions : ref) (h : store)
  : result (ref * store) :=
  l <- read_board aggregatedPositions h ;;
  let h1 := write aggregatedPositions (Board (Array_sort byEarnings l)) h in
  sorted <- read_board aggregatedPositions h1 ;;
  let (board, h2) := alloc (Board (Array_slice 0 10 sorted)) h1 in
  Ok (board, h2).

End Store.

(* ===================================================================== *)
(** * Specification-level views used in the statements *)
(* ===================================================================== *)

(** The distinct keys of a list, each at its first occurrence. *)
Fixpoint first_occurrences (l : list string) : list string :=
  match l with
  | [] => []
  | k :: t => k :: remove string_dec k (first_occurrences t)
  end.

(** The positions of one user, in input order. *)
Definition members (u : string) (l : list LeaderBoardPosition)
  : list LeaderBoardPosition :=
  filter (fun p => String.eqb (lb_user p) u) l.

(** The keys that are array indices, in ascending order of their value. *)
Fixpoint index_keys (ks : list string) : list (Z * string) :=
  match ks with
  | [] => []
  | k :: rest =>
      match array_index k with
      | Some i => insert_indexed i k (index_keys rest)
      | None => index_keys rest
      end
  end.

Definition is_named (k : string) : bool :=
  match array_index k with
  | Some _ => false
  | None => true
  end.

(** The order in which JavaScript lists keys created in the order [ks]. *)
Definition ordered_keys (ks : list string) : list string :=
  map snd (index_keys ks) ++ filter is_named ks.

(** The record of one user: plain sums over the user's positions. *)
Definition rollup (u : string) (l : list LeaderBoardPosition)
  : LeaderBoardPosition :=
  {| lb_user := u;
     invested := total invested (members u l);
     earnings := total earnings (members u l);
     roi := total roi (members u l) |}.

(** The integer a number stands for (0 when it stands for none). *)
Definition amount (x : number) : Z :=
  match int_value x with
  | Some z => z
  | None => 0
  end.

Definition zsum (zs : list Z) : Z := fold_right Z.add 0 zs.

(** A number that holds a non-negative integer below [2 ^ 53]. *)
Definition whole (x : number) : Prop :=
  x = Z2F (amount x) /\ 0 <= amount x < 2 ^ 53.

(** A number that holds an integer of magnitude below [2 ^ 53]. *)
Definition integral (x : number) : Prop :=
  x = Z2F (amount x) /\ Z.abs (amount x) < 2 ^ 53.

(** Following the specification ("for each group, sum [invested] and sum
    [earnings] across its members, and sum (not average) [roi]"): the
    plain sum of a list of numbers, each taken once and with no weight,
    added one after the other to nothing. *)
Fixpoint sum_onto (acc : number) (xs : list number) : number :=
  match xs with
  | [] => acc
  | x :: rest => sum_onto (acc + x)%float rest
  end.

Definition plain_sum (xs : list number) : number := sum_onto 0%float xs.

(** The elements of a list filed under one key by [groupBy]. *)
Definition filed {A : Type} (iteratee : A -> string) (l : list A)
    (k : string) : list A :=
  filter (fun v => String.eqb (iteratee v) k) l.

(** ** Views of binary64 numbers used in the proofs *)

(** The binary64 representation of a positive integer below [2 ^ 53]:
    53 digits of mantissa. *)
Definition canon (s : bool) (q : positive) : spec_float :=
  let d := Zpos (digits2_pos q) in
  S754_finite s (Z.to_pos (Zpos q * 2 ^ (53 - d))) (d - 53).

(** The representation [Z2F] builds. *)
Definition bn (z : Z) : spec_float := binary_normalize prec emax z 0 false.

(** A number that is neither NaN nor infinite. *)
Definition is_finite (x : number) : bool :=
  match Prim2SF x with
  | S754_zero _ | S754_finite _ _ _ => true
  | _ => false
  end.

(** ** Views of the board *)

(** NaN never reaches the comparator on these lists. *)
Definition no_NaN (l : list LeaderBoardPosition) : Prop :=
  Forall (fun p => is_nan (earnings p) = false) l.

(** [a] is ranked at least as high as [b]. *)
Definition ge_earnings (a b : LeaderBoardPosition) : Prop :=
  (earnings b <=? earnings a)%float = true.

(** The records whose earnings equal [e]. *)
Definition tied (e : number) (p : LeaderBoardPosition) : bool :=
  (earnings p =? e)%float.

(** Records with equal earnings are the same record: no two different
    entries tie. *)
Definition untied (l : list LeaderBoardPosition) : Prop :=
  forall a b, In a l -> In b l ->
    (earnings a =? earnings b)%float = true -> a = b.

(** An amount string with the prefix [0X] in upper case.  The test of
    ethers ignores case and takes it for a hexadecimal string, whose
    reading it leaves to bn.js, and bn.js fails on it at the first
    operation; [BigNumber.from_string] rejects it at once.  On every other
    string the two agree. *)
Definition upper_case_prefix (value : string) : bool :=
  let l := list_ascii_of_string value in
  let u :=
    match l with
    | c :: r => if is_char c "-" then r else l
    | [] => l
    end in
  match u with
  | c0 :: c1 :: r =>
      is_char c0 "0" && is_char c1 "X"
      && match digits 16 r with Some _ => true | None => false end
  | _ => false
  end.

(** The amounts of a position are read by [BigNumber.from] at once. *)
Definition read_at_once (p : Position) : Prop :=
  upper_case_prefix (netQuantity p) = false
  /\ upper_case_prefix (valueSold p) = false
  /\ upper_case_prefix (valueBought p) = false.

(** The errors the valuation of one position can end in. *)
Definition position_error (p : Position) (e : error) : Prop :=
  e = INVALID_ARGUMENT (netQuantity p)
  \/ e = INVALID_ARGUMENT (valueSold p)
  \/ e = INVALID_ARGUMENT (valueBought p)
  \/ e = INVALID_ARGUMENT "NaN"
  \/ e = NUMERIC_FAULT overflow
  \/ (e = NUMERIC_FAULT division_by_zero
      /\ BigNumber.from_string (valueBought p) = Ok 0).

(** The integer nearest to a number, halves towards +infinity: the integer
    [Math_round] yields, computed with shifts. *)
Definition nearest_integer (x : number) : option Z :=
  match Prim2SF x with
  | S754_zero _ => Some 0
  | S754_finite s m e =>
      if 0 <=? e then Some (cond_Zopp s (Z.shiftl (Zpos m) e))
      else Some (Z.shiftr (2 * cond_Zopp s (Zpos m) + Z.shiftl 1 (- e))
                          (1 - e))
  | _ => None
  end.

(** [f] holds of the [n] integers from [m] on. *)
Fixpoint all_from (f : Z -> bool) (n : nat) (m : Z) : bool :=
  match n with
  | O => true
  | S n' => f m && all_from f n' (m + 1)
  end.

(* ===================================================================== *)
(** * Concrete inputs used in the examples *)
(* ===================================================================== *)

Definition position_of (nq vs vb : string) (i : nat) (prices : list string)
    (u : string) : Position :=
  {| netQuantity := nq; valueSold := vs; valueBought := vb;
     outcomeIndex := i; market := {| outcomeTokenPrices := prices |};
     user := {| id := u |} |}.

(** Sold for [2 ^ 53] base units, nothing bought, nothing held. *)
Definition large_sale : Position :=
  position_of "0" "9007199254740992" "0" 0 ["0.5"%string] "a".

(** Nothing bought, at a price of [10 ^ 12]. *)
Definition huge_price : Position :=
  position_of "1" "0" "0" 0 ["1000000000000"%string] "a".

(** An outcome index past the end of the two prices. *)
Definition missing_price : Position :=
  position_of "100" "50" "20" 2 ["0.5"%string; "0.25"%string] "a".

(** An outcome index within bounds, at a price that is no number. *)
Definition unreadable_price : Position :=
  position_of "100" "50" "20" 1 ["0.5"%string; "n/a"%string] "a".

(** A regular position: 100 tokens at 0.25, 50 sold, 20 bought. *)
Definition regular_position : Position :=
  position_of "100" "50" "20" 1 ["0.5"%string; "0.25"%string] "a".

Definition record_of (u : string) (e i r : number) : LeaderBoardPosition :=
  {| lb_user := u; earnings := e; invested := i; roi := r |}.

(** User A bought for [2 ^ 53] (and sold for as much) and for 1, user B
    twice for 1. *)
Definition uneven_positions : list Position :=
  [ position_of "0" "9007199254740992" "9007199254740992" 0 ["0.5"%string] "A";
    position_of "0" "0" "1" 0 ["0.5"%string] "B";
    position_of "0" "0" "1" 0 ["0.5"%string] "A";
    position_of "0" "0" "1" 0 ["0.5"%string] "B" ].

(** Their valuations. *)
Definition uneven_stakes : list LeaderBoardPosition :=
  [ record_of "A" 0 9007199254740992 0;
    record_of "B" (-1) 1 (-100);
    record_of "A" (-1) 1 (-100);
    record_of "B" (-1) 1 (-100) ]%float.

(** Their aggregation. *)
Definition uneven_rollup : list LeaderBoardPosition :=
  [ record_of "A" (-1) 9007199254740992 (-100);
    record_of "B" (-2) 2 (-200) ]%float.

(** Users named by numbers, the larger one first. *)
Definition numbered_users : list LeaderBoardPosition :=
  [ record_of "1" 5 10 50; record_of "0" 7 10 70 ]%float.

(** Three users, two of them tied, one with two positions. *)
Definition small_board : list LeaderBoardPosition :=
  [ record_of "ann" 100 1000 10;
    record_of "bob" 200 1000 20;
    record_of "ann" 50 500 10;
    record_of "cat" 200 4000 5 ]%float.

(** The aggregated records of [small_board]. *)
Definition small_rollup : list LeaderBoardPosition :=
  [ record_of "ann" 150 1500 20;
    record_of "bob" 200 1000 20;
    record_of "cat" 200 4000 5 ]%float.

(** Fifteen users with earnings 1 to 15. *)
Definition fifteen_users : list LeaderBoardPosition :=
  map (fun n => record_of (String (ascii_of_nat (96 + n)) EmptyString)
                  (Z2F (Z.of_nat n)) 100%float 1%float)
      (seq 1 15).

(** A store with one array: user [low] at 1 ahead of user [high] at 2. *)
Definition unsorted_store : Store.store :=
  [ Store.Board [ record_of "low" 1 10 10; record_of "high" 2 10 20 ]%float ].

(* ===================================================================== *)
(** * Tactics *)
(* ===================================================================== *)

(** Case analysis on the comparisons inside [SFcompare]. *)
Ltac sf_compare :=
  repeat match goal with
  | |- context [Pos.compare_cont Eq ?a ?b] =>
      change (Pos.compare_cont Eq a b) with (Pos.compare a b)
  | H : context [Pos.compare_cont Eq ?a ?b] |- _ =>
      change (Pos.compare_cont Eq a b) with (Pos.compare a b) in H
  end;
  repeat match goal with
  | H : context [Z.compare ?a ?b] |- _ =>
      destruct (Z.compare_spec a b); try discriminate H
  | |- context [Z.compare ?a ?b] =>
      destruct (Z.compare_spec a b)
  | H : context [Pos.compare ?a ?b] |- _ =>
      destruct (Pos.compare_spec a b); try discriminate H
  | |- context [Pos.compare ?a ?b] =>
      destruct (Pos.compare_spec a b)
  end; simpl in *; try reflexivity; try discriminate; try lia.

Ltac sf_cases :=
  unfold SFleb, SFltb, SFeqb, SFcompare in *;
  repeat match goal with
  | x : spec_float |- _ => destruct x
  | b : bool |- _ => destruct b
  end; simpl in *; try reflexivity; try discriminate; try congruence.

(* ===================================================================== *)
(** * The run-time functions on a few inputs *)
(* ===================================================================== *)

Lemma Number_examples :
  Number "0.5" = 0.5%float
  /\ Number "0.1" = 0x1.999999999999ap-4%float
  /\ Number "0.0001" = 0x1.a36e2eb1c432dp-14%float
  /\ Number "1000000000000" = Z2F (10 ^ 12)
  /\ Number "9007199254740993" = 9007199254740992%float
  /\ Number " 12 " = 12%float
  /\ Number "1e3" = 1000%float
  /\ Number "0x1f" = 31%float
  /\ Number "-0x1f" = nan
  /\ Number " " = 0%float
  /\ Number "n/a" = nan
  /\ Number_opt None = nan.
Proof. repeat split; vm_compute; reflexivity. Qed.

(** White space beyond one byte is trimmed as well: U+00A0 before and
    U+FEFF after [12], U+2003 before and U+3000 after [0.5]; a byte of such
    a sequence alone is no white space. *)
Lemma Number_white_space_examples :
  Number (string_of_list_ascii
            (map ascii_of_nat [194; 160; 49; 50; 239; 187; 191]%nat))
  = 12%float
  /\ Number (string_of_list_ascii
               (map ascii_of_nat
                    [226; 128; 131; 48; 46; 53; 227; 128; 128]%nat))
     = 0.5%float
  /\ Number (string_of_list_ascii (map ascii_of_nat [194; 49; 50]%nat)) = nan.
Proof. repeat split; vm_compute; reflexivity. Qed.

Lemma Math_round_examples :
  Math_round 0.5%float = 1%float
  /\ Math_round (-0.5)%float = (-0)%float
  /\ Math_round 2.5%float = 3%float
  /\ Math_round (-2.5)%float = (-2)%float
  /\ Math_round 0x1.fffffffffffffp-2%float = 0%float
  /\ Math_round nan = nan
  /\ Math_round infinity = infinity.
Proof. repeat split; vm_compute; reflexivity. Qed.

Lemma from_string_examples :
  BigNumber.from_string "123" = Ok 123
  /\ BigNumber.from_string "-0x1f" = Ok (-31)
  /\ BigNumber.from_string "115792089237316195423570985008687907853269984665640564039457584007913129639935"
     = Ok (2 ^ 256 - 1)
  /\ BigNumber.from_string "1.5" = Err (INVALID_ARGUMENT "1.5")
  /\ BigNumber.from_string "0x" = Err (INVALID_ARGUMENT "0x").
Proof. repeat split; vm_compute; reflexivity. Qed.

Lemma from_number_examples :
  BigNumber.from_number 10000%float = Ok 10000
  /\ BigNumber.from_number (-0)%float = Ok 0
  /\ BigNumber.from_number 0.5%float = Err (NUMERIC_FAULT underflow)
  /\ BigNumber.from_number 9007199254740991%float = Err (NUMERIC_FAULT overflow)
  /\ BigNumber.from_number 9007199254740990%float = Ok 9007199254740990
  /\ BigNumber.from_number infinity = Err (NUMERIC_FAULT overflow)
  /\ BigNumber.from_number nan = Err (INVALID_ARGUMENT "NaN").
Proof. repeat split; vm_compute; reflexivity. Qed.

Lemma array_index_examples :
  array_index "0" = Some 0
  /\ array_index "7" = Some 7
  /\ array_index "4294967294" = Some 4294967294
  /\ array_index "4294967295" = None
  /\ array_index "07" = None
  /\ array_index "-1" = None
  /\ array_index "0xab54a98ceb1f0ad2" = None.
Proof. repeat split; vm_compute; reflexivity. Qed.

(* ===================================================================== *)
(** * Facts about binary64 numbers *)
(* ===================================================================== *)

(** ** The order of numbers *)

Lemma SFltb_leb (x y : spec_float) : SFltb x y = true -> SFleb x y = true.
Proof. sf_cases; sf_compare. Qed.

Lemma SFleb_total (x y : spec_float) :
  x <> S754_nan -> y <> S754_nan -> SFltb x y = false -> SFleb y x = true.
Proof. intros; sf_cases; sf_compare. Qed.

Lemma SFleb_trans (x y z : spec_float) :
  SFleb x y = true -> SFleb y z = true -> SFleb x z = true.
Proof. intros; sf_cases; sf_compare. Qed.

Lemma SFeqb_ltb (x h e : spec_float) :
  SFeqb x e = true -> SFltb x h = true -> SFeqb h e = false.
Proof. intros; sf_cases; sf_compare. Qed.

Lemma SFeqb_refl (x : spec_float) : x <> S754_nan -> SFeqb x x = true.
Proof. intros; sf_cases; sf_compare. Qed.

Lemma is_nan_Prim2SF (x : number) :
  is_nan x = false <-> Prim2SF x <> S754_nan.
Proof.
  unfold is_nan. rewrite eqb_spec, negb_false_iff. split.
  - intros H E. rewrite E in H. discriminate H.
  - apply SFeqb_refl.
Qed.

Lemma ltb_leb (x y : number) : (x <? y)%float = true -> (x <=? y)%float = true.
Proof. rewrite ltb_spec, leb_spec. apply SFltb_leb. Qed.

Lemma leb_total (x y : number) :
  is_nan x = false -> is_nan y = false ->
  (x <? y)%float = false -> (y <=? x)%float = true.
Proof.
  rewrite !is_nan_Prim2SF, ltb_spec, leb_spec. apply SFleb_total.
Qed.

Lemma leb_trans (x y z : number) :
  (x <=? y)%float = true -> (y <=? z)%float = true -> (x <=? z)%float = true.
Proof. rewrite !leb_spec. apply SFleb_trans. Qed.

Lemma eqb_ltb (x h e : number) :
  (x =? e)%float = true -> (x <? h)%float = true -> (h =? e)%float = false.
Proof. rewrite !eqb_spec, ltb_spec. apply SFeqb_ltb. Qed.

(** ** Integers below [2 ^ 53] are numbers, and their sums are exact *)

Lemma digits2_pos_size (p : positive) : digits2_pos p = Pos.size p.
Proof. induction p; simpl; congruence. Qed.

Lemma digits2_pos_bounds (p : positive) :
  2 ^ (Zpos (digits2_pos p) - 1) <= Zpos p < 2 ^ Zpos (digits2_pos p).
Proof.
  rewrite digits2_pos_size.
  assert (H : Zpos (Pos.size p) = Z.log2 (Zpos p) + 1).
  { destruct p; simpl; lia. }
  rewrite H. replace (Z.log2 (Zpos p) + 1 - 1) with (Z.log2 (Zpos p)) by lia.
  replace (Z.log2 (Zpos p) + 1) with (Z.succ (Z.log2 (Zpos p))) by lia.
  apply Z.log2_spec. lia.
Qed.

Lemma digits2_pos_unique (p : positive) (d : Z) :
  2 ^ (d - 1) <= Zpos p < 2 ^ d -> Zpos (digits2_pos p) = d.
Proof.
  intros [Hl Hu]. pose proof (digits2_pos_bounds p) as [Hl' Hu'].
  assert (0 < d).
  { destruct (Z.lt_trichotomy d 0) as [Hn | [Hz | Hp]]; auto.
    - rewrite (Z.pow_neg_r 2 d) in Hu by lia. lia.
    - subst d. simpl in Hu. lia. }
  destruct (Z.lt_trichotomy (Zpos (digits2_pos p)) d) as [Hlt | [Heq | Hgt]]; auto.
  - assert (2 ^ Zpos (digits2_pos p) <= 2 ^ (d - 1)) by (apply Z.pow_le_mono_r; lia). lia.
  - assert (2 ^ d <= 2 ^ (Zpos (digits2_pos p) - 1)) by (apply Z.pow_le_mono_r; lia). lia.
Qed.

Lemma iter_pos_nat {A : Type} (f : A -> A) (p : positive) (x : A) :
  iter_pos f p x = Nat.iter (Pos.to_nat p) f x.
Proof.
  revert x. induction p as [p IH | p IH |]; intros x; cbn [iter_pos].
  - rewrite !IH, Pos2Nat.inj_xI.
    replace (2 * Pos.to_nat p)%nat with (Pos.to_nat p + Pos.to_nat p)%nat by lia.
    rewrite Nat.iter_succ_r, Nat.iter_add. reflexivity.
  - rewrite !IH, Pos2Nat.inj_xO.
    replace (2 * Pos.to_nat p)%nat with (Pos.to_nat p + Pos.to_nat p)%nat by lia.
    rewrite Nat.iter_add. reflexivity.
  - reflexivity.
Qed.

(** Shifting out [n] zero bits loses nothing. *)
Lemma shr_1_exact (n : nat) (q : positive) :
  Nat.iter n shr_1
    {| shr_m := Zpos q * 2 ^ Z.of_nat n; shr_r := false; shr_s := false |}
  = {| shr_m := Zpos q; shr_r := false; shr_s := false |}.
Proof.
  revert q. induction n as [| n IH]; intros q.
  - simpl. f_equal. lia.
  - rewrite Nat.iter_succ_r.
    replace (Zpos q * 2 ^ Z.of_nat (S n))
      with (Zpos (xO (q * Z.to_pos (2 ^ Z.of_nat n)))).
    + simpl shr_1. rewrite <- (IH q). f_equal. f_equal.
      rewrite Pos2Z.inj_mul, Z2Pos.id; [reflexivity | apply Z.pow_pos_nonneg; lia].
    + rewrite Pos2Z.inj_xO, Pos2Z.inj_mul, Z2Pos.id by (apply Z.pow_pos_nonneg; lia).
      rewrite Nat2Z.inj_succ, Z.pow_succ_r by lia. lia.
Qed.

Lemma iter_xO_pow (p d : positive) :
  Zpos (Pos.iter xO p d) = Zpos p * 2 ^ Zpos d.
Proof.
  rewrite (Pos.iter_swap_gen _ _ Zpos xO (Z.mul 2)) by reflexivity.
  change (Pos.iter (Z.mul 2) (Zpos p) d) with (Z.shiftl (Zpos p) (Zpos d)).
  apply Z.shiftl_mul_pow2. lia.
Qed.

(** Rounding a mantissa made of 53 digits followed by [k] zero bits. *)
Lemma binary_round_aux_exact (s : bool) (m m' : positive) (e k : Z) :
  0 <= k -> Zpos m = Zpos m' * 2 ^ k -> Zpos (digits2_pos m') = 53 ->
  -1074 <= e + k <= 971 ->
  binary_round_aux prec emax s (Zpos m) e loc_Exact = S754_finite s m' (e + k).
Proof.
  intros Hk Hm Hd He.
  assert (Hdm : Zpos (digits2_pos m) = 53 + k).
  { apply digits2_pos_unique. pose proof (digits2_pos_bounds m') as B. rewrite Hd in B.
    rewrite Hm. replace (53 + k - 1) with (52 + k) by lia.
    rewrite !Z.pow_add_r by lia. change (53 - 1) with 52 in B.
    assert (0 < 2 ^ k) by (apply Z.pow_pos_nonneg; lia). nia. }
  unfold binary_round_aux.
  assert (S1 : shr_fexp prec emax (Zpos m) e loc_Exact
          = ({| shr_m := Zpos m'; shr_r := false; shr_s := false |}, e + k)).
  { unfold shr_fexp, Zdigits2. rewrite Hdm. unfold fexp, emin, prec, emax.
    replace (Z.max (53 + k + e - 53) (3 - 1024 - 53) - e) with k by lia.
    unfold shr, shr_record_of_loc. destruct k as [| k | k]; try lia.
    - f_equal; [| lia]. f_equal. rewrite Hm. lia.
    - f_equal. rewrite iter_pos_nat. rewrite Hm.
      rewrite <- (positive_nat_Z k). apply shr_1_exact. }
  rewrite S1. cbn [shr_m loc_of_shr_record round_nearest_even].
  assert (S2 : shr_fexp prec emax (Zpos m') (e + k) loc_Exact
          = ({| shr_m := Zpos m'; shr_r := false; shr_s := false |}, e + k)).
  { unfold shr_fexp, Zdigits2. rewrite Hd. unfold fexp, emin, prec, emax.
    replace (Z.max (53 + (e + k) - 53) (3 - 1024 - 53) - (e + k)) with 0 by lia.
    reflexivity. }
  rewrite S2. cbn [shr_m]. unfold prec, emax.
  destruct (Z.leb_spec (e + k) (1024 - 53)); [reflexivity | lia].
Qed.

Lemma canon_digits (q : positive) :
  Zpos q < 2 ^ 53 ->
  let d := Zpos (digits2_pos q) in
  1 <= d <= 53 /\
  Zpos (Z.to_pos (Zpos q * 2 ^ (53 - d))) = Zpos q * 2 ^ (53 - d) /\
  Zpos (digits2_pos (Z.to_pos (Zpos q * 2 ^ (53 - d)))) = 53.
Proof.
  intros Hq d. pose proof (digits2_pos_bounds q) as Bq. fold d in Bq.
  assert (Hd : 1 <= d <= 53).
  { split; [unfold d; lia |].
    destruct (Z_le_gt_dec d 53); auto.
    assert (2 ^ 53 <= 2 ^ (d - 1)) by (apply Z.pow_le_mono_r; lia). lia. }
  assert (P2 : 0 < 2 ^ (53 - d)) by (apply Z.pow_pos_nonneg; lia).
  assert (Hm : Zpos (Z.to_pos (Zpos q * 2 ^ (53 - d))) = Zpos q * 2 ^ (53 - d)).
  { rewrite Z2Pos.id; [reflexivity | lia]. }
  repeat split; try lia; auto.
  apply digits2_pos_unique. rewrite Hm.
  assert (E1 : 2 ^ (53 - 1) = 2 ^ (d - 1) * 2 ^ (53 - d))
    by (rewrite <- Z.pow_add_r by lia; f_equal; lia).
  assert (E2 : 2 ^ 53 = 2 ^ d * 2 ^ (53 - d))
    by (rewrite <- Z.pow_add_r by lia; f_equal; lia).
  rewrite E1, E2. split.
  - apply Z.mul_le_mono_nonneg_r; lia.
  - apply Z.mul_lt_mono_pos_r; lia.
Qed.

Lemma binary_round_canon (s : bool) (p q : positive) (e : Z) :
  e <= 0 -> Zpos p = Zpos q * 2 ^ (- e) -> Zpos q < 2 ^ 53 ->
  binary_round prec emax s p e = canon s q.
Proof.
  intros He Hp Hq. unfold binary_round, canon.
  destruct (canon_digits q Hq) as (Hdq & Hm' & Hd').
  set (dq := Zpos (digits2_pos q)) in *.
  assert (Hdp : Zpos (digits2_pos p) = dq - e).
  { apply digits2_pos_unique. rewrite Hp.
    pose proof (digits2_pos_bounds q) as Bq. fold dq in Bq.
    replace (dq - e - 1) with ((dq - 1) + - e) by lia.
    replace (dq - e) with (dq + - e) by lia.
    rewrite !Z.pow_add_r by lia.
    assert (0 < 2 ^ (- e)) by (apply Z.pow_pos_nonneg; lia). nia. }
  rewrite Hdp. unfold fexp, emin, prec, emax.
  replace (Z.max (dq - e + e - 53) (3 - 1024 - 53)) with (dq - 53) by lia.
  unfold shl_align.
  destruct (dq - 53 - e) as [| d | d] eqn:Hd.
  - replace (dq - 53) with (e + 0) by lia.
    apply binary_round_aux_exact; [lia | | exact Hd' | lia].
    rewrite Hp, Hm'. replace (53 - dq) with (- e) by lia. lia.
  - replace (dq - 53) with (e + Zpos d) by lia.
    apply binary_round_aux_exact; [lia | | exact Hd' | lia].
    rewrite Hp, Hm'. replace (- e) with ((53 - dq) + Zpos d) by lia.
    rewrite Z.pow_add_r by lia. lia.
  - replace (dq - 53) with ((dq - 53) + 0) at 2 by lia.
    apply binary_round_aux_exact; [lia | | exact Hd' | lia].
    rewrite iter_xO_pow, Hp, Hm'.
    replace (53 - dq) with (- e + Zpos d) by lia.
    rewrite Z.pow_add_r by lia. lia.
Qed.

Lemma bn_pos (q : positive) : Zpos q < 2 ^ 53 -> bn (Zpos q) = canon false q.
Proof.
  intros H. unfold bn, binary_normalize.
  apply binary_round_canon; [lia | simpl; lia | exact H].
Qed.

Lemma bn_neg (q : positive) : Zpos q < 2 ^ 53 -> bn (Zneg q) = canon true q.
Proof.
  intros H. unfold bn, binary_normalize.
  apply binary_round_canon; [lia | simpl; lia | exact H].
Qed.

Lemma canon_valid (s : bool) (q : positive) :
  Zpos q < 2 ^ 53 -> valid_binary (canon s q) = true.
Proof.
  intros Hq. destruct (canon_digits q Hq) as (Hd & Hm & H53).
  unfold canon, valid_binary, SpecFloat.valid_binary, bounded, canonical_mantissa.
  rewrite H53. unfold fexp, emin, prec, emax.
  apply andb_true_iff. split.
  - apply Z.eqb_eq. lia.
  - apply Z.leb_le. lia.
Qed.

Lemma bn_valid (z : Z) : Z.abs z < 2 ^ 53 -> valid_binary (bn z) = true.
Proof.
  intros H. destruct z as [| q | q].
  - reflexivity.
  - rewrite bn_pos by lia. apply canon_valid. lia.
  - rewrite bn_neg by lia. apply canon_valid. lia.
Qed.

Lemma Prim2SF_Z2F (z : Z) : Z.abs z < 2 ^ 53 -> Prim2SF (Z2F z) = bn z.
Proof. intros H. unfold Z2F. apply Prim2SF_SF2Prim. apply (bn_valid z H). Qed.

Lemma shl_align_fst (m : positive) (e ez : Z) :
  ez <= e -> Zpos (fst (shl_align m e ez)) = Zpos m * 2 ^ (e - ez).
Proof.
  intros H. unfold shl_align. destruct (ez - e) as [| d | d] eqn:Hd; cbn [fst].
  - replace (e - ez) with 0 by lia. rewrite Z.pow_0_r. lia.
  - lia.
  - rewrite iter_xO_pow. f_equal. f_equal. lia.
Qed.

Lemma canon_scaled (s : bool) (q : positive) (ez : Z) :
  Zpos q < 2 ^ 53 -> ez <= Zpos (digits2_pos q) - 53 ->
  let d := Zpos (digits2_pos q) in
  cond_Zopp s
    (Zpos (fst (shl_align (Z.to_pos (Zpos q * 2 ^ (53 - d))) (d - 53) ez)))
  = cond_Zopp s (Zpos q) * 2 ^ (- ez).
Proof.
  intros Hq Hez d. destruct (canon_digits q Hq) as (Hd & Hm & _). fold d in Hd, Hm.
  rewrite shl_align_fst by (fold d; lia). rewrite Hm.
  replace (- ez) with ((53 - d) + (d - 53 - ez)) by lia.
  rewrite Z.pow_add_r by lia.
  destruct s; unfold cond_Zopp; ring.
Qed.

Lemma bn_scaled (z : Z) (ez : Z) :
  ez <= 0 -> Z.abs z < 2 ^ 53 ->
  binary_normalize prec emax (z * 2 ^ (- ez)) ez false = bn z.
Proof.
  intros Hez Hz.
  assert (P : 0 < 2 ^ (- ez)) by (apply Z.pow_pos_nonneg; lia).
  destruct z as [| q | q].
  - reflexivity.
  - rewrite bn_pos by lia.
    destruct (Zpos q * 2 ^ (- ez)) as [| p | p] eqn:E; try lia.
    unfold binary_normalize. apply binary_round_canon; lia.
  - rewrite bn_neg by lia.
    destruct (Zneg q * 2 ^ (- ez)) as [| p | p] eqn:E; try lia.
    unfold binary_normalize. apply binary_round_canon; try lia.
Qed.

Lemma SFadd_canon (sa sb : bool) (qa qb : positive) :
  Zpos qa < 2 ^ 53 -> Zpos qb < 2 ^ 53 ->
  Z.abs (cond_Zopp sa (Zpos qa) + cond_Zopp sb (Zpos qb)) < 2 ^ 53 ->
  SFadd prec emax (canon sa qa) (canon sb qb)
  = bn (cond_Zopp sa (Zpos qa) + cond_Zopp sb (Zpos qb)).
Proof.
  intros Ha Hb Hab.
  destruct (canon_digits qa Ha) as (Hda & _ & _).
  destruct (canon_digits qb Hb) as (Hdb & _ & _).
  unfold canon, SFadd.
  set (da := Zpos (digits2_pos qa)) in *. set (db := Zpos (digits2_pos qb)) in *.
  set (ez := Z.min (da - 53) (db - 53)).
  unfold da at 1 2. rewrite (canon_scaled sa qa ez Ha) by (fold da; lia).
  unfold db at 1 2. rewrite (canon_scaled sb qb ez Hb) by (fold db; lia).
  rewrite <- Z.mul_add_distr_r.
  apply bn_scaled; lia.
Qed.

Lemma SFadd_bn (a b : Z) :
  Z.abs a < 2 ^ 53 -> Z.abs b < 2 ^ 53 -> Z.abs (a + b) < 2 ^ 53 ->
  SFadd prec emax (bn a) (bn b) = bn (a + b).
Proof.
  intros Ha Hb Hab.
  destruct a as [| qa | qa].
  - rewrite Z.add_0_l. destruct b as [| qb | qb]; [reflexivity | |].
    + rewrite bn_pos by lia. reflexivity.
    + rewrite bn_neg by lia. reflexivity.
  - destruct b as [| qb | qb].
    + rewrite Z.add_0_r, bn_pos by lia. reflexivity.
    + rewrite (bn_pos qa), (bn_pos qb) by lia.
      apply (SFadd_canon false false); unfold cond_Zopp; lia.
    + rewrite (bn_pos qa), (bn_neg qb) by lia.
      apply (SFadd_canon false true); unfold cond_Zopp; lia.
  - destruct b as [| qb | qb].
    + rewrite Z.add_0_r, bn_neg by lia. reflexivity.
    + rewrite (bn_neg qa), (bn_pos qb) by lia.
      apply (SFadd_canon true false); unfold cond_Zopp; lia.
    + rewrite (bn_neg qa), (bn_neg qb) by lia.
      apply (SFadd_canon true true); unfold cond_Zopp; lia.
Qed.

(** Adding two integers as numbers is exact while everything stays below
    [2 ^ 53]. *)
Lemma Z2F_add (a b : Z) :
  Z.abs a < 2 ^ 53 -> Z.abs b < 2 ^ 53 -> Z.abs (a + b) < 2 ^ 53 ->
  (Z2F a + Z2F b)%float = Z2F (a + b).
Proof.
  intros Ha Hb Hab. apply Prim2SF_inj.
  rewrite add_spec, !Prim2SF_Z2F by assumption.
  apply SFadd_bn; assumption.
Qed.

Lemma int_value_Z2F (z : Z) : Z.abs z < 2 ^ 53 -> int_value (Z2F z) = Some z.
Proof.
  intros H. unfold int_value. rewrite (Prim2SF_Z2F z H).
  assert (G : forall (s : bool) (q : positive),
             Zpos q < 2 ^ 53 ->
             match canon s q with
             | S754_zero _ => Some 0
             | S754_finite s' m e =>
                 if 0 <=? e then Some (cond_Zopp s' (Zpos m * 2 ^ e))
                 else if Zpos m mod 2 ^ (- e) =? 0
                      then Some (cond_Zopp s' (Zpos m / 2 ^ (- e)))
                      else None
             | _ => None
             end = Some (cond_Zopp s (Zpos q))).
  { intros s q Hq. destruct (canon_digits q Hq) as (Hd & Hm & _).
    unfold canon. set (d := Zpos (digits2_pos q)) in *. rewrite Hm.
    assert (P : 0 < 2 ^ (53 - d)) by (apply Z.pow_pos_nonneg; lia).
    destruct (Z.leb_spec 0 (d - 53)).
    - replace (d - 53) with 0 by lia. replace (53 - d) with 0 by lia.
      rewrite !Z.pow_0_r, !Z.mul_1_r. reflexivity.
    - replace (- (d - 53)) with (53 - d) by lia.
      rewrite Z.mod_mul, Z.div_mul by lia. reflexivity. }
  destruct z as [| q | q].
  - reflexivity.
  - rewrite bn_pos by lia. apply (G false q). lia.
  - rewrite bn_neg by lia. apply (G true q). lia.
Qed.

Lemma amount_Z2F (z : Z) : Z.abs z < 2 ^ 53 -> amount (Z2F z) = z.
Proof. intros H. unfold amount. rewrite int_value_Z2F by exact H. reflexivity. Qed.

(** ** Sums of finite numbers are never NaN *)

Lemma shr_1_nonneg (mrs : shr_record) : 0 <= shr_m mrs -> 0 <= shr_m (shr_1 mrs).
Proof.
  destruct mrs as [m r s]. simpl. intros H.
  destruct m as [| [p | p |] | p]; simpl; lia.
Qed.

Lemma shr_nonneg (mrs : shr_record) (e n : Z) :
  0 <= shr_m mrs -> 0 <= shr_m (fst (shr mrs e n)).
Proof.
  intros H. unfold shr. destruct n as [| p | p]; simpl; auto.
  rewrite iter_pos_nat. induction (Pos.to_nat p) as [| k IH]; simpl; auto.
  apply shr_1_nonneg. exact IH.
Qed.

Lemma shr_fexp_nonneg (m e : Z) (l : location) :
  0 <= m -> 0 <= shr_m (fst (shr_fexp prec emax m e l)).
Proof.
  intros H. unfold shr_fexp. apply shr_nonneg.
  destruct l as [| []]; simpl; exact H.
Qed.

Lemma binary_round_aux_not_nan (s : bool) (m e : Z) (l : location) :
  0 <= m -> binary_round_aux prec emax s m e l <> S754_nan.
Proof.
  intros H. unfold binary_round_aux.
  pose proof (shr_fexp_nonneg m e l H) as H1.
  destruct (shr_fexp prec emax m e l) as [mrs' e'] eqn:E1. cbn [fst] in H1.
  set (m1 := round_nearest_even (shr_m mrs') (loc_of_shr_record mrs')).
  assert (Hm1 : 0 <= m1).
  { unfold m1, round_nearest_even.
    destruct (loc_of_shr_record mrs') as [| []]; try lia.
    destruct (Z.even (shr_m mrs')); lia. }
  pose proof (shr_fexp_nonneg m1 e' loc_Exact Hm1) as H2.
  destruct (shr_fexp prec emax m1 e' loc_Exact) as [mrs'' e''] eqn:E2. cbn [fst] in H2.
  destruct (shr_m mrs'') as [| p | p]; try discriminate; try lia.
  destruct (e'' <=? emax - prec); discriminate.
Qed.

Lemma binary_normalize_not_nan (m e : Z) :
  binary_normalize prec emax m e false <> S754_nan.
Proof.
  unfold binary_normalize, binary_round.
  destruct m as [| p | p]; try discriminate.
  - destruct (shl_align p e _) as [mz ez]. apply binary_round_aux_not_nan. lia.
  - destruct (shl_align p e _) as [mz ez]. apply binary_round_aux_not_nan. lia.
Qed.

Lemma add_not_nan (t y : number) :
  is_nan t = false -> is_finite y = true -> is_nan (t + y)%float = false.
Proof.
  rewrite !is_nan_Prim2SF, add_spec. unfold is_finite.
  intros Ht Hy. unfold SF64add, SFadd.
  destruct (Prim2SF t) as [st | st | | st mt et]; try congruence;
    destruct (Prim2SF y) as [sy | sy | | sy my ey]; try discriminate Hy;
    try discriminate.
  - destruct st, sy; discriminate.
  - apply binary_normalize_not_nan.
Qed.

Lemma Z2F_finite (z : Z) : Z.abs z < 2 ^ 53 -> is_finite (Z2F z) = true.
Proof.
  intros H. unfold is_finite. rewrite (Prim2SF_Z2F z H).
  destruct z as [| q | q].
  - reflexivity.
  - rewrite bn_pos by lia. reflexivity.
  - rewrite bn_neg by lia. reflexivity.
Qed.

(* ===================================================================== *)
(** * Facts about [Array_sort] *)
(* ===================================================================== *)

Section ArraySortFacts.

Context {A : Type}.
Variable comparefn : A -> A -> Z.

Lemma sort_insert_perm (x : A) (s : list A) :
  Permutation (sort_insert comparefn x s) (x :: s).
Proof.
  induction s as [| h t IH]; simpl.
  - apply Permutation_refl.
  - destruct (comparefn h x <? 0).
    + apply Permutation_trans with (h :: x :: t).
      * apply perm_skip. exact IH.
      * apply perm_swap.
    + apply Permutation_refl.
Qed.

Lemma Array_sort_perm (l : list A) : Permutation (Array_sort comparefn l) l.
Proof.
  induction l as [| x t IH]; simpl.
  - apply perm_nil.
  - apply Permutation_trans with (x :: Array_sort comparefn t).
    + apply sort_insert_perm.
    + apply perm_skip. exact IH.
Qed.

Lemma Array_sort_length (l : list A) :
  List.length (Array_sort comparefn l) = List.length l.
Proof. apply Permutation_length, Array_sort_perm. Qed.

(** Stability: elements that the comparator never puts one before the
    other keep their order. *)
Section Stable.

Variable P : A -> bool.
Hypothesis ties :
  forall h x, P x = true -> P h = true -> (comparefn h x <? 0) = false.

Lemma filter_sort_insert (x : A) (s : list A) :
  filter P (sort_insert comparefn x s) = filter P (x :: s).
Proof.
  induction s as [| h t IH]; [reflexivity |].
  cbn [sort_insert]. destruct (comparefn h x <? 0) eqn:E; [| reflexivity].
  cbn [filter] in *. rewrite IH.
  destruct (P x) eqn:Px; [| reflexivity].
  destruct (P h) eqn:Ph; [| reflexivity].
  rewrite (ties h x Px Ph) in E. discriminate E.
Qed.

Lemma filter_Array_sort (l : list A) :
  filter P (Array_sort comparefn l) = filter P l.
Proof.
  induction l as [| x t IH]; [reflexivity |].
  cbn [Array_sort]. rewrite filter_sort_insert. cbn [filter]. rewrite IH.
  reflexivity.
Qed.

End Stable.

(** Order: where the comparator's test agrees with a transitive relation
    [R] on the elements, the result is sorted by [R]. *)
Section Sorted.

Variable D : A -> Prop.
Variable R : A -> A -> Prop.
Hypothesis before_R :
  forall h x, D h -> D x -> (comparefn h x <? 0) = true -> R h x.
Hypothesis not_before_R :
  forall h x, D h -> D x -> (comparefn h x <? 0) = false -> R x h.
Hypothesis R_trans : forall x y z, R x y -> R y z -> R x z.

Lemma sort_insert_sorted (x : A) (s : list A) :
  D x -> Forall D s -> StronglySorted R s ->
  StronglySorted R (sort_insert comparefn x s).
Proof.
  intros Dx Ds Hs. induction s as [| h t IH]; simpl.
  - constructor; constructor.
  - inversion Ds as [| ? ? Dh Dt]; subst.
    inversion Hs as [| ? ? Ht Hh]; subst.
    destruct (comparefn h x <? 0) eqn:E.
    + constructor; [apply IH; assumption |].
      eapply Permutation_Forall.
      * apply Permutation_sym, sort_insert_perm.
      * constructor; [apply before_R; assumption | exact Hh].
    + constructor; [exact Hs |].
      constructor; [apply not_before_R; assumption |].
      apply Forall_forall. intros y Hy.
      apply R_trans with h; [apply not_before_R; assumption |].
      rewrite Forall_forall in Hh. apply Hh, Hy.
Qed.

Lemma Array_sort_sorted (l : list A) :
  Forall D l -> StronglySorted R (Array_sort comparefn l).
Proof.
  induction l as [| x t IH]; intros Dl; simpl.
  - constructor.
  - inversion Dl; subst. apply sort_insert_sorted; auto.
    eapply Permutation_Forall; [apply Permutation_sym, Array_sort_perm | auto].
Qed.

End Sorted.

End ArraySortFacts.

Lemma StronglySorted_firstn {A : Type} (R : A -> A -> Prop) (n : nat) (l : list A) :
  StronglySorted R l -> StronglySorted R (firstn n l).
Proof.
  revert n. induction l as [| x t IH]; intros n H.
  - rewrite firstn_nil. constructor.
  - destruct n as [| n]; [constructor |].
    inversion H; subst. simpl. constructor; [apply IH; assumption |].
    apply Forall_forall. intros y Hy.
    rewrite Forall_forall in H3. apply H3.
    rewrite <- (firstn_skipn n t). apply in_or_app. left. exact Hy.
Qed.

Lemma filter_firstn_prefix {A : Type} (P : A -> bool) (n : nat) (l : list A) :
  filter P l = filter P (firstn n l) ++ filter P (skipn n l).
Proof. rewrite <- filter_app, firstn_skipn. reflexivity. Qed.

(** ** The comparator of [getTopTen] *)

Lemma byEarnings_before (a b : LeaderBoardPosition) :
  (byEarnings a b <? 0) = gt (earnings a) (earnings b).
Proof. unfold byEarnings. destruct (gt (earnings a) (earnings b)); reflexivity. Qed.

Lemma Array_sort_byEarnings_sorted (l : list LeaderBoardPosition) :
  no_NaN l -> StronglySorted ge_earnings (Array_sort byEarnings l).
Proof.
  apply Array_sort_sorted; unfold ge_earnings.
  - intros h x _ _. rewrite byEarnings_before. unfold gt. apply ltb_leb.
  - intros h x Dh Dx. rewrite byEarnings_before. unfold gt.
    apply leb_total; assumption.
  - intros x y z Hxy Hyz. apply leb_trans with (earnings y); assumption.
Qed.

Lemma Array_sort_byEarnings_stable (e : number) (l : list LeaderBoardPosition) :
  filter (tied e) (Array_sort byEarnings l) = filter (tied e) l.
Proof.
  apply filter_Array_sort. intros h x Px Ph.
  rewrite byEarnings_before. unfold gt, tied in *.
  destruct (earnings x <? earnings h)%float eqn:E; [| reflexivity].
  rewrite (eqb_ltb _ _ _ Px E) in Ph. discriminate Ph.
Qed.

(* ===================================================================== *)
(** * Facts about [forEach_push] *)
(* ===================================================================== *)

Section ForEachPush.

Context {X : Type}.
Variable callback : X -> result LeaderBoardPosition.

Lemma forEach_push_map (g : X -> LeaderBoardPosition) (items : list X) :
  (forall x, In x items -> callback x = Ok (g x)) ->
  forall array, forEach_push callback array items = Ok (array ++ map g items).
Proof.
  induction items as [| x rest IH]; intros H array; simpl.
  - rewrite app_nil_r. reflexivity.
  - rewrite (H x) by (left; reflexivity). simpl.
    rewrite IH by (intros y Hy; apply H; right; exact Hy).
    rewrite <- app_assoc. reflexivity.
Qed.

Lemma forEach_push_Ok (items : list X) :
  forall array out,
    forEach_push callback array items = Ok out ->
    exists objs, Forall2 (fun x obj => callback x = Ok obj) items objs
                 /\ out = array ++ objs.
Proof.
  induction items as [| x rest IH]; intros array out H; simpl in H.
  - exists []. split; [constructor |]. rewrite app_nil_r. congruence.
  - destruct (callback x) as [obj | e] eqn:E; [| discriminate H]. simpl in H.
    destruct (IH _ _ H) as (objs & HF & Hout).
    exists (obj :: objs). split; [constructor; assumption |].
    rewrite Hout, <- app_assoc. reflexivity.
Qed.

(** The first exception ends the loop and is the result. *)
Lemma forEach_push_Err (before after : list X) (x : X) (e : error) :
  Forall (fun y => exists obj, callback y = Ok obj) before ->
  callback x = Err e ->
  forall array, forEach_push callback array (before ++ x :: after) = Err e.
Proof.
  intros Hb Hx. induction Hb as [| y rest (obj & Hy) _ IH]; intros array; simpl.
  - rewrite Hx. reflexivity.
  - rewrite Hy. simpl. apply IH.
Qed.

(** An item on which the callback throws makes the whole loop throw. *)
Lemma forEach_push_fails (items : list X) (x : X) (e : error) :
  In x items -> callback x = Err e ->
  forall array, exists e', forEach_push callback array items = Err e'.
Proof.
  induction items as [| y rest IH]; intros Hin Hx array; [destruct Hin |].
  simpl. destruct (callback y) as [obj | e'] eqn:E.
  - simpl. destruct Hin as [-> | Hin]; [congruence |]. apply IH; assumption.
  - exists e'. reflexivity.
Qed.

End ForEachPush.

(* ===================================================================== *)
(** * Facts about [groupBy] and [Object.values] *)
(* ===================================================================== *)

Lemma first_occurrences_In (k : string) (l : list string) :
  In k (first_occurrences l) <-> In k l.
Proof.
  induction l as [| a t IH]; simpl; [tauto |].
  split.
  - intros [-> | H]; [left; reflexivity |].
    right. apply IH. apply in_remove in H. tauto.
  - intros [-> | H]; [left; reflexivity |].
    destruct (string_dec a k) as [-> | Hne]; [left; reflexivity |].
    right. apply in_in_remove; [congruence | apply IH, H].
Qed.

Lemma NoDup_remove_string (k : string) (l : list string) :
  NoDup l -> NoDup (remove string_dec k l).
Proof.
  induction 1 as [| a t Ha Ht IH]; simpl; [constructor |].
  destruct (string_dec k a); [exact IH |].
  constructor; [| exact IH]. intros H. apply in_remove in H. tauto.
Qed.

Lemma first_occurrences_NoDup (l : list string) : NoDup (first_occurrences l).
Proof.
  induction l as [| a t IH]; simpl; constructor.
  - apply remove_In.
  - apply NoDup_remove_string, IH.
Qed.

Lemma first_occurrences_snoc (l : list string) (k : string) :
  first_occurrences (l ++ [k]) =
  if in_dec string_dec k l then first_occurrences l
  else first_occurrences l ++ [k].
Proof.
  induction l as [| a t IH]; [reflexivity |].
  cbn [app first_occurrences]. rewrite IH.
  destruct (in_dec string_dec k t) as [Hin | Hnin].
  - destruct (in_dec string_dec k (a :: t)) as [_ | N]; [reflexivity |].
    exfalso. apply N. right. exact Hin.
  - rewrite remove_app. cbn [remove].
    destruct (string_dec a k) as [-> | Hne].
    + rewrite app_nil_r.
      destruct (in_dec string_dec k (k :: t)) as [_ | N]; [reflexivity |].
      exfalso. apply N. left. reflexivity.
    + destruct (in_dec string_dec k (a :: t)) as [[E | Hin] | _];
        [congruence | contradiction | reflexivity].
Qed.

Section GroupBy.

Context {A : Type}.
Variable iteratee : A -> string.

Lemma get_map (g : string -> list A) (k : string) (ks : list string) :
  get k (map (fun k' => (k', g k')) ks) =
  if in_dec string_dec k ks then Some (g k) else None.
Proof.
  induction ks as [| a t IH]; simpl; [reflexivity |].
  destruct (String.eqb_spec a k) as [-> | Hne].
  - destruct (string_dec k k); [reflexivity | congruence].
  - rewrite IH. destruct (string_dec a k); [congruence |].
    destruct (in_dec string_dec k t); reflexivity.
Qed.

Lemma push_at_map (g : string -> list A) (k : string) (v : A) (ks : list string) :
  NoDup ks ->
  push_at k v (map (fun k' => (k', g k')) ks) =
  map (fun k' => (k', if String.eqb k' k then g k' ++ [v] else g k')) ks.
Proof.
  induction 1 as [| a t Ha Ht IH]; simpl; [reflexivity |].
  destruct (String.eqb_spec a k) as [-> | Hne].
  - f_equal. apply map_ext_in. intros k' Hk'.
    destruct (String.eqb_spec k' k) as [-> | _]; [contradiction | reflexivity].
  - f_equal. exact IH.
Qed.

Lemma filed_snoc (l : list A) (v : A) (k : string) :
  filed iteratee (l ++ [v]) k =
  if String.eqb (iteratee v) k then filed iteratee l k ++ [v] else filed iteratee l k.
Proof.
  unfold filed. rewrite filter_app. simpl.
  destruct (String.eqb (iteratee v) k); [reflexivity | apply app_nil_r].
Qed.

Lemma filed_nil (l : list A) (k : string) :
  ~ In k (map iteratee l) -> filed iteratee l k = [].
Proof.
  unfold filed. induction l as [| a t IH]; simpl; intros H; [reflexivity |].
  destruct (String.eqb_spec (iteratee a) k) as [E | _]; [tauto |].
  apply IH. tauto.
Qed.

(** [groupBy] files every element under its key, the keys being created in
    the order of their first occurrence. *)
Lemma groupBy_spec (l : list A) :
  groupBy l iteratee =
  map (fun k => (k, filed iteratee l k)) (first_occurrences (map iteratee l)).
Proof.
  induction l as [| v l IH] using rev_ind; [reflexivity |].
  unfold groupBy in *. rewrite fold_left_app. simpl. rewrite IH.
  unfold groupBy_step. rewrite get_map, map_app. simpl.
  rewrite first_occurrences_snoc.
  destruct (in_dec string_dec (iteratee v) (first_occurrences (map iteratee l)))
    as [Hin | Hnin].
  - destruct (in_dec string_dec (iteratee v) (map iteratee l)) as [_ | N];
      [| exfalso; apply N, first_occurrences_In, Hin].
    rewrite push_at_map by apply first_occurrences_NoDup.
    apply map_ext. intros k. rewrite filed_snoc.
    rewrite (String.eqb_sym k). reflexivity.
  - destruct (in_dec string_dec (iteratee v) (map iteratee l)) as [Y | N];
      [exfalso; apply Hnin, first_occurrences_In, Y |].
    rewrite map_app. simpl. f_equal.
    + apply map_ext_in. intros k Hk. rewrite filed_snoc.
      destruct (String.eqb_spec (iteratee v) k) as [E | _]; [| reflexivity].
      subst k. contradiction.
    + rewrite filed_snoc, String.eqb_refl, (filed_nil l _ N). reflexivity.
Qed.

End GroupBy.

Lemma insert_indexed_perm {V : Type} (i : Z) (v : V) (l : list (Z * V)) :
  Permutation (insert_indexed i v l) ((i, v) :: l).
Proof.
  induction l as [| [j w] t IH]; simpl; [apply Permutation_refl |].
  destruct (i <? j); [apply Permutation_refl |].
  apply Permutation_trans with ((j, w) :: (i, v) :: t).
  - apply perm_skip, IH.
  - apply perm_swap.
Qed.

Lemma insert_indexed_map {V W : Type} (f : V -> W) (i : Z) (v : V)
    (l : list (Z * V)) :
  insert_indexed i (f v) (map (fun p => (fst p, f (snd p))) l) =
  map (fun p => (fst p, f (snd p))) (insert_indexed i v l).
Proof.
  induction l as [| [j w] t IH]; simpl; [reflexivity |].
  destruct (i <? j); simpl; [reflexivity |]. rewrite IH. reflexivity.
Qed.

Lemma insert_indexed_sorted {V : Type} (i : Z) (v : V) (l : list (Z * V)) :
  StronglySorted Z.le (map fst l) ->
  StronglySorted Z.le (map fst (insert_indexed i v l)).
Proof.
  induction l as [| [j w] t IH]; simpl; intros H.
  - constructor; constructor.
  - inversion H as [| ? ? Ht Hj]; subst.
    destruct (Z.ltb_spec i j); simpl.
    + constructor; [exact H |]. constructor; [lia |].
      eapply Forall_impl; [| exact Hj]. simpl. intros; lia.
    + constructor; [apply IH, Ht |].
      eapply Permutation_Forall.
      * apply Permutation_sym, Permutation_map, insert_indexed_perm.
      * simpl. constructor; [lia | exact Hj].
Qed.

Lemma index_keys_sorted (ks : list string) :
  StronglySorted Z.le (map fst (index_keys ks)).
Proof.
  induction ks as [| k t IH]; simpl; [constructor |].
  destruct (array_index k); [apply insert_indexed_sorted, IH | exact IH].
Qed.

Lemma index_keys_index (ks : list string) :
  Forall (fun p => array_index (snd p) = Some (fst p)) (index_keys ks).
Proof.
  induction ks as [| k t IH]; simpl; [constructor |].
  destruct (array_index k) as [i |] eqn:E; [| exact IH].
  eapply Permutation_Forall.
  - apply Permutation_sym, insert_indexed_perm.
  - constructor; [exact E | exact IH].
Qed.

Lemma ordered_keys_perm (ks : list string) : Permutation (ordered_keys ks) ks.
Proof.
  unfold ordered_keys, is_named.
  induction ks as [| k t IH]; simpl; [apply perm_nil |].
  destruct (array_index k) as [i |].
  - apply Permutation_trans
      with (map snd ((i, k) :: index_keys t) ++ filter is_named t).
    + apply Permutation_app_tail, Permutation_map, insert_indexed_perm.
    + simpl. apply perm_skip, IH.
  - apply Permutation_trans
      with (k :: map snd (index_keys t) ++ filter is_named t).
    + apply Permutation_sym, Permutation_middle.
    + apply perm_skip, IH.
Qed.

Lemma ordered_keys_named (ks : list string) :
  Forall (fun k => array_index k = None) ks -> ordered_keys ks = ks.
Proof.
  intros H. unfold ordered_keys.
  assert (E : index_keys ks = [] /\ filter is_named ks = ks).
  { induction H as [| k t Hk Ht [IH1 IH2]]; [split; reflexivity |].
    simpl. unfold is_named at 1. rewrite Hk. split; [exact IH1 |].
    f_equal. exact IH2. }
  destruct E as [-> ->]. reflexivity.
Qed.

(** [Object.entries] of an object whose keys were created in the order
    [ks]. *)
Lemma Object_entries_map {V : Type} (g : string -> V) (ks : list string) :
  Object_entries (map (fun k => (k, g k)) ks) =
  map (fun k => (k, g k)) (ordered_keys ks).
Proof.
  unfold Object_entries, ordered_keys. rewrite map_app. f_equal.
  - assert (H : indexed_properties (map (fun k => (k, g k)) ks)
                = map (fun p => (fst p, (snd p, g (snd p)))) (index_keys ks)).
    { induction ks as [| k t IH]; simpl; [reflexivity |].
      destruct (array_index k) as [i |]; [| exact IH].
      rewrite IH.
      apply (insert_indexed_map (fun k => (k, g k))). }
    rewrite H, !map_map. reflexivity.
  - induction ks as [| k t IH]; simpl; [reflexivity |].
    unfold is_named at 1. destruct (array_index k); simpl; rewrite IH; reflexivity.
Qed.

(* ===================================================================== *)
(** * Facts about [getAggregatedPositions] *)
(* ===================================================================== *)

Lemma members_head (u : string) (l : list LeaderBoardPosition) :
  In u (map lb_user l) ->
  exists first rest, members u l = first :: rest /\ lb_user first = u.
Proof.
  intros H. apply in_map_iff in H. destruct H as (p & Hp & Hin).
  assert (Hm : In p (members u l)).
  { apply filter_In. split; [exact Hin |]. apply String.eqb_eq, Hp. }
  destruct (members u l) as [| first rest] eqn:E; [destruct Hm |].
  exists first, rest. split; [reflexivity |].
  assert (Hf : In first (members u l)) by (rewrite E; left; reflexivity).
  apply filter_In in Hf. apply String.eqb_eq. tauto.
Qed.

(** The result of [getAggregatedPositions]: one record per user, in the
    order in which JavaScript lists the users as keys. *)
Lemma getAggregatedPositions_spec (l : list LeaderBoardPosition) :
  getAggregatedPositions l =
  Ok (map (fun u => rollup u l)
          (ordered_keys (first_occurrences (map lb_user l)))).
Proof.
  unfold getAggregatedPositions, Object_values.
  rewrite (groupBy_spec lb_user), Object_entries_map, map_map. cbn [snd].
  set (us := ordered_keys (first_occurrences (map lb_user l))).
  rewrite (forEach_push_map aggregate
             (fun g => match g with
                       | [] => rollup EmptyString l
                       | first :: _ => rollup (lb_user first) l
                       end)).
  - simpl. f_equal. rewrite map_map. apply map_ext_in. intros u Hu.
    assert (Hin : In u (map lb_user l)).
    { apply first_occurrences_In.
      apply (Permutation_in _ (ordered_keys_perm _)). exact Hu. }
    destruct (members_head u l Hin) as (first & rest & E & Hf).
    fold (members u l). unfold filed. fold (members u l).
    rewrite E, Hf. reflexivity.
  - intros g Hg. apply in_map_iff in Hg. destruct Hg as (u & <- & Hu).
    assert (Hin : In u (map lb_user l)).
    { apply first_occurrences_In.
      apply (Permutation_in _ (ordered_keys_perm _)). exact Hu. }
    destruct (members_head u l Hin) as (first & rest & E & Hf).
    unfold filed. fold (members u l). rewrite E.
    unfold aggregate, rollup. rewrite Hf, <- E. reflexivity.
Qed.

(* ===================================================================== *)
(** * Facts about totals *)
(* ===================================================================== *)

Lemma total_Z2F_from (f : LeaderBoardPosition -> number)
    (z : LeaderBoardPosition -> Z) (l : list LeaderBoardPosition) :
  (forall p, In p l -> f p = Z2F (z p) /\ 0 <= z p) ->
  forall acc, 0 <= acc -> acc + zsum (map z l) < 2 ^ 53 ->
  fold_left (fun t p => (t + f p)%float) l (Z2F acc)
  = Z2F (acc + zsum (map z l)).
Proof.
  induction l as [| a t IH]; intros H acc Hacc Hb; simpl in *.
  - rewrite Z.add_0_r. reflexivity.
  - destruct (H a (or_introl eq_refl)) as [Ea Ha].
    assert (Ht : 0 <= zsum (map z t)).
    { clear - H. induction t as [| b t IHt]; simpl; [lia |].
      destruct (H b (or_intror (or_introl eq_refl))) as [_ Hb].
      assert (0 <= zsum (map z t)); [| lia].
      apply IHt. intros p [-> | Hp]; apply H; [left | right; right]; auto. }
    rewrite Ea, Z2F_add by lia.
    rewrite IH; [f_equal; lia | | lia | lia].
    intros p Hp. apply H. right. exact Hp.
Qed.

(** A float sum of non-negative integers is exact while the total stays
    below [2 ^ 53]. *)
Lemma total_Z2F (f : LeaderBoardPosition -> number)
    (z : LeaderBoardPosition -> Z) (l : list LeaderBoardPosition) :
  (forall p, In p l -> f p = Z2F (z p) /\ 0 <= z p) ->
  zsum (map z l) < 2 ^ 53 ->
  total f l = Z2F (zsum (map z l)).
Proof.
  intros H Hb. unfold total. change 0%float with (Z2F 0).
  rewrite (total_Z2F_from f z l H 0); [reflexivity | lia | lia].
Qed.

Lemma zsum_nonneg (z : LeaderBoardPosition -> Z) (l : list LeaderBoardPosition) :
  (forall p, In p l -> 0 <= z p) -> 0 <= zsum (map z l).
Proof.
  induction l as [| a t IH]; simpl; intros H; [lia |].
  assert (0 <= z a) by (apply H; left; reflexivity).
  assert (0 <= zsum (map z t)) by (apply IH; intros; apply H; right; assumption).
  lia.
Qed.

Lemma zsum_members_le (z : LeaderBoardPosition -> Z) (u : string)
    (l : list LeaderBoardPosition) :
  (forall p, In p l -> 0 <= z p) ->
  zsum (map z (members u l)) <= zsum (map z l).
Proof.
  unfold members. induction l as [| a t IH]; simpl; intros H; [lia |].
  assert (0 <= z a) by (apply H; left; reflexivity).
  assert (zsum (map z (filter (fun p => String.eqb (lb_user p) u) t))
          <= zsum (map z t)) by (apply IH; intros; apply H; right; assumption).
  destruct (String.eqb (lb_user a) u); simpl; lia.
Qed.

Lemma zsum_add (F G : string -> Z) (K : list string) :
  zsum (map (fun k => F k + G k) K) = zsum (map F K) + zsum (map G K).
Proof. induction K as [| k t IH]; simpl; lia. Qed.

Lemma zsum_indicator_out (u : string) (x : Z) (K : list string) :
  ~ In u K -> zsum (map (fun k => if String.eqb u k then x else 0) K) = 0.
Proof.
  induction K as [| k t IH]; simpl; intros H; [reflexivity |].
  destruct (String.eqb_spec u k) as [-> | _]; [tauto |].
  rewrite IH; tauto.
Qed.

Lemma zsum_indicator (u : string) (x : Z) (K : list string) :
  NoDup K -> In u K ->
  zsum (map (fun k => if String.eqb u k then x else 0) K) = x.
Proof.
  induction 1 as [| k t Hk Ht IH]; simpl; intros Hin; [destruct Hin |].
  destruct (String.eqb_spec u k) as [-> | Hne].
  - rewrite zsum_indicator_out by exact Hk. lia.
  - rewrite IH; [lia |]. destruct Hin; [congruence | assumption].
Qed.

(** The users' positions partition the list. *)
Lemma zsum_partition (z : LeaderBoardPosition -> Z) (K : list string)
    (l : list LeaderBoardPosition) :
  NoDup K -> (forall p, In p l -> In (lb_user p) K) ->
  zsum (map (fun u => zsum (map z (members u l))) K) = zsum (map z l).
Proof.
  intros HK. induction l as [| a t IH]; intros H.
  - simpl. induction K as [| k K' IHK]; simpl; [reflexivity |].
    inversion HK; subst. rewrite IHK; [reflexivity | assumption | intros ? []].
  - rewrite (map_ext
      (fun u => zsum (map z (members u (a :: t))))
      (fun u => (if String.eqb (lb_user a) u then z a else 0)
                + zsum (map z (members u t)))).
    + rewrite zsum_add, zsum_indicator, IH; simpl; auto.
      * intros p Hp. apply H. right. exact Hp.
      * apply H. left. reflexivity.
    + intros u. unfold members. simpl.
      destruct (String.eqb (lb_user a) u); simpl; lia.
Qed.

(** Conservation of a field under aggregation, for non-negative integers
    whose total stays below [2 ^ 53]: the records hold the exact totals of
    the users, and the sum of the records is the sum of the list. *)
Lemma total_rollup (f : LeaderBoardPosition -> number)
    (g : string -> list LeaderBoardPosition -> LeaderBoardPosition)
    (l : list LeaderBoardPosition) (K : list string) :
  (forall u, f (g u l) = total f (members u l)) ->
  NoDup K -> (forall p, In p l -> In (lb_user p) K) ->
  Forall (fun p => whole (f p)) l ->
  zsum (map (fun p => amount (f p)) l) < 2 ^ 53 ->
  total f (map (fun u => g u l) K) = total f l
  /\ zsum (map (fun r => amount (f r)) (map (fun u => g u l) K))
     = zsum (map (fun p => amount (f p)) l).
Proof.
  intros Hg HK Hin Hw Hb. rewrite Forall_forall in Hw.
  set (z := fun p => amount (f p)) in *.
  assert (Hz : forall p, In p l -> f p = Z2F (z p) /\ 0 <= z p).
  { intros p Hp. destruct (Hw p Hp) as [E B]. split; [exact E | unfold z; lia]. }
  rewrite (total_Z2F f z l Hz Hb).
  assert (Hm : forall u, total f (members u l) = Z2F (zsum (map z (members u l)))
                         /\ 0 <= zsum (map z (members u l)) < 2 ^ 53).
  { intros u.
    assert (0 <= zsum (map z (members u l))).
    { apply zsum_nonneg. intros p Hp. apply Hz. apply filter_In in Hp. tauto. }
    pose proof (zsum_members_le z u l (fun p Hp => proj2 (Hz p Hp))).
    split; [| lia].
    apply total_Z2F; [| lia].
    intros p Hp. apply Hz. apply filter_In in Hp. tauto. }
  assert (Hp : zsum (map (fun u => zsum (map z (members u l))) K)
               = zsum (map z l)) by (apply zsum_partition; assumption).
  split.
  - unfold total. change 0%float with (Z2F 0).
    assert (G : forall K' acc,
               0 <= acc ->
               acc + zsum (map (fun u => zsum (map z (members u l))) K') < 2 ^ 53 ->
               fold_left (fun t p => (t + f p)%float) (map (fun u => g u l) K')
                 (Z2F acc)
               = Z2F (acc + zsum (map (fun u => zsum (map z (members u l))) K'))).
    { induction K' as [| k K' IHK]; intros acc Hacc Hbound; simpl in *.
      - rewrite Z.add_0_r. reflexivity.
      - destruct (Hm k) as [Ek Hk].
        assert (0 <= zsum (map (fun u => zsum (map z (members u l))) K')).
        { clear - Hm. induction K' as [| k' K'' IH']; simpl; [lia |].
          destruct (Hm k'). lia. }
        rewrite Hg, Ek, Z2F_add by lia.
        rewrite IHK by lia. f_equal. lia. }
    rewrite G; [rewrite Hp; reflexivity | lia | lia].
  - rewrite <- Hp, map_map. f_equal. apply map_ext. intros u.
    change (amount (f (g u l)) = zsum (map z (members u l))).
    rewrite Hg. destruct (Hm u) as [-> B]. apply amount_Z2F. lia.
Qed.

(* ===================================================================== *)
(** * Facts about the store *)
(* ===================================================================== *)

Lemma store_read_bound (r : Store.ref) (h : Store.store) (a : Store.array) :
  Store.read r h = Some a -> (r < List.length h)%nat.
Proof.
  unfold Store.read. intros H. apply nth_error_Some. congruence.
Qed.

Lemma store_read_alloc_old (a : Store.array) (h : Store.store) (r : Store.ref) :
  (r < List.length h)%nat ->
  Store.read r (snd (Store.alloc a h)) = Store.read r h.
Proof. intros H. unfold Store.read, Store.alloc. simpl. apply nth_error_app1, H. Qed.

Lemma store_read_alloc_new (a : Store.array) (h : Store.store) :
  Store.read (fst (Store.alloc a h)) (snd (Store.alloc a h)) = Some a.
Proof.
  unfold Store.read, Store.alloc. simpl.
  rewrite nth_error_app2, Nat.sub_diag by lia. reflexivity.
Qed.

Lemma store_write_length (r : Store.ref) (a : Store.array) (h : Store.store) :
  List.length (Store.write r a h) = List.length h.
Proof.
  revert r. induction h as [| x t IH]; intros [| r]; simpl; auto.
Qed.

Lemma store_read_write_same (r : Store.ref) (a : Store.array) (h : Store.store) :
  (r < List.length h)%nat -> Store.read r (Store.write r a h) = Some a.
Proof.
  unfold Store.read. revert r. induction h as [| x t IH]; intros [| r] H;
    simpl in *; try lia; [reflexivity | apply IH; lia].
Qed.

Lemma store_read_write_other (r r' : Store.ref) (a : Store.array)
    (h : Store.store) :
  r' <> r -> Store.read r' (Store.write r a h) = Store.read r' h.
Proof.
  unfold Store.read. revert r r'.
  induction h as [| x t IH]; intros [| r] [| r'] H; simpl; try reflexivity;
    try congruence.
  apply IH. congruence.
Qed.

Lemma store_read_board (r : Store.ref) (h : Store.store)
    (l : list LeaderBoardPosition) :
  Store.read_board r h = Ok l <-> Store.read r h = Some (Store.Board l).
Proof.
  unfold Store.read_board.
  destruct (Store.read r h) as [[l' | l'] |]; split; intros H;
    try discriminate; congruence.
Qed.

(** The loop writes to its target array only, and builds there what the
    loop on values builds. *)
Lemma store_forEach_push_at {X : Type} (f : X -> result LeaderBoardPosition)
    (target : Store.ref) (items : list X) :
  forall (h h' : Store.store) (array : list LeaderBoardPosition),
    Store.read target h = Some (Store.Board array) ->
    Store.forEach_push_at f target items h = Ok h' ->
    List.length h' = List.length h
    /\ (forall r, r <> target -> Store.read r h' = Store.read r h)
    /\ exists out, forEach_push f array items = Ok out
                   /\ Store.read target h' = Some (Store.Board out).
Proof.
  induction items as [| x rest IH]; intros h h' array Hr H; simpl in H.
  - injection H as <-. repeat split; auto. exists array. split; auto.
  - destruct (f x) as [obj | e] eqn:E; [| discriminate H]. simpl in H.
    unfold Store.push in H. rewrite (proj2 (store_read_board _ _ _) Hr) in H.
    simpl in H.
    set (h1 := Store.write target (Store.Board (array ++ [obj])) h) in *.
    assert (Hr1 : Store.read target h1 = Some (Store.Board (array ++ [obj]))).
    { apply store_read_write_same. eapply store_read_bound, Hr. }
    destruct (IH h1 h' _ Hr1 H) as (Hlen & Hframe & out & Hout & Hread).
    split; [rewrite Hlen; apply store_write_length |].
    split.
    + intros r Hne. rewrite Hframe by exact Hne.
      apply store_read_write_other, Hne.
    + exists out. split; [| exact Hread]. simpl. rewrite E. exact Hout.
Qed.

(* ===================================================================== *)
(** * Scaled arithmetic *)
(* ===================================================================== *)

Lemma from_number_Ok (v : number) (z : Z) :
  int_value v = Some z -> Z.abs z < BigNumber.MAX_SAFE ->
  BigNumber.from_number v = Ok z.
Proof.
  intros H B. unfold BigNumber.from_number.
  assert (C : (BigNumber.MAX_SAFE <=? z) || (z <=? - BigNumber.MAX_SAFE) = false).
  { destruct (Z.leb_spec BigNumber.MAX_SAFE z); [lia |].
    destruct (Z.leb_spec z (- BigNumber.MAX_SAFE)); [lia | reflexivity]. }
  destruct (Prim2SF v) as [s | s | | s m e] eqn:E.
  - rewrite H, C. reflexivity.
  - unfold int_value in H. rewrite E in H. discriminate H.
  - unfold int_value in H. rewrite E in H. discriminate H.
  - rewrite H, C. reflexivity.
Qed.

Lemma from_number_Err (v : number) :
  (forall z, int_value v = Some z -> BigNumber.MAX_SAFE <= Z.abs z) ->
  exists e, BigNumber.from_number v = Err e.
Proof.
  intros H. unfold BigNumber.from_number.
  assert (G : exists e,
             match int_value v with
             | Some z =>
                 if (BigNumber.MAX_SAFE <=? z) || (z <=? - BigNumber.MAX_SAFE)
                 then Err (NUMERIC_FAULT overflow)
                 else Ok z
             | None => Err (NUMERIC_FAULT underflow)
             end = Err e).
  { destruct (int_value v) as [z |]; [| eexists; reflexivity].
    specialize (H z eq_refl).
    destruct (Z.leb_spec BigNumber.MAX_SAFE z); [eexists; reflexivity |].
    destruct (Z.leb_spec z (- BigNumber.MAX_SAFE)); [eexists; reflexivity | lia]. }
  destruct (Prim2SF v); try exact G; eexists; reflexivity.
Qed.

Lemma from_number_default_scale :
  BigNumber.from_number default_scale = Ok 10000.
Proof. vm_compute. reflexivity. Qed.

(** C6 (amended).  [mulBN a b scale] is [a * round(b * scale) / scale] in
    integers, the division truncating towards zero, whenever
    [round(b * scale)] and [scale] are integers of magnitude below
    [MAX_SAFE = 2 ^ 53 - 1], which is what [BigNumber.from] accepts of a
    JavaScript number.  It throws when [round(b * scale)] is no such
    integer and it throws when [scale] is no such integer, in each case
    with the error of [BigNumber.from] on the number rejected, that of
    [round(b * scale)] first.  And [mulBN(1000000, 0.0001)] with the
    default scale is 100. *)
Theorem mulBN_value :
  (forall (a : Z) (b scale : number) (r s : Z),
      int_value (Math_round (b * scale)%float) = Some r ->
      Z.abs r < BigNumber.MAX_SAFE ->
      int_value scale = Some s ->
      0 < s < BigNumber.MAX_SAFE ->
      mulBN a b scale = Ok (Z.quot (a * r) s))
  /\ (forall (a : Z) (b scale : number),
         (forall r, int_value (Math_round (b * scale)%float) = Some r ->
                    BigNumber.MAX_SAFE <= Z.abs r) ->
         exists e, mulBN a b scale = Err e)
  /\ (forall (a : Z) (b scale : number),
         (forall s, int_value scale = Some s ->
                    BigNumber.MAX_SAFE <= Z.abs s) ->
         exists e, mulBN a b scale = Err e)
  /\ (forall (a : Z) (b scale : number) (e : error),
         BigNumber.from_number (Math_round (b * scale)%float) = Err e ->
         mulBN a b scale = Err e)
  /\ (forall (a : Z) (b scale : number) (r : Z) (e : error),
         BigNumber.from_number (Math_round (b * scale)%float) = Ok r ->
         BigNumber.from_number scale = Err e ->
         mulBN a b scale = Err e)
  /\ mulBN 1000000 (Number "0.0001") default_scale = Ok 100.
Proof.
  split; [| split; [| split; [| split; [| split]]]].
  - intros a b scale r s Hr Br Hs Bs. unfold mulBN.
    rewrite (from_number_Ok _ r Hr Br). cbn [bind].
    rewrite (from_number_Ok _ s Hs) by lia. cbn [bind].
    unfold BigNumber.div, BigNumber.mul.
    destruct (Z.eqb_spec s 0); [lia | reflexivity].
  - intros a b scale H. unfold mulBN.
    destruct (from_number_Err _ H) as [e ->]. exists e. reflexivity.
  - intros a b scale H. unfold mulBN.
    destruct (BigNumber.from_number (Math_round (b * scale)%float))
      as [r | e]; [| exists e; reflexivity].
    cbn [bind]. destruct (from_number_Err _ H) as [e ->].
    exists e. reflexivity.
  - intros a b scale e H. unfold mulBN. rewrite H. reflexivity.
  - intros a b scale r e Hr Hs. unfold mulBN. rewrite Hr. cbn [bind].
    rewrite Hs. reflexivity.
  - vm_compute. reflexivity.
Qed.

Lemma mulBN_value_witness :
  mulBN (-7) (Number "0.33") default_scale = Ok (Z.quot (-7 * 3300) 10000).
Proof.
  apply (proj1 mulBN_value (-7) (Number "0.33") default_scale 3300 10000).
  - vm_compute. reflexivity.
  - vm_compute. reflexivity.
  - vm_compute. reflexivity.
  - unfold BigNumber.MAX_SAFE. lia.
Defined.

(** C6 (as stated) fails: for the finite decimal [b = 10 ^ 12] and the
    default scale, [round(b * scale)] is the integer [10 ^ 16], and [mulBN]
    throws an overflow instead of returning [1 * 10 ^ 16 / 10000]. *)
Lemma mulBN_overflow :
  int_value (Math_round (Number "1000000000000" * default_scale)%float)
    = Some (10 ^ 16)
  /\ mulBN 1 (Number "1000000000000") default_scale
     = Err (NUMERIC_FAULT overflow)
  /\ mulBN 1 (Number "1000000000000") default_scale
     <> Ok (Z.quot (1 * 10 ^ 16) 10000).
Proof.
  assert (E : mulBN 1 (Number "1000000000000") default_scale
              = Err (NUMERIC_FAULT overflow)) by (vm_compute; reflexivity).
  split; [vm_compute; reflexivity |]. split; [exact E |].
  rewrite E. discriminate.
Qed.

Lemma divBN_value (a b : Z) :
  b <> 0 ->
  divBN a b default_scale =
  if Z.abs (Z.quot (a * 10000) b) <? 2 ^ 53
  then Ok (Z2F (Z.quot (a * 10000) b) / default_scale)%float
  else Err (NUMERIC_FAULT overflow).
Proof.
  intros Hb. unfold divBN. rewrite from_number_default_scale. cbn [bind].
  unfold BigNumber.div, BigNumber.mul.
  destruct (Z.eqb_spec b 0); [contradiction |]. cbn [bind].
  unfold BigNumber.toNumber.
  destruct (Z.abs (Z.quot (a * 10000) b) <? 2 ^ 53); reflexivity.
Qed.

Lemma divBN_zero (a : Z) :
  divBN a 0 default_scale = Err (NUMERIC_FAULT division_by_zero).
Proof. unfold divBN. rewrite from_number_default_scale. reflexivity. Qed.

(** X2.  [divBN a b] with the default scale: the integer quotient of
    [a * 10000] by [b], truncated towards zero, divided by 10000 as a
    number; a division by zero when [b] is zero and an overflow when the
    quotient does not fit a number. *)
Lemma divBN_scaled (a b : Z) :
  (b = 0 -> divBN a b default_scale = Err (NUMERIC_FAULT division_by_zero))
  /\ (b <> 0 ->
      divBN a b default_scale =
      if Z.abs (Z.quot (a * 10000) b) <? 2 ^ 53
      then Ok (Z2F (Z.quot (a * 10000) b) / default_scale)%float
      else Err (NUMERIC_FAULT overflow)).
Proof.
  split.
  - intros ->. apply divBN_zero.
  - apply divBN_value.
Qed.

Lemma divBN_scaled_witness :
  divBN 1 3 default_scale = Ok (Z2F 3333 / default_scale)%float.
Proof.
  refine (proj2 (divBN_scaled 1 3) _). discriminate.
Defined.

(* ===================================================================== *)
(** * Valuation of one position *)
(* ===================================================================== *)

(** C1 (amended).  For a position whose amounts parse and whose outcome
    index is within bounds, [getEarnings] returns
    [mulBN(netQuantity, price) + valueSold - valueBought] as a number when
    [mulBN] accepts the price and the magnitude of the result is below
    [2 ^ 53]; it throws [mulBN]'s exception in the first case and an
    overflow in the second.  (The embedding is a function: equal positions
    have equal results.) *)
Theorem getEarnings_value (p : Position) (nq vs vb : Z) (price : string) :
  BigNumber.from_string (netQuantity p) = Ok nq ->
  BigNumber.from_string (valueSold p) = Ok vs ->
  BigNumber.from_string (valueBought p) = Ok vb ->
  price_entry p = Some price ->
  getEarnings p =
  match mulBN nq (Number price) default_scale with
  | Ok netValue =>
      if Z.abs (netValue + vs - vb) <? 2 ^ 53
      then Ok (Z2F (netValue + vs - vb))
      else Err (NUMERIC_FAULT overflow)
  | Err e => Err e
  end.
Proof.
  intros Hnq Hvs Hvb Hp. unfold getEarnings.
  rewrite Hnq, Hvs, Hvb, Hp. cbn [bind Number_opt].
  destruct (mulBN nq (Number price) default_scale) as [nv | e]; reflexivity.
Qed.

Lemma getEarnings_value_witness :
  getEarnings regular_position = Ok (Z2F (25 + 50 - 20)).
Proof.
  apply (getEarnings_value regular_position 100 50 20 "0.25");
    vm_compute; reflexivity.
Defined.

(** C1 (as stated) fails: the amounts of [large_sale] parse, its index is
    within bounds and [mulBN] returns 0, but [0 + 2 ^ 53 - 0] does not fit
    a number and [getEarnings] throws. *)
Lemma getEarnings_overflow :
  BigNumber.from_string (netQuantity large_sale) = Ok 0
  /\ BigNumber.from_string (valueSold large_sale) = Ok (2 ^ 53)
  /\ BigNumber.from_string (valueBought large_sale) = Ok 0
  /\ price_entry large_sale = Some "0.5"%string
  /\ mulBN 0 (Number "0.5") default_scale = Ok 0
  /\ getEarnings large_sale = Err (NUMERIC_FAULT overflow)
  /\ getEarnings large_sale <> Ok (Z2F (0 + 2 ^ 53 - 0)).
Proof.
  assert (E : getEarnings large_sale = Err (NUMERIC_FAULT overflow))
    by (vm_compute; reflexivity).
  repeat split; try (vm_compute; reflexivity).
  rewrite E. discriminate.
Qed.

Lemma positionObject_getROI (p : Position) (e : error) (x : number) :
  getEarnings p = Ok x -> getROI p = Err e -> positionObject p = Err e.
Proof. intros H1 H2. unfold positionObject. rewrite H1, H2. reflexivity. Qed.

Lemma positionObject_fails (p : Position) (e : error) :
  getEarnings p = Err e \/ getROI p = Err e ->
  exists e', positionObject p = Err e'.
Proof.
  intros [H | H]; unfold positionObject.
  - rewrite H. exists e. reflexivity.
  - destruct (getEarnings p) as [x | e1]; [| exists e1; reflexivity].
    rewrite H. exists e. reflexivity.
Qed.

(** C2 (amended).  For a position whose amounts parse, whose outcome index
    is within bounds and whose price [mulBN] accepts: [getROI] throws a
    division by zero when [valueBought] is zero, and is otherwise
    [divBN(earnings, valueBought) * 100] with
    [earnings = mulBN(netQuantity, price) + valueSold - valueBought], where
    [divBN] divides [earnings * 10000] by [valueBought] in integers and then
    by 10000 as numbers (an overflow when the quotient does not fit a
    number).  An exception of [getROI] is the exception of
    [getAllPositions]. *)
Theorem getROI_value (p : Position) (nq vs vb nv : Z) (price : string) :
  BigNumber.from_string (netQuantity p) = Ok nq ->
  BigNumber.from_string (valueSold p) = Ok vs ->
  BigNumber.from_string (valueBought p) = Ok vb ->
  price_entry p = Some price ->
  mulBN nq (Number price) default_scale = Ok nv ->
  (vb = 0 -> getROI p = Err (NUMERIC_FAULT division_by_zero))
  /\ (vb <> 0 ->
      getROI p =
      (d <- divBN (nv + vs - vb) vb default_scale ;; Ok (d * 100)%float)
      /\ divBN (nv + vs - vb) vb default_scale =
         if Z.abs (Z.quot ((nv + vs - vb) * 10000) vb) <? 2 ^ 53
         then Ok (Z2F (Z.quot ((nv + vs - vb) * 10000) vb) / default_scale)%float
         else Err (NUMERIC_FAULT overflow))
  /\ (forall (e : error) (x : number) (before after : list Position),
         getEarnings p = Ok x -> getROI p = Err e ->
         Forall (fun y => exists obj, positionObject y = Ok obj) before ->
         getAllPositions (before ++ p :: after) = Err e).
Proof.
  intros Hnq Hvs Hvb Hp Hm.
  assert (E : getROI p =
              (d <- divBN (nv + vs - vb) vb default_scale ;; Ok (d * 100)%float)).
  { unfold getROI. rewrite Hnq, Hvs, Hvb, Hp. cbn [bind Number_opt].
    rewrite Hm. reflexivity. }
  split; [| split].
  - intros ->. rewrite E, divBN_zero. reflexivity.
  - intros Hne. split; [exact E | apply divBN_value, Hne].
  - intros e x before after He Hr Hb. unfold getAllPositions.
    apply forEach_push_Err; [exact Hb |].
    apply positionObject_getROI with x; assumption.
Qed.

Lemma getROI_value_witness :
  getROI regular_position =
  (d <- divBN (25 + 50 - 20) 20 default_scale ;; Ok (d * 100)%float).
Proof.
  refine (proj1 (proj1 (proj2
    (getROI_value regular_position 100 50 20 25 "0.25" _ _ _ _ _)) _));
    vm_compute; try reflexivity; discriminate.
Defined.

(** C2 (as stated) fails: the outcome index of [huge_price] is within
    bounds and its [valueBought] is zero, but [getROI] throws the overflow
    of [mulBN] (the price scaled by 10000 is [10 ^ 16]), not a division by
    zero. *)
Lemma getROI_overflow :
  BigNumber.from_string (netQuantity huge_price) = Ok 1
  /\ BigNumber.from_string (valueSold huge_price) = Ok 0
  /\ BigNumber.from_string (valueBought huge_price) = Ok 0
  /\ price_entry huge_price = Some "1000000000000"%string
  /\ getROI huge_price = Err (NUMERIC_FAULT overflow)
  /\ getROI huge_price <> Err (NUMERIC_FAULT division_by_zero).
Proof.
  assert (E : getROI huge_price = Err (NUMERIC_FAULT overflow))
    by (vm_compute; reflexivity).
  repeat split; try (vm_compute; reflexivity).
  rewrite E. discriminate.
Qed.

Lemma mulBN_nan (a : Z) :
  mulBN a nan default_scale = Err (INVALID_ARGUMENT "NaN").
Proof.
  unfold mulBN.
  assert (E : BigNumber.from_number (Math_round (nan * default_scale)%float)
              = Err (INVALID_ARGUMENT "NaN")) by (vm_compute; reflexivity).
  rewrite E. reflexivity.
Qed.

Lemma is_nan_eq (x : number) : is_nan x = true -> x = nan.
Proof.
  intros H. destruct (Prim2SF x) as [s | s | | s m e] eqn:P.
  - assert (N : is_nan x = false) by (apply is_nan_Prim2SF; congruence).
    congruence.
  - assert (N : is_nan x = false) by (apply is_nan_Prim2SF; congruence).
    congruence.
  - rewrite <- (SF2Prim_Prim2SF x), P. reflexivity.
  - assert (N : is_nan x = false) by (apply is_nan_Prim2SF; congruence).
    congruence.
Qed.

Lemma positionObject_getEarnings (p : Position) (e : error) :
  getEarnings p = Err e -> positionObject p = Err e.
Proof. intros H. unfold positionObject. rewrite H. reflexivity. Qed.

(** C7 (amended).  For a position whose outcome index is outside the
    bounds of the prices, [getEarnings] and [getROI] throw, and so does
    [getAllPositions] on any list that holds the position: it throws the
    very exception of [getEarnings], unchanged, when the position is the
    first it cannot value.  The missing price reads as [undefined] and
    converts to NaN; when the amounts parse, the exception is the
    invalid-argument error of [BigNumber.from] on NaN, the one every
    position raises whose price, within bounds, is no number. *)
Theorem out_of_range_fails (p : Position) :
  price_entry p = None ->
  (exists e, getEarnings p = Err e)
  /\ (exists e, getROI p = Err e)
  /\ (forall nq vs vb : Z,
         BigNumber.from_string (netQuantity p) = Ok nq ->
         BigNumber.from_string (valueSold p) = Ok vs ->
         BigNumber.from_string (valueBought p) = Ok vb ->
         getEarnings p = Err (INVALID_ARGUMENT "NaN")
         /\ getROI p = Err (INVALID_ARGUMENT "NaN"))
  /\ (forall data : list Position,
         In p data -> exists e, getAllPositions data = Err e)
  /\ (forall (e : error) (before after : list Position),
         getEarnings p = Err e ->
         Forall (fun y => exists obj, positionObject y = Ok obj) before ->
         getAllPositions (before ++ p :: after) = Err e)
  /\ (forall (nq vs vb : Z) (before after : list Position),
         BigNumber.from_string (netQuantity p) = Ok nq ->
         BigNumber.from_string (valueSold p) = Ok vs ->
         BigNumber.from_string (valueBought p) = Ok vb ->
         Forall (fun y => exists obj, positionObject y = Ok obj) before ->
         getAllPositions (before ++ p :: after)
         = Err (INVALID_ARGUMENT "NaN"))
  /\ (forall (q : Position) (price : string) (nq vs vb : Z),
         price_entry q = Some price ->
         is_nan (Number price) = true ->
         BigNumber.from_string (netQuantity q) = Ok nq ->
         BigNumber.from_string (valueSold q) = Ok vs ->
         BigNumber.from_string (valueBought q) = Ok vb ->
         getEarnings q = Err (INVALID_ARGUMENT "NaN")
         /\ getROI q = Err (INVALID_ARGUMENT "NaN")).
Proof.
  intros Hp.
  assert (H3 : forall nq vs vb : Z,
             BigNumber.from_string (netQuantity p) = Ok nq ->
             BigNumber.from_string (valueSold p) = Ok vs ->
             BigNumber.from_string (valueBought p) = Ok vb ->
             getEarnings p = Err (INVALID_ARGUMENT "NaN")
             /\ getROI p = Err (INVALID_ARGUMENT "NaN")).
  { intros nq vs vb Hnq Hvs Hvb. unfold getEarnings, getROI.
    rewrite Hnq, Hvs, Hvb, Hp. cbn [bind Number_opt].
    rewrite mulBN_nan. split; reflexivity. }
  assert (H12 : (exists e, getEarnings p = Err e) /\ (exists e, getROI p = Err e)).
  { destruct (BigNumber.from_string (netQuantity p)) as [nq | e1] eqn:Hnq;
      [| split; exists e1; unfold getEarnings, getROI; rewrite Hnq; reflexivity].
    destruct (BigNumber.from_string (valueSold p)) as [vs | e2] eqn:Hvs;
      [| split; exists e2; unfold getEarnings, getROI; rewrite Hnq, Hvs; reflexivity].
    destruct (BigNumber.from_string (valueBought p)) as [vb | e3] eqn:Hvb;
      [| split; exists e3; unfold getEarnings, getROI;
         rewrite Hnq, Hvs, Hvb; reflexivity].
    destruct (H3 nq vs vb eq_refl eq_refl eq_refl) as [A B].
    split; eexists; eassumption. }
  destruct H12 as [H1 H2].
  assert (H5 : forall (e : error) (before after : list Position),
             getEarnings p = Err e ->
             Forall (fun y => exists obj, positionObject y = Ok obj) before ->
             getAllPositions (before ++ p :: after) = Err e).
  { intros e before after He Hb. unfold getAllPositions.
    apply forEach_push_Err; [exact Hb |].
    apply positionObject_getEarnings, He. }
  split; [exact H1 | split; [exact H2 | split; [exact H3 |]]].
  split; [| split; [exact H5 | split]].
  - intros data Hin. destruct H1 as [e He].
    destruct (positionObject_fails p e (or_introl He)) as [e' He'].
    unfold getAllPositions. apply forEach_push_fails with p e'; assumption.
  - intros nq vs vb before after Hnq Hvs Hvb Hb.
    apply H5; [| exact Hb]. apply (H3 nq vs vb Hnq Hvs Hvb).
  - intros q price nq vs vb Hq Hn Hnq Hvs Hvb. unfold getEarnings, getROI.
    rewrite Hnq, Hvs, Hvb, Hq. cbn [bind Number_opt].
    rewrite (is_nan_eq _ Hn), mulBN_nan. split; reflexivity.
Qed.

Lemma out_of_range_fails_witness :
  getEarnings missing_price = Err (INVALID_ARGUMENT "NaN")
  /\ getROI missing_price = Err (INVALID_ARGUMENT "NaN").
Proof.
  refine (proj1 (proj2 (proj2 (out_of_range_fails missing_price _)))
            100 50 20 _ _ _); vm_compute; reflexivity.
Defined.

(** C7 (as stated) fails: no condition of its own marks an index out of
    range.  [missing_price] (index 2 of two prices) and [unreadable_price]
    (index 1, within bounds) throw the very same exception. *)
Lemma out_of_range_not_told_apart :
  price_entry missing_price = None
  /\ price_entry unreadable_price = Some "n/a"%string
  /\ getEarnings missing_price = Err (INVALID_ARGUMENT "NaN")
  /\ getEarnings unreadable_price = Err (INVALID_ARGUMENT "NaN")
  /\ getROI missing_price = getROI unreadable_price.
Proof. repeat split; vm_compute; reflexivity. Qed.

(* ===================================================================== *)
(** * Aggregation *)
(* ===================================================================== *)

Lemma rollup_users (l : list LeaderBoardPosition) (K : list string) :
  map lb_user (map (fun u => rollup u l) K) = K.
Proof. rewrite map_map. simpl. apply map_id. Qed.

(** C4 (amended).  [getAggregatedPositions] returns one record per distinct
    user of its input: the users of the output are without repetition and
    are those of the input.  The sum of [invested] over the output equals
    the sum over the input when every [invested] is a non-negative integer
    and their total is below [2 ^ 53]: both as JavaScript adds the numbers
    from left to right ([total]) and as exact sums of the integers they
    hold ([zsum]). *)
Theorem aggregation_conserves (l : list LeaderBoardPosition) :
  exists out,
    getAggregatedPositions l = Ok out
    /\ NoDup (map lb_user out)
    /\ (forall u, In u (map lb_user out) <-> In u (map lb_user l))
    /\ (Forall (fun p => whole (invested p)) l ->
        zsum (map (fun p => amount (invested p)) l) < 2 ^ 53 ->
        total invested out = total invested l
        /\ zsum (map (fun r => amount (invested r)) out)
           = zsum (map (fun p => amount (invested p)) l)).
Proof.
  set (K := ordered_keys (first_occurrences (map lb_user l))).
  assert (HK : Permutation K (first_occurrences (map lb_user l)))
    by apply ordered_keys_perm.
  assert (ND : NoDup K).
  { apply (Permutation_NoDup (Permutation_sym HK)), first_occurrences_NoDup. }
  assert (HI : forall u, In u K <-> In u (map lb_user l)).
  { intros u. split; intros H.
    - apply first_occurrences_In. apply (Permutation_in _ HK H).
    - apply (Permutation_in _ (Permutation_sym HK)).
      apply first_occurrences_In, H. }
  exists (map (fun u => rollup u l) K).
  split; [apply getAggregatedPositions_spec |].
  rewrite rollup_users. split; [exact ND |]. split; [exact HI |].
  intros Hw Hb. apply (total_rollup invested rollup); auto.
  intros p Hp. apply HI. apply in_map, Hp.
Qed.

Lemma aggregation_conserves_witness :
  exists out,
    getAggregatedPositions small_board = Ok out
    /\ total invested out = total invested small_board
    /\ zsum (map (fun r => amount (invested r)) out)
       = zsum (map (fun p => amount (invested p)) small_board).
Proof.
  destruct (aggregation_conserves small_board) as (out & H1 & _ & _ & H4).
  exists out. split; [exact H1 |]. apply H4.
  - repeat constructor; vm_compute; try reflexivity; discriminate.
  - vm_compute. reflexivity.
Defined.

(** C4 (as stated) fails on conservation: the positions
    [uneven_positions] ([2 ^ 53] and 1 bought by user A, 1 and 1 by user B)
    valuate to [uneven_stakes] and aggregate to [uneven_rollup], where A
    holds [2 ^ 53]: [2 ^ 53 + 1] is not a number and rounds to [2 ^ 53].
    The records sum to [2 ^ 53 + 2]; the valuated positions sum to
    [2 ^ 53 + 3] exactly, and to [2 ^ 53] as JavaScript adds them in
    order. *)
Lemma aggregation_rounds :
  getAllPositions uneven_positions = Ok uneven_stakes
  /\ getAggregatedPositions uneven_stakes = Ok uneven_rollup
  /\ total invested uneven_rollup = 9007199254740994%float
  /\ total invested uneven_stakes = 9007199254740992%float
  /\ (total invested uneven_rollup =? total invested uneven_stakes)%float
     = false
  /\ zsum (map (fun r => amount (invested r)) uneven_rollup) = 2 ^ 53 + 2
  /\ zsum (map (fun p => amount (invested p)) uneven_stakes) = 2 ^ 53 + 3.
Proof. repeat split; vm_compute; reflexivity. Qed.

(** ** The sums of the code and the plain sum of the specification *)

Lemma sum_onto_snoc (xs : list number) (x acc : number) :
  sum_onto acc (xs ++ [x]) = (sum_onto acc xs + x)%float.
Proof.
  revert acc. induction xs as [| y rest IH]; intros acc; [reflexivity |].
  cbn [app sum_onto]. apply IH.
Qed.

Lemma plain_sum_snoc (xs : list number) (x : number) :
  plain_sum (xs ++ [x]) = (plain_sum xs + x)%float.
Proof. apply sum_onto_snoc. Qed.

(** The recurrence has one solution. *)
Lemma plain_sum_unique (sum : list number -> number) :
  sum [] = 0%float ->
  (forall xs x, sum (xs ++ [x]) = (sum xs + x)%float) ->
  forall xs, sum xs = plain_sum xs.
Proof.
  intros S0 S1 xs. induction xs as [| x rest IH] using rev_ind.
  - exact S0.
  - rewrite S1, plain_sum_snoc, IH. reflexivity.
Qed.

(** The [reduce] of the code is the plain sum. *)
Lemma total_plain_sum (f : LeaderBoardPosition -> number)
    (position : list LeaderBoardPosition) :
  total f position = plain_sum (map f position).
Proof.
  unfold total, plain_sum. generalize 0%float.
  induction position as [| p rest IH]; intros acc; [reflexivity |].
  cbn [fold_left map sum_onto]. apply IH.
Qed.

(** A float sum of integers of either sign is exact while the magnitudes
    add up to less than [2 ^ 53]. *)
Lemma total_integral (f : LeaderBoardPosition -> number)
    (l : list LeaderBoardPosition) :
  Forall (fun p => integral (f p)) l ->
  zsum (map (fun p => Z.abs (amount (f p))) l) < 2 ^ 53 ->
  total f l = Z2F (zsum (map (fun p => amount (f p)) l)).
Proof.
  intros F B. unfold total. change 0%float with (Z2F 0).
  assert (G : forall acc,
             Z.abs acc + zsum (map (fun p => Z.abs (amount (f p))) l) < 2 ^ 53 ->
             fold_left (fun t p => (t + f p)%float) l (Z2F acc)
             = Z2F (acc + zsum (map (fun p => amount (f p)) l))).
  { clear B. unfold zsum.
    induction F as [| p rest [E Hp] _ IH]; intros acc B;
      cbn [map fold_right fold_left] in *.
    - rewrite Z.add_0_r. reflexivity.
    - set (z := amount (f p)) in *.
      assert (N : 0 <= fold_right Z.add 0
                         (map (fun p => Z.abs (amount (f p))) rest)).
      { clear. induction rest as [| q t IHt]; cbn [map fold_right]; lia. }
      rewrite E, (Z2F_add acc z) by lia. rewrite IH by lia. f_equal. lia. }
  rewrite G by lia. reflexivity.
Qed.

(** C5.  Every aggregated record stands for a user with at least one
    position and holds, in each of [invested], [earnings] and [roi], the
    plain sum of the field over the positions of that user: the sum that
    starts from 0 and adds each value once, in input order, with no weight,
    which is the only function of the values that is 0 on none and grows
    by [x] when [x] is added.  For values that are integers, of either
    sign, the field is their integer sum.  [roi] is thus a sum of the positions'
    percentages: 10 and 30 give 40, whatever was invested. *)
Theorem aggregation_sums (l : list LeaderBoardPosition) :
  exists out,
    getAggregatedPositions l = Ok out
    /\ Forall (fun r =>
                 members (lb_user r) l <> []
                 /\ forall f, In f [invested; earnings; roi] ->
                      f r = plain_sum (map f (members (lb_user r) l))) out
    /\ (forall sum : list number -> number,
           sum [] = 0%float ->
           (forall xs x, sum (xs ++ [x]) = (sum xs + x)%float) ->
           Forall (fun r =>
                     forall f, In f [invested; earnings; roi] ->
                       f r = sum (map f (members (lb_user r) l))) out)
    /\ Forall (fun r =>
                 forall f, In f [invested; earnings; roi] ->
                   Forall (fun p => integral (f p)) (members (lb_user r) l) ->
                   zsum (map (fun p => Z.abs (amount (f p)))
                             (members (lb_user r) l)) < 2 ^ 53 ->
                   f r = Z2F (zsum (map (fun p => amount (f p))
                                        (members (lb_user r) l)))) out
    /\ getAggregatedPositions
         [ record_of "u" 1 100 10; record_of "u" 1 300 30 ]%float
       = Ok [ record_of "u" 2 400 40 ]%float.
Proof.
  eexists. split; [apply getAggregatedPositions_spec |].
  assert (F : forall r,
             In r (map (fun u => rollup u l)
                       (ordered_keys (first_occurrences (map lb_user l)))) ->
             members (lb_user r) l <> []
             /\ forall f, In f [invested; earnings; roi] ->
                  f r = total f (members (lb_user r) l)).
  { intros r Hr. apply in_map_iff in Hr. destruct Hr as (u & <- & Hu).
    cbn [rollup lb_user]. split.
    - apply (Permutation_in _ (ordered_keys_perm _)) in Hu.
      apply (proj1 (first_occurrences_In _ _)) in Hu.
      destruct (members_head u l Hu) as (first & rest & E & _).
      rewrite E. discriminate.
    - intros f Hf. cbn [In] in Hf.
      destruct Hf as [<- | [<- | [<- | []]]]; reflexivity. }
  split; [| split; [| split]].
  - apply Forall_forall. intros r Hr. destruct (F r Hr) as [N T].
    split; [exact N |]. intros f Hf.
    rewrite (T f Hf). apply total_plain_sum.
  - intros sum S0 S1. apply Forall_forall. intros r Hr f Hf.
    destruct (F r Hr) as [_ T].
    rewrite (T f Hf), total_plain_sum.
    symmetry. apply plain_sum_unique; assumption.
  - apply Forall_forall. intros r Hr f Hf W B.
    destruct (F r Hr) as [_ T]. rewrite (T f Hf).
    apply total_integral; assumption.
  - vm_compute. reflexivity.
Qed.

Lemma aggregation_sums_witness :
  exists out,
    getAggregatedPositions small_board = Ok out
    /\ Forall (fun r =>
                 invested r
                 = Z2F (zsum (map (fun p => amount (invested p))
                                  (members (lb_user r) small_board)))) out.
Proof.
  destruct (aggregation_sums small_board) as (out & H & _ & _ & W & _).
  exists out. split; [exact H |].
  assert (E : out = small_rollup).
  { assert (A : getAggregatedPositions small_board = Ok small_rollup)
      by (vm_compute; reflexivity).
    congruence. }
  subst out.
  repeat match goal with
         | H : Forall _ (_ :: _) |- _ =>
             let a := fresh "a" in let b := fresh "b" in
             inversion H as [| ? ? a b]; subst; clear H
         end.
  repeat constructor;
    match goal with
    | H : forall f, In f _ -> _ |- invested ?r = _ =>
        apply (H invested (or_introl eq_refl));
          [repeat constructor; vm_compute; (reflexivity || discriminate)
          | vm_compute; reflexivity]
    end.
Defined.

(** The scenario of the specification: A earns 100 and 50, B earns 200. *)
Lemma aggregation_example :
  getAggregatedPositions small_board = Ok small_rollup.
Proof. vm_compute. reflexivity. Qed.

Lemma getAllPositions_Forall2 (data : list Position)
    (out : list LeaderBoardPosition) :
  getAllPositions data = Ok out ->
  Forall2 (fun p r => positionObject p = Ok r) data out.
Proof.
  unfold getAllPositions. intros H.
  destruct (forEach_push_Ok positionObject data [] out H) as (objs & HF & ->).
  exact HF.
Qed.

Lemma positionObject_user (p : Position) (r : LeaderBoardPosition) :
  positionObject p = Ok r -> lb_user r = id (user p).
Proof.
  unfold positionObject. destruct (getEarnings p); [| discriminate].
  simpl. destruct (getROI p); [| discriminate]. simpl.
  intros H. injection H as <-. reflexivity.
Qed.

(** C10 (amended).  Where the valuation of every position succeeds,
    [getAllPositions] returns one record per position, in input order,
    whose user is the position's [user.id].  [getAggregatedPositions]
    lists the users in the order of JavaScript's object keys: first the
    users whose name is an array index, by ascending value, then the
    others by first occurrence; this is the order of first occurrence
    when no user's name is an array index. *)
Theorem stages_keep_order :
  (forall data : list Position,
      Forall (fun p => exists r, positionObject p = Ok r) data ->
      exists out,
        getAllPositions data = Ok out
        /\ Forall2 (fun p r => positionObject p = Ok r
                               /\ lb_user r = id (user p)) data out)
  /\ (forall l : list LeaderBoardPosition,
         exists out,
           getAggregatedPositions l = Ok out
           /\ map lb_user out
              = map snd (index_keys (first_occurrences (map lb_user l)))
                ++ filter is_named (first_occurrences (map lb_user l))
           /\ StronglySorted Z.le
                (map fst (index_keys (first_occurrences (map lb_user l))))
           /\ Forall (fun p => array_index (snd p) = Some (fst p))
                (index_keys (first_occurrences (map lb_user l))))
  /\ (forall l : list LeaderBoardPosition,
         Forall (fun p => array_index (lb_user p) = None) l ->
         exists out,
           getAggregatedPositions l = Ok out
           /\ map lb_user out = first_occurrences (map lb_user l)).
Proof.
  split; [| split].
  - intros data H.
    assert (G : forall array,
               exists objs,
                 forEach_push positionObject array data = Ok (array ++ objs)
                 /\ Forall2 (fun p r => positionObject p = Ok r
                                        /\ lb_user r = id (user p)) data objs).
    { induction H as [| p rest (r & Hr) _ IH]; intros array.
      - exists []. rewrite app_nil_r. split; [reflexivity | constructor].
      - destruct (IH (array ++ [r])) as (objs & E & F).
        exists (r :: objs). simpl. rewrite Hr. simpl. rewrite E, <- app_assoc.
        split; [reflexivity |]. constructor; [| exact F].
        split; [exact Hr | apply positionObject_user, Hr]. }
    destruct (G []) as (objs & E & F). exists objs. split; assumption.
  - intros l. eexists. split; [apply getAggregatedPositions_spec |].
    rewrite rollup_users. split; [reflexivity |].
    split; [apply index_keys_sorted | apply index_keys_index].
  - intros l H. eexists. split; [apply getAggregatedPositions_spec |].
    rewrite rollup_users. apply ordered_keys_named.
    apply Forall_forall. intros u Hu.
    apply (proj1 (first_occurrences_In _ _)) in Hu.
    apply in_map_iff in Hu. destruct Hu as (p & <- & Hp).
    rewrite Forall_forall in H. apply H, Hp.
Qed.

Lemma stages_keep_order_witness :
  (exists out,
      getAllPositions [regular_position; regular_position] = Ok out
      /\ Forall2 (fun p r => positionObject p = Ok r
                             /\ lb_user r = id (user p))
           [regular_position; regular_position] out)
  /\ (exists out,
         getAggregatedPositions small_board = Ok out
         /\ map lb_user out = first_occurrences (map lb_user small_board)).
Proof.
  split.
  - apply (proj1 stages_keep_order).
    repeat constructor; eexists; vm_compute; reflexivity.
  - apply (proj2 (proj2 stages_keep_order)).
    repeat constructor; vm_compute; reflexivity.
Defined.

(** C10 (as stated) fails on the order of the aggregated records: user
    ["1"] occurs before user ["0"] in the input, and the output lists
    ["0"] first. *)
Lemma aggregation_reorders_numbered_users :
  first_occurrences (map lb_user numbered_users) = ["1"; "0"]%string
  /\ getAggregatedPositions numbered_users
     = Ok [ record_of "0" 7 10 70; record_of "1" 5 10 50 ]%float
  /\ map lb_user [ record_of "0" 7 10 70; record_of "1" 5 10 50 ]%float
     <> first_occurrences (map lb_user numbered_users).
Proof.
  split; [vm_compute; reflexivity |]. split; [vm_compute; reflexivity |].
  vm_compute. discriminate.
Qed.

(* ===================================================================== *)
(** * Ranking *)
(* ===================================================================== *)

Lemma getEarnings_finite (p : Position) (x : number) :
  getEarnings p = Ok x -> is_finite x = true.
Proof.
  unfold getEarnings.
  destruct (BigNumber.from_string (netQuantity p)) as [nq |]; [| discriminate].
  cbn [bind].
  destruct (BigNumber.from_string (valueSold p)) as [vs |]; [| discriminate].
  cbn [bind].
  destruct (BigNumber.from_string (valueBought p)) as [vb |]; [| discriminate].
  cbn [bind].
  destruct (mulBN _ _ _) as [nv |]; [| discriminate]. cbn [bind].
  unfold BigNumber.toNumber.
  destruct (Z.ltb_spec (Z.abs (BigNumber.sub (BigNumber.add nv vs) vb)) (2 ^ 53))
    as [B | B]; [| discriminate].
  intros E. injection E as <-. apply Z2F_finite. exact B.
Qed.

Lemma total_not_nan (f : LeaderBoardPosition -> number)
    (l : list LeaderBoardPosition) :
  Forall (fun p => is_finite (f p) = true) l -> is_nan (total f l) = false.
Proof.
  intros H. unfold total.
  assert (G : forall t, is_nan t = false ->
                        is_nan (fold_left (fun t p => (t + f p)%float) l t) = false).
  { induction H as [| p rest Hp _ IH]; intros t Ht; simpl; [exact Ht |].
    apply IH. apply add_not_nan; assumption. }
  apply G. reflexivity.
Qed.

(** The pipeline never hands a NaN to [getTopTen]: the earnings of a
    position are an integer below [2 ^ 53], and sums of finite numbers are
    numbers or infinities. *)
Lemma aggregated_earnings_no_NaN (data : list Position)
    (all agg : list LeaderBoardPosition) :
  getAllPositions data = Ok all ->
  getAggregatedPositions all = Ok agg ->
  no_NaN agg.
Proof.
  intros Hall Hagg.
  assert (Hfin : Forall (fun p => is_finite (earnings p) = true) all).
  { clear Hagg. apply getAllPositions_Forall2 in Hall.
    induction Hall as [| p r ps rs Hpr _ IH]; [constructor |].
    constructor; [| exact IH].
    unfold positionObject in Hpr.
    destruct (getEarnings p) as [x |] eqn:E; [| discriminate]. simpl in Hpr.
    destruct (getROI p); [| discriminate]. simpl in Hpr.
    injection Hpr as <-. simpl. apply getEarnings_finite with p, E. }
  rewrite getAggregatedPositions_spec in Hagg. injection Hagg as <-.
  unfold no_NaN. apply Forall_forall. intros r Hr.
  apply in_map_iff in Hr. destruct Hr as (u & <- & _). simpl.
  apply total_not_nan. apply Forall_forall. intros p Hp.
  rewrite Forall_forall in Hfin. apply Hfin.
  apply filter_In in Hp. tauto.
Qed.

Lemma getTopTen_board (l : list LeaderBoardPosition) :
  leaderBoardPositions (getTopTen l) = firstn 10 (Array_sort byEarnings l).
Proof. reflexivity. Qed.

(** C3.  For every list of aggregated records (their earnings are sums,
    never NaN), the board of [getTopTen] is sorted by earnings, highest
    first and non-increasing, and has [min 10 n] entries for [n] records;
    an empty list gives an empty board.  [getTopTen] has no exception: it
    is a total function. *)
Theorem getTopTen_sorted (l : list LeaderBoardPosition) :
  no_NaN l ->
  StronglySorted ge_earnings (leaderBoardPositions (getTopTen l))
  /\ List.length (leaderBoardPositions (getTopTen l))
     = Nat.min 10 (List.length l)
  /\ leaderBoardPositions (getTopTen []) = [].
Proof.
  intros H. rewrite getTopTen_board. split; [| split].
  - apply StronglySorted_firstn, Array_sort_byEarnings_sorted, H.
  - rewrite length_firstn, Array_sort_length. reflexivity.
  - reflexivity.
Qed.

Lemma getTopTen_sorted_witness :
  StronglySorted ge_earnings (leaderBoardPositions (getTopTen small_rollup))
  /\ List.length (leaderBoardPositions (getTopTen small_rollup))
     = Nat.min 10 (List.length small_rollup)
  /\ leaderBoardPositions (getTopTen []) = [].
Proof.
  apply (getTopTen_sorted small_rollup).
  repeat constructor.
Defined.

(** The scenario of the specification, with its tie: B and [cat] both at
    200 keep their order, ahead of A at 150. *)
Lemma getTopTen_example :
  map lb_user (leaderBoardPositions (getTopTen small_rollup))
  = ["bob"; "cat"; "ann"]%string.
Proof. vm_compute. reflexivity. Qed.

(** X1.  The whole pipeline: whatever positions it is given, the board it
    returns is sorted and holds [min 10 n] of the [n] users. *)
Lemma pipeline_board_sorted (data : list Position)
    (all agg : list LeaderBoardPosition) :
  getAllPositions data = Ok all ->
  getAggregatedPositions all = Ok agg ->
  StronglySorted ge_earnings (leaderBoardPositions (getTopTen agg))
  /\ List.length (leaderBoardPositions (getTopTen agg))
     = Nat.min 10 (List.length (first_occurrences (map lb_user all))).
Proof.
  intros Hall Hagg.
  pose proof (aggregated_earnings_no_NaN data all agg Hall Hagg) as Hn.
  rewrite getTopTen_board. split.
  - apply StronglySorted_firstn, Array_sort_byEarnings_sorted, Hn.
  - rewrite length_firstn, Array_sort_length.
    rewrite getAggregatedPositions_spec in Hagg. injection Hagg as <-.
    rewrite length_map.
    rewrite (Permutation_length (ordered_keys_perm _)). reflexivity.
Qed.

(** C8.  For every list of aggregated records (their earnings are sums,
    never NaN), the records tied at any value [e] stand on the board in
    the order the list has them: the board's records with earnings [e] are
    the first of the list's records with earnings [e].  The sort itself
    keeps all the tied records in their order, and the comparator reads
    nothing but [earnings]: no second key breaks a tie.  (The embedding is
    a function: the same list gives the same board.) *)
Theorem getTopTen_stable (l : list LeaderBoardPosition) (e : number) :
  no_NaN l ->
  filter (tied e) (Array_sort byEarnings l) = filter (tied e) l
  /\ (exists rest,
         filter (tied e) l
         = filter (tied e) (leaderBoardPositions (getTopTen l)) ++ rest)
  /\ (forall a b a' b',
         earnings a = earnings a' -> earnings b = earnings b' ->
         byEarnings a b = byEarnings a' b').
Proof.
  intros _. split; [apply Array_sort_byEarnings_stable |]. split.
  - exists (filter (tied e) (skipn 10 (Array_sort byEarnings l))).
    rewrite getTopTen_board, <- filter_firstn_prefix.
    symmetry. apply Array_sort_byEarnings_stable.
  - intros a b a' b' Ha Hb. unfold byEarnings. rewrite Ha, Hb. reflexivity.
Qed.

Lemma getTopTen_stable_witness :
  exists rest,
    filter (tied 200%float) small_rollup
    = filter (tied 200%float) (leaderBoardPositions (getTopTen small_rollup))
      ++ rest.
Proof.
  refine (proj1 (proj2 (getTopTen_stable small_rollup 200%float _))).
  repeat constructor.
Defined.

(** The scenario of the specification: of fifteen users with earnings 1 to
    15, the board holds the ten highest, from 15 down to 6. *)
Lemma getTopTen_fifteen :
  map earnings (leaderBoardPositions (getTopTen fifteen_users))
  = map Z2F [15; 14; 13; 12; 11; 10; 9; 8; 7; 6].
Proof. vm_compute. reflexivity. Qed.

Lemma pipeline_board_sorted_witness :
  StronglySorted ge_earnings (leaderBoardPositions (getTopTen uneven_rollup))
  /\ List.length (leaderBoardPositions (getTopTen uneven_rollup))
     = Nat.min 10 (List.length (first_occurrences (map lb_user uneven_stakes))).
Proof.
  apply (pipeline_board_sorted uneven_positions uneven_stakes uneven_rollup);
    vm_compute; reflexivity.
Defined.

(* ===================================================================== *)
(** * The stages and the arrays they are given *)
(* ===================================================================== *)

Lemma store_write_write (r : Store.ref) (a b : Store.array) (h : Store.store) :
  Store.write r a (Store.write r b h) = Store.write r a h.
Proof.
  revert r. induction h as [| x t IH]; intros [| r]; simpl; auto.
  rewrite IH. reflexivity.
Qed.

Lemma store_write_read (r : Store.ref) (a : Store.array) (h : Store.store) :
  Store.read r h = Some a -> Store.write r a h = h.
Proof.
  unfold Store.read. revert r.
  induction h as [| x t IH]; intros [| r] H; simpl in *; try discriminate.
  - congruence.
  - rewrite IH by exact H. reflexivity.
Qed.

Lemma store_write_last (a b : Store.array) (h : Store.store) :
  Store.write (List.length h) a (h ++ [b]) = h ++ [a].
Proof. induction h as [| x t IH]; simpl; [reflexivity | rewrite IH; reflexivity]. Qed.

Lemma store_read_app (r : Store.ref) (h : Store.store) (a x : Store.array) :
  Store.read r h = Some a -> Store.read r (h ++ [x]) = Some a.
Proof.
  intros H. unfold Store.read in *. rewrite nth_error_app1; [exact H |].
  apply nth_error_Some. congruence.
Qed.

(** The loop on the store is the loop on values, written to the target. *)
Lemma store_forEach_push_at_eq {X : Type}
    (f : X -> result LeaderBoardPosition) (target : Store.ref)
    (items : list X) :
  forall (h : Store.store) (array : list LeaderBoardPosition),
    Store.read target h = Some (Store.Board array) ->
    Store.forEach_push_at f target items h =
    match forEach_push f array items with
    | Ok out => Ok (Store.write target (Store.Board out) h)
    | Err e => Err e
    end.
Proof.
  induction items as [| x rest IH]; intros h array Hr; simpl.
  - rewrite (store_write_read _ _ _ Hr). reflexivity.
  - destruct (f x) as [obj | e]; [| reflexivity]. simpl.
    unfold Store.push. rewrite (proj2 (store_read_board _ _ _) Hr). simpl.
    rewrite (IH _ (array ++ [obj])).
    + destruct (forEach_push f (array ++ [obj]) rest); [| reflexivity].
      rewrite store_write_write. reflexivity.
    + apply store_read_write_same. eapply store_read_bound, Hr.
Qed.

Lemma store_getAllPositions (data : Store.ref) (h : Store.store)
    (l : list Position) :
  Store.read data h = Some (Store.Positions l) ->
  Store.getAllPositions data h =
  match getAllPositions l with
  | Ok out => Ok (List.length h, h ++ [Store.Board out])
  | Err e => Err e
  end.
Proof.
  intros Hr. unfold Store.getAllPositions, Store.alloc, Store.read_positions.
  rewrite (store_read_app _ _ _ _ Hr). cbn [bind].
  rewrite (store_forEach_push_at_eq _ _ _ _ []).
  - unfold getAllPositions.
    destruct (forEach_push positionObject [] l); [| reflexivity].
    cbn [bind]. rewrite store_write_last. reflexivity.
  - unfold Store.read. rewrite nth_error_app2, Nat.sub_diag by lia. reflexivity.
Qed.

Lemma store_getAggregatedPositions (all : Store.ref) (h : Store.store)
    (l : list LeaderBoardPosition) :
  Store.read all h = Some (Store.Board l) ->
  Store.getAggregatedPositions all h =
  match getAggregatedPositions l with
  | Ok out => Ok (List.length h, h ++ [Store.Board out])
  | Err e => Err e
  end.
Proof.
  intros Hr. unfold Store.getAggregatedPositions, Store.alloc.
  rewrite (proj2 (store_read_board _ _ _) (store_read_app _ _ _ _ Hr)).
  cbn [bind].
  rewrite (store_forEach_push_at_eq _ _ _ _ []).
  - unfold getAggregatedPositions.
    destruct (forEach_push aggregate [] _); [| reflexivity].
    cbn [bind]. rewrite store_write_last. reflexivity.
  - unfold Store.read. rewrite nth_error_app2, Nat.sub_diag by lia. reflexivity.
Qed.

Lemma store_getTopTen (agg : Store.ref) (h : Store.store)
    (l : list LeaderBoardPosition) :
  Store.read agg h = Some (Store.Board l) ->
  Store.getTopTen agg h =
  Ok (List.length h,
      Store.write agg (Store.Board (Array_sort byEarnings l)) h
      ++ [Store.Board (leaderBoardPositions (getTopTen l))]).
Proof.
  intros Hr. unfold Store.getTopTen.
  rewrite (proj2 (store_read_board _ _ _) Hr). cbn [bind].
  assert (Hs : Store.read_board agg
                 (Store.write agg (Store.Board (Array_sort byEarnings l)) h)
               = Ok (Array_sort byEarnings l)).
  { apply store_read_board, store_read_write_same.
    eapply store_read_bound, Hr. }
  rewrite Hs. cbn [bind]. unfold Store.alloc.
  rewrite store_write_length. reflexivity.
Qed.

(** C9 (amended).  [getAllPositions] and [getAggregatedPositions] leave
    the store as it was and add one array, their result: the array they are
    given is unchanged.  [getTopTen] adds its result as a new array as
    well, but sorts the array it is given in place: after the call that
    array holds the same records, ordered by earnings, highest first, those
    of equal earnings in the order they had; the new array is a copy of
    its first ten; no other array changes.  (This is stated for every array
    in which no record's earnings is NaN.) *)
Theorem stages_and_their_arrays :
  (forall (data : Store.ref) (h : Store.store) (l : list Position),
      Store.read data h = Some (Store.Positions l) ->
      Store.getAllPositions data h =
      match getAllPositions l with
      | Ok out => Ok (List.length h, h ++ [Store.Board out])
      | Err e => Err e
      end
      /\ forall out, Store.read data (h ++ [Store.Board out])
                     = Some (Store.Positions l))
  /\ (forall (all : Store.ref) (h : Store.store) (l : list LeaderBoardPosition),
         Store.read all h = Some (Store.Board l) ->
         Store.getAggregatedPositions all h =
         match getAggregatedPositions l with
         | Ok out => Ok (List.length h, h ++ [Store.Board out])
         | Err e => Err e
         end
         /\ forall out, Store.read all (h ++ [Store.Board out])
                        = Some (Store.Board l))
  /\ (forall (agg : Store.ref) (h : Store.store) (l : list LeaderBoardPosition),
         Store.read agg h = Some (Store.Board l) ->
         no_NaN l ->
         exists h' sorted,
           Store.getTopTen agg h = Ok (List.length h, h')
           /\ Store.read agg h' = Some (Store.Board sorted)
           /\ Permutation sorted l
           /\ StronglySorted ge_earnings sorted
           /\ (forall e, filter (tied e) sorted = filter (tied e) l)
           /\ Store.read (List.length h) h'
              = Some (Store.Board (firstn 10 sorted))
           /\ firstn 10 sorted = leaderBoardPositions (getTopTen l)
           /\ forall r, r <> agg -> (r < List.length h)%nat ->
                        Store.read r h' = Store.read r h).
Proof.
  split; [| split].
  - intros data h l Hr. split; [apply store_getAllPositions, Hr |].
    intros out. apply store_read_app, Hr.
  - intros all h l Hr. split; [apply store_getAggregatedPositions, Hr |].
    intros out. apply store_read_app, Hr.
  - intros agg h l Hr Hn.
    pose proof (store_read_bound _ _ _ Hr) as Hb.
    eexists. exists (Array_sort byEarnings l).
    split; [apply store_getTopTen, Hr |].
    split; [| split; [| split; [| split; [| split; [| split]]]]].
    + apply store_read_app, store_read_write_same, Hb.
    + apply Array_sort_perm.
    + apply Array_sort_byEarnings_sorted, Hn.
    + intros e. apply Array_sort_byEarnings_stable.
    + unfold Store.read.
      rewrite nth_error_app2; rewrite store_write_length; [| lia].
      rewrite Nat.sub_diag. reflexivity.
    + reflexivity.
    + intros r Hne Hlt. unfold Store.read.
      rewrite nth_error_app1 by (rewrite store_write_length; exact Hlt).
      apply store_read_write_other, Hne.
Qed.

Lemma stages_and_their_arrays_witness :
  exists h' sorted,
    Store.getTopTen 0%nat unsorted_store = Ok (1%nat, h')
    /\ Store.read 0%nat h' = Some (Store.Board sorted)
    /\ Permutation sorted
         [ record_of "low" 1 10 10; record_of "high" 2 10 20 ]%float
    /\ StronglySorted ge_earnings sorted.
Proof.
  destruct (proj2 (proj2 stages_and_their_arrays) 0%nat unsorted_store
              [ record_of "low" 1 10 10; record_of "high" 2 10 20 ]%float
              eq_refl)
    as (h' & sorted & H1 & H2 & H3 & H4 & _).
  - unfold no_NaN. repeat constructor.
  - exists h', sorted. repeat split; assumption.
Defined.

(** C9 (as stated) fails for [getTopTen]: given the array
    [low (1), high (2)], the call leaves it as [high (2), low (1)]. *)
Lemma getTopTen_reorders_its_input :
  Store.read 0%nat unsorted_store
    = Some (Store.Board
              [ record_of "low" 1 10 10; record_of "high" 2 10 20 ]%float)
  /\ Store.getTopTen 0%nat unsorted_store
     = Ok (1%nat,
           [ Store.Board
               [ record_of "high" 2 10 20; record_of "low" 1 10 10 ]%float;
             Store.Board
               [ record_of "high" 2 10 20; record_of "low" 1 10 10 ]%float ])
  /\ Store.read 0%nat
       [ Store.Board
           [ record_of "high" 2 10 20; record_of "low" 1 10 10 ]%float;
         Store.Board
           [ record_of "high" 2 10 20; record_of "low" 1 10 10 ]%float ]
     <> Store.read 0%nat unsorted_store.
Proof.
  split; [reflexivity |]. split; [vm_compute; reflexivity |].
  vm_compute. intros H. discriminate H.
Qed.

(* ===================================================================== *)
(** * Further properties of the board *)
(* ===================================================================== *)

Lemma SFleb_ltb (x y : spec_float) : SFleb x y = true -> SFltb y x = false.
Proof. sf_cases; sf_compare. Qed.

Lemma SFleb_antisym (x y : spec_float) :
  SFleb x y = true -> SFleb y x = true -> SFeqb x y = true.
Proof. sf_cases; sf_compare. Qed.

Lemma leb_ltb (x y : number) : (x <=? y)%float = true -> (y <? x)%float = false.
Proof. rewrite leb_spec, ltb_spec. apply SFleb_ltb. Qed.

Lemma leb_antisym (x y : number) :
  (x <=? y)%float = true -> (y <=? x)%float = true -> (x =? y)%float = true.
Proof. rewrite !leb_spec, eqb_spec. apply SFleb_antisym. Qed.

Lemma StronglySorted_skipn {A : Type} (R : A -> A -> Prop) (n : nat)
    (l : list A) :
  StronglySorted R l ->
  Forall (fun r => Forall (R r) (skipn n l)) (firstn n l).
Proof.
  revert n. induction l as [| x t IH]; intros n H.
  - rewrite firstn_nil. constructor.
  - destruct n as [| n]; [constructor |].
    inversion H as [| ? ? Ht Hx]; subst. cbn [firstn skipn].
    constructor; [| apply IH, Ht].
    apply Forall_forall. intros y Hy. rewrite Forall_forall in Hx. apply Hx.
    rewrite <- (firstn_skipn n t). apply in_or_app. right. exact Hy.
Qed.

(** X3.  The board holds entries of the input, each as often as the input has
    it at most, and no entry left out is ranked above an entry of the
    board. *)
Lemma getTopTen_takes_the_best (l : list LeaderBoardPosition) :
  no_NaN l ->
  exists rest,
    Permutation (leaderBoardPositions (getTopTen l) ++ rest) l
    /\ Forall (fun r => Forall (fun p => ge_earnings r p) rest)
         (leaderBoardPositions (getTopTen l)).
Proof.
  intros H. exists (skipn 10 (Array_sort byEarnings l)).
  rewrite getTopTen_board. split.
  - rewrite firstn_skipn. apply Array_sort_perm.
  - apply StronglySorted_skipn, Array_sort_byEarnings_sorted, H.
Qed.

Lemma getTopTen_takes_the_best_witness :
  exists rest,
    Permutation (leaderBoardPositions (getTopTen fifteen_users) ++ rest)
      fifteen_users
    /\ Forall (fun r => Forall (fun p => ge_earnings r p) rest)
         (leaderBoardPositions (getTopTen fifteen_users)).
Proof.
  apply (getTopTen_takes_the_best fifteen_users).
  unfold no_NaN. repeat constructor.
Defined.

(** Sorting an array that is already in order leaves it as it is. *)
Lemma Array_sort_sorted_id (l : list LeaderBoardPosition) :
  StronglySorted ge_earnings l -> Array_sort byEarnings l = l.
Proof.
  induction 1 as [| x t Ht IH Hx]; [reflexivity |].
  cbn [Array_sort]. rewrite IH.
  destruct t as [| h t']; [reflexivity |].
  cbn [sort_insert]. rewrite byEarnings_before. unfold gt.
  inversion Hx as [| ? ? Hh _]; subst. unfold ge_earnings in Hh.
  rewrite (leb_ltb _ _ Hh). reflexivity.
Qed.

(** X4.  Ranking a board again changes nothing: the board of a board is
    that board. *)
Lemma getTopTen_idempotent (l : list LeaderBoardPosition) :
  no_NaN l ->
  getTopTen (leaderBoardPositions (getTopTen l)) = getTopTen l.
Proof.
  intros H.
  assert (E : Array_sort byEarnings (leaderBoardPositions (getTopTen l))
              = leaderBoardPositions (getTopTen l)).
  { apply Array_sort_sorted_id. rewrite getTopTen_board.
    apply StronglySorted_firstn, Array_sort_byEarnings_sorted, H. }
  unfold getTopTen at 1. rewrite E. rewrite getTopTen_board.
  unfold getTopTen, Array_slice. cbn [skipn Nat.sub].
  rewrite firstn_firstn. reflexivity.
Qed.

Lemma getTopTen_idempotent_witness :
  getTopTen (leaderBoardPositions (getTopTen fifteen_users))
  = getTopTen fifteen_users.
Proof.
  apply (getTopTen_idempotent fifteen_users).
  unfold no_NaN. repeat constructor.
Defined.

(** Two arrays in order that hold the same entries are the same array,
    when only equal entries tie. *)
Lemma sorted_unique (s s' : list LeaderBoardPosition) :
  untied s -> StronglySorted ge_earnings s -> StronglySorted ge_earnings s' ->
  Permutation s s' -> s = s'.
Proof.
  intros U Hs. revert s'. induction Hs as [| x t Ht IH Hx]; intros s' Hs' P.
  - apply Permutation_nil in P. subst. reflexivity.
  - destruct s' as [| y t'].
    { apply Permutation_sym, Permutation_nil in P. discriminate P. }
    inversion Hs' as [| ? ? Ht' Hy]; subst.
    assert (E : x = y).
    { assert (Ix : In x (y :: t')).
      { apply (Permutation_in _ P). left. reflexivity. }
      assert (Iy : In y (x :: t)).
      { apply (Permutation_in _ (Permutation_sym P)). left. reflexivity. }
      destruct Ix as [Ix | Ix]; [symmetry; exact Ix |].
      destruct Iy as [Iy | Iy]; [exact Iy |].
      apply U; [left; reflexivity | right; exact Iy |].
      rewrite Forall_forall in Hx, Hy.
      apply leb_antisym; [apply Hy, Ix | apply Hx, Iy]. }
    subst y. f_equal. apply IH.
    + intros a b Ia Ib. apply U; right; assumption.
    + exact Ht'.
    + apply Permutation_cons_inv with x. exact P.
Qed.

(** X5.  The board does not depend on the order of the input when only
    equal entries tie. *)
Lemma getTopTen_order_independent (l l' : list LeaderBoardPosition) :
  no_NaN l -> untied l -> Permutation l l' ->
  getTopTen l' = getTopTen l.
Proof.
  intros N U P. unfold getTopTen. f_equal. f_equal. symmetry.
  apply sorted_unique.
  - intros a b Ia Ib.
    apply U; apply (Permutation_in _ (Array_sort_perm byEarnings l));
      assumption.
  - apply Array_sort_byEarnings_sorted, N.
  - apply Array_sort_byEarnings_sorted. unfold no_NaN in *.
    eapply Permutation_Forall; [exact P | exact N].
  - apply Permutation_trans with l; [apply Array_sort_perm |].
    apply Permutation_trans with l'; [exact P |].
    apply Permutation_sym, Array_sort_perm.
Qed.

Lemma getTopTen_order_independent_witness :
  getTopTen (rev uneven_rollup) = getTopTen uneven_rollup.
Proof.
  apply (getTopTen_order_independent uneven_rollup (rev uneven_rollup)).
  - unfold no_NaN. repeat constructor.
  - intros a b Ia Ib.
    repeat (destruct Ia as [<- | Ia]; [| try contradiction]);
      repeat (destruct Ib as [<- | Ib]; [| try contradiction]);
      try reflexivity; vm_compute; discriminate.
  - apply Permutation_rev.
Defined.

(** X18.  Ten records or fewer are all on the board. *)
Lemma getTopTen_keeps_all (l : list LeaderBoardPosition) :
  (List.length l <= 10)%nat ->
  Permutation (leaderBoardPositions (getTopTen l)) l.
Proof.
  intros H. rewrite getTopTen_board, firstn_all2.
  - apply Array_sort_perm.
  - rewrite Array_sort_length. exact H.
Qed.

Lemma getTopTen_keeps_all_witness :
  Permutation (leaderBoardPositions (getTopTen small_rollup)) small_rollup.
Proof. apply (getTopTen_keeps_all small_rollup). cbn [List.length small_rollup]. lia. Defined.

(* ===================================================================== *)
(** * Further properties of the stages *)
(* ===================================================================== *)

Lemma forEach_push_from {X : Type} (callback : X -> result LeaderBoardPosition)
    (items : list X) :
  forall array,
    forEach_push callback array items =
    (out <- forEach_push callback [] items ;; Ok (array ++ out)).
Proof.
  induction items as [| x rest IH]; intros array; cbn [forEach_push].
  - cbn [bind]. rewrite app_nil_r. reflexivity.
  - destruct (callback x) as [obj | e]; cbn [bind]; [| reflexivity].
    rewrite (IH (array ++ [obj])), (IH ([] ++ [obj])).
    destruct (forEach_push callback [] rest) as [out | e]; cbn [bind];
      [| reflexivity].
    rewrite <- app_assoc. reflexivity.
Qed.

Lemma forEach_push_app {X : Type} (callback : X -> result LeaderBoardPosition)
    (first second : list X) :
  forall array,
    forEach_push callback array (first ++ second) =
    (mid <- forEach_push callback array first ;;
     forEach_push callback mid second).
Proof.
  induction first as [| x rest IH]; intros array; cbn [forEach_push app].
  - reflexivity.
  - destruct (callback x) as [obj | e]; cbn [bind]; [| reflexivity].
    apply IH.
Qed.

(** X6.  The valuation of two batches of positions, one after the other, is the
    valuation of the first followed by the valuation of the second; an
    exception in the first batch is the one thrown, else one in the
    second. *)
Lemma getAllPositions_app (first second : list Position) :
  getAllPositions (first ++ second) =
  (a <- getAllPositions first ;;
   b <- getAllPositions second ;;
   Ok (a ++ b)).
Proof.
  unfold getAllPositions. rewrite forEach_push_app.
  destruct (forEach_push positionObject [] first) as [a | e]; cbn [bind];
    [| reflexivity].
  apply forEach_push_from.
Qed.

(** X7.  [mulBN] truncates towards zero: changing the sign of [a] changes the
    sign of the result and nothing else. *)
Lemma mulBN_opp (a : Z) (b scale : number) :
  mulBN (- a) b scale = (r <- mulBN a b scale ;; Ok (- r)).
Proof.
  unfold mulBN.
  destruct (BigNumber.from_number (Math_round (b * scale)%float)) as [r | e];
    cbn [bind]; [| reflexivity].
  destruct (BigNumber.from_number scale) as [s | e]; cbn [bind];
    [| reflexivity].
  unfold BigNumber.div, BigNumber.mul.
  destruct (Z.eqb_spec s 0) as [E | E]; cbn [bind]; [reflexivity |].
  rewrite Z.mul_opp_l, Z.quot_opp_l by exact E. reflexivity.
Qed.

(** X8.  No user is on the board twice, every user of the board is the
    user of a position of the data, and the board is empty only when there
    is no position. *)
Lemma pipeline_board_users (data : list Position)
    (all agg : list LeaderBoardPosition) :
  getAllPositions data = Ok all ->
  getAggregatedPositions all = Ok agg ->
  NoDup (map lb_user (leaderBoardPositions (getTopTen agg)))
  /\ (forall u, In u (map lb_user (leaderBoardPositions (getTopTen agg))) ->
                In u (map (fun p => id (user p)) data))
  /\ (leaderBoardPositions (getTopTen agg) = [] <-> data = []).
Proof.
  intros Hall Hagg.
  assert (Husers : map lb_user all = map (fun p => id (user p)) data).
  { clear Hagg. apply getAllPositions_Forall2 in Hall.
    induction Hall as [| p r ps rs Hpr _ IH]; [reflexivity |].
    cbn [map]. rewrite IH, (positionObject_user p r Hpr). reflexivity. }
  rewrite getAggregatedPositions_spec in Hagg. injection Hagg as <-.
  set (K := ordered_keys (first_occurrences (map lb_user all))).
  set (agg := map (fun u => rollup u all) K).
  assert (HK : Permutation K (first_occurrences (map lb_user all))).
  { apply ordered_keys_perm. }
  assert (Hsorted : Permutation (Array_sort byEarnings agg) agg).
  { apply Array_sort_perm. }
  assert (Hagg : map lb_user agg = K).
  { apply rollup_users. }
  rewrite getTopTen_board.
  assert (Hsplit : Permutation
            (map lb_user (firstn 10 (Array_sort byEarnings agg))
             ++ map lb_user (skipn 10 (Array_sort byEarnings agg)))
            (first_occurrences (map lb_user all))).
  { rewrite <- map_app, firstn_skipn.
    apply Permutation_trans with (map lb_user agg).
    - apply Permutation_map, Hsorted.
    - rewrite Hagg. exact HK. }
  split; [| split].
  - apply NoDup_app_remove_r
      with (l' := map lb_user (skipn 10 (Array_sort byEarnings agg))).
    apply (Permutation_NoDup (Permutation_sym Hsplit)).
    apply first_occurrences_NoDup.
  - intros u Hu. rewrite <- Husers. apply first_occurrences_In.
    apply (Permutation_in _ Hsplit). apply in_or_app. left. exact Hu.
  - split.
    + intros E.
      assert (L : List.length (firstn 10 (Array_sort byEarnings agg)) = 0%nat)
        by (rewrite E; reflexivity).
      rewrite length_firstn, Array_sort_length in L.
      assert (L' : List.length agg = 0%nat) by lia.
      assert (L'' : List.length (first_occurrences (map lb_user all)) = 0%nat).
      { rewrite <- (Permutation_length HK), <- Hagg, length_map. exact L'. }
      destruct data as [| p ps]; [reflexivity |].
      rewrite Husers in L''. discriminate L''.
    + intros ->. destruct all as [| r rs]; [reflexivity | discriminate Husers].
Qed.

Lemma pipeline_board_users_witness :
  NoDup (map lb_user (leaderBoardPositions (getTopTen uneven_rollup)))
  /\ (forall u, In u (map lb_user (leaderBoardPositions (getTopTen uneven_rollup))) ->
                In u (map (fun p => id (user p)) uneven_positions))
  /\ (leaderBoardPositions (getTopTen uneven_rollup) = []
      <-> uneven_positions = []).
Proof.
  apply (pipeline_board_users uneven_positions uneven_stakes uneven_rollup);
    vm_compute; reflexivity.
Defined.

(* ===================================================================== *)
(** * Further facts about numbers *)
(* ===================================================================== *)

(** The mantissa of a number has at most 53 digits. *)
Lemma Prim2SF_finite_bounds (x : number) (s : bool) (m : positive) (e : Z) :
  Prim2SF x = S754_finite s m e ->
  Zpos m < 2 ^ 53 /\ -1074 <= e <= 971.
Proof.
  intros E. pose proof (Prim2SF_valid x) as V. rewrite E in V.
  unfold SpecFloat.valid_binary, bounded, canonical_mantissa in V.
  apply andb_true_iff in V. destruct V as [C B].
  apply Z.eqb_eq in C. apply Z.leb_le in B.
  unfold fexp, SpecFloat.emin, prec, emax in *.
  pose proof (digits2_pos_bounds m) as [_ U].
  assert (D : Zpos (digits2_pos m) <= 53) by lia.
  split; [| lia].
  apply Z.lt_le_trans with (2 ^ Zpos (digits2_pos m)); [exact U |].
  apply Z.pow_le_mono_r; lia.
Qed.

(** Products of integers are exact as long as they stay below [2 ^ 53]. *)
Lemma SFmul_canon (sa sb : bool) (qa qb : positive) :
  Zpos qa < 2 ^ 53 -> Zpos qb < 2 ^ 53 -> Zpos (qa * qb) < 2 ^ 53 ->
  SFmul prec emax (canon sa qa) (canon sb qb) = canon (xorb sa sb) (qa * qb).
Proof.
  intros Ha Hb Hab.
  destruct (canon_digits qa Ha) as (Hda & Hma & _).
  destruct (canon_digits qb Hb) as (Hdb & Hmb & _).
  destruct (canon_digits (qa * qb) Hab) as (Hdab & Hmab & H53).
  unfold canon, SFmul.
  set (da := Zpos (digits2_pos qa)) in *.
  set (db := Zpos (digits2_pos qb)) in *.
  set (d := Zpos (digits2_pos (qa * qb))) in *.
  pose proof (digits2_pos_bounds qa) as Ba. fold da in Ba.
  pose proof (digits2_pos_bounds qb) as Bb. fold db in Bb.
  pose proof (digits2_pos_bounds (qa * qb)) as Bab. fold d in Bab.
  assert (Hd : da + db - 1 <= d).
  { destruct (Z_le_gt_dec (da + db - 1) d) as [L | G]; [exact L |].
    exfalso.
    assert (P : 2 ^ d <= 2 ^ (da - 1 + (db - 1))) by (apply Z.pow_le_mono_r; lia).
    rewrite Z.pow_add_r in P by lia.
    rewrite Pos2Z.inj_mul in Bab.
    assert (0 < 2 ^ (da - 1)) by (apply Z.pow_pos_nonneg; lia).
    assert (0 < 2 ^ (db - 1)) by (apply Z.pow_pos_nonneg; lia).
    assert (M : 2 ^ (da - 1) * 2 ^ (db - 1) <= Zpos qa * Zpos qb)
      by (apply Z.mul_le_mono_nonneg; lia).
    lia. }
  replace (d - 53) with ((da - 53 + (db - 53)) + (53 - da - db + d)) by lia.
  apply binary_round_aux_exact; [lia | | exact H53 | lia].
  rewrite Pos2Z.inj_mul, Hma, Hmab, Hmb, Pos2Z.inj_mul.
  set (k := 53 - da - db + d).
  replace (53 - da) with ((53 - d) + (k - (53 - db))) by lia.
  replace (2 ^ k) with (2 ^ ((k - (53 - db)) + (53 - db))) by (f_equal; lia).
  rewrite !Z.pow_add_r by lia. ring.
Qed.

Lemma Z2F_mul (a b : Z) :
  Z.abs a < 2 ^ 53 -> 0 < b < 2 ^ 53 -> Z.abs (a * b) < 2 ^ 53 ->
  (Z2F a * Z2F b)%float = Z2F (a * b).
Proof.
  intros Ha Hb Hab. apply Prim2SF_inj.
  rewrite mul_spec, !Prim2SF_Z2F by lia.
  destruct b as [| qb | qb]; try lia. rewrite (bn_pos qb) by lia.
  destruct a as [| qa | qa].
  - reflexivity.
  - rewrite (bn_pos qa) by lia. cbn [Z.mul].
    rewrite (bn_pos (qa * qb)) by (cbn [Z.mul Z.abs] in Hab; lia).
    apply (SFmul_canon false false); cbn [Z.mul Z.abs] in Hab; lia.
  - rewrite (bn_neg qa) by lia. cbn [Z.mul].
    rewrite (bn_neg (qa * qb)) by (cbn [Z.mul Z.abs] in Hab; lia).
    apply (SFmul_canon true false); cbn [Z.mul Z.abs] in Hab; lia.
Qed.

Lemma round_half_up_canon (s : bool) (q : positive) :
  Zpos q < 2 ^ 53 -> Zpos (digits2_pos q) - 53 < 0 ->
  (2 * cond_Zopp s
         (Zpos (Z.to_pos (Zpos q * 2 ^ (53 - Zpos (digits2_pos q)))))
   + 2 ^ (- (Zpos (digits2_pos q) - 53)))
  / 2 ^ (1 - (Zpos (digits2_pos q) - 53))
  = cond_Zopp s (Zpos q).
Proof.
  intros Hq L. destruct (canon_digits q Hq) as (Hd & Hm & _).
  set (d := Zpos (digits2_pos q)) in *. rewrite Hm.
  assert (P : 0 < 2 ^ (53 - d)) by (apply Z.pow_pos_nonneg; lia).
  replace (- (d - 53)) with (53 - d) by lia.
  replace (1 - (d - 53)) with (1 + (53 - d)) by lia.
  rewrite Z.pow_add_r by lia. change (2 ^ 1) with 2.
  replace (2 * cond_Zopp s (Zpos q * 2 ^ (53 - d)) + 2 ^ (53 - d))
    with (cond_Zopp s (Zpos q) * (2 * 2 ^ (53 - d)) + 2 ^ (53 - d))
    by (destruct s; unfold cond_Zopp; ring).
  rewrite Z.div_add_l by lia.
  rewrite Z.div_small by lia. lia.
Qed.

(** Rounding an integer changes nothing. *)
Lemma Math_round_Z2F (n : Z) : Z.abs n < 2 ^ 53 -> Math_round (Z2F n) = Z2F n.
Proof.
  intros H. unfold Math_round. rewrite (Prim2SF_Z2F n H).
  destruct n as [| q | q].
  - reflexivity.
  - rewrite bn_pos by lia. unfold canon.
    destruct (Z.leb_spec 0 (Zpos (digits2_pos q) - 53)) as [L | L];
      [reflexivity |].
    cbv zeta. rewrite (round_half_up_canon false q) by lia. reflexivity.
  - rewrite bn_neg by lia. unfold canon.
    destruct (Z.leb_spec 0 (Zpos (digits2_pos q) - 53)) as [L | L];
      [reflexivity |].
    cbv zeta. rewrite (round_half_up_canon true q) by lia. reflexivity.
Qed.

(* ===================================================================== *)
(** * Further properties of [mulBN] *)
(* ===================================================================== *)

(** X9.  At a price that is a whole number, [mulBN] is the exact
    product. *)
Lemma mulBN_whole_price (a k : Z) :
  Z.abs k * 10000 < BigNumber.MAX_SAFE ->
  mulBN a (Z2F k) default_scale = Ok (a * k).
Proof.
  intros H. unfold BigNumber.MAX_SAFE in H. unfold mulBN.
  replace default_scale with (Z2F 10000) at 1 by (vm_compute; reflexivity).
  assert (B : Z.abs (k * 10000) < 9007199254740991) by (rewrite Z.abs_mul; lia).
  rewrite Z2F_mul by lia. rewrite Math_round_Z2F by lia.
  rewrite (from_number_Ok (Z2F (k * 10000)) (k * 10000));
    [| apply int_value_Z2F; lia | exact B].
  cbn [bind]. rewrite from_number_default_scale. cbn [bind].
  unfold BigNumber.div, BigNumber.mul. cbn [Z.eqb].
  rewrite Z.mul_assoc, Z.quot_mul by lia. reflexivity.
Qed.

Lemma mulBN_whole_price_witness : mulBN 123 (Z2F (-2)) default_scale = Ok (123 * -2).
Proof. apply (mulBN_whole_price 123 (-2)). vm_compute. reflexivity. Defined.

(* ===================================================================== *)
(** * [Number] and [BigNumber.from] on the same string *)
(* ===================================================================== *)

Lemma div_eucl_one (m : Z) : Z.div_eucl m 1 = (m, 0).
Proof.
  pose proof (Z.div_1_r m) as Q. pose proof (Z.mod_1_r m) as R.
  unfold Z.div, Z.modulo in Q, R.
  destruct (Z.div_eucl m 1) as [q r]. cbn [fst snd] in *. congruence.
Qed.

(** The number nearest to [p / 1] is the number nearest to [p]. *)
Lemma Q2F_one (neg : bool) (p : positive) :
  Q2F neg p 1 = SF2Prim (binary_round prec emax neg p 0).
Proof.
  unfold Q2F. f_equal. unfold SFdiv_core_binary.
  change (Zdigits2 1) with 1. change (Zdigits2 (Zpos p)) with (Zpos (digits2_pos p)).
  set (d := Zpos (digits2_pos p)).
  pose proof (digits2_pos_bounds p) as B. fold d in B.
  assert (D : 1 <= d) by (unfold d; lia).
  unfold fexp, SpecFloat.emin, prec, emax.
  replace (Z.min (Z.max (d + 0 - (1 + 0) - 53) (3 - 1024 - 53)) (0 - 0))
    with (Z.min (d - 54) 0) by lia.
  destruct (Z_le_gt_dec 54 d) as [L | G].
  - replace (Z.min (d - 54) 0) with 0 by lia. cbn [Z.sub Z.opp Z.add].
    rewrite div_eucl_one. cbn [new_location Z.even new_location_odd Z.eqb].
    unfold binary_round. fold d. unfold fexp, SpecFloat.emin, prec, emax, shl_align.
    destruct (Z.max (d + 0 - 53) (3 - 1024 - 53) - 0) as [| x | x] eqn:E;
      try reflexivity. lia.
  - replace (Z.min (d - 54) 0) with (d - 54) by lia.
    replace (0 - 0 - (d - 54)) with (54 - d) by lia.
    destruct (54 - d) as [| k | k] eqn:E; try lia.
    rewrite div_eucl_one. cbn [new_location Z.even new_location_odd Z.eqb].
    assert (Hp : Zpos p < 2 ^ 53).
    { apply Z.lt_le_trans with (2 ^ d); [lia |]. apply Z.pow_le_mono_r; lia. }
    change (binary_round 53 1024 neg p 0) with (binary_round prec emax neg p 0).
    rewrite (binary_round_canon neg p p 0); [| lia | simpl; lia | exact Hp].
    destruct (canon_digits p Hp) as (_ & Hm & H53). fold d in Hm, H53.
    rewrite Z.shiftl_mul_pow2 by lia.
    destruct (Zpos p * 2 ^ Zpos k) as [| m | m] eqn:Em; try lia.
    unfold canon. fold d.
    replace (d - 53) with (d - 54 + 1) by lia.
    apply binary_round_aux_exact; [lia | | exact H53 | lia].
    rewrite <- Em, Hm. replace (Zpos k) with ((53 - d) + 1) by lia.
    rewrite Z.pow_add_r by lia. ring.
Qed.

Lemma digit_not_white (base : Z) (c : ascii) (v : Z) :
  base <= 16 -> digit_value base c = Some v ->
  is_white_space c = false /\ code c < 128.
Proof.
  unfold digit_value, is_white_space. set (n := code c). intros B.
  destruct (Z.leb_spec 48 n), (Z.leb_spec n 57), (Z.leb_spec 97 n),
    (Z.leb_spec n 102), (Z.leb_spec 65 n), (Z.leb_spec n 70);
    cbn [andb]; try lia;
    try (destruct (Z.ltb_spec 16 base); [lia | discriminate]);
    intros _; (split; [| lia]);
    destruct (Z.leb_spec 9 n), (Z.leb_spec n 13), (Z.eqb_spec n 32);
    cbn [andb orb]; try reflexivity; lia.
Qed.

Lemma digit_value_nonneg (base : Z) (c : ascii) (v : Z) :
  digit_value base c = Some v -> 0 <= v.
Proof.
  unfold digit_value. set (n := code c).
  destruct (Z.leb_spec 48 n), (Z.leb_spec n 57), (Z.leb_spec 97 n),
    (Z.leb_spec n 102), (Z.leb_spec 65 n), (Z.leb_spec n 70);
    cbn [andb]; try lia;
    match goal with |- context [?a <? base] => destruct (a <? base) end;
    intros E; try discriminate E; injection E as <-; lia.
Qed.

Lemma digits_from_digits (base : Z) (l : list ascii) :
  base <= 16 ->
  forall acc v, digits_from base acc l = Some v ->
    Forall (fun c => exists d, digit_value base c = Some d) l
    /\ (0 <= base -> 0 <= acc -> 0 <= v).
Proof.
  intros B. induction l as [| c t IH]; intros acc v H; cbn [digits_from] in H.
  - injection H as <-. split; [constructor | auto].
  - destruct (digit_value base c) as [d |] eqn:E; [| discriminate H].
    destruct (IH _ _ H) as [F N]. split.
    + constructor; [exists d; exact E | exact F].
    + intros Hb Ha. apply N; [exact Hb |].
      pose proof (digit_value_nonneg _ _ _ E). nia.
Qed.

Lemma trim_left_head (c : ascii) (t : list ascii) :
  is_white_space c = false /\ code c < 128 -> trim_left (c :: t) = c :: t.
Proof.
  intros [H B]. cbn [trim_left]. rewrite H.
  unfold is_white_space2, is_white_space3.
  destruct (Z.eqb_spec (code c) 194); [lia |].
  destruct (Z.eqb_spec (code c) 225); [lia |].
  destruct (Z.eqb_spec (code c) 226); [lia |].
  destruct (Z.eqb_spec (code c) 227); [lia |].
  destruct (Z.eqb_spec (code c) 239); [lia |].
  cbn [andb orb]. destruct t as [| c1 [| c2 t2]]; reflexivity.
Qed.

Lemma trim_right_head (c : ascii) (t : list ascii) :
  is_white_space c = false /\ code c < 128 -> trim_right (c :: t) = c :: t.
Proof.
  intros [H B]. cbn [trim_right]. rewrite H.
  unfold is_white_space2, is_white_space3.
  destruct (Z.eqb_spec (code c) 160); [lia |].
  destruct (Z.eqb_spec (code c) 128); [lia |].
  destruct (Z.eqb_spec (code c) 159); [lia |].
  destruct (Z.eqb_spec (code c) 191); [lia |].
  destruct (Z.eqb_spec (code c) 168); [lia |].
  destruct (Z.eqb_spec (code c) 169); [lia |].
  destruct (Z.eqb_spec (code c) 175); [lia |].
  destruct (Z.leb_spec 128 (code c)); [lia |].
  destruct t as [| c1 [| c2 t2]]; try reflexivity;
    rewrite ?andb_false_r; cbn [andb orb]; rewrite ?andb_false_r;
    reflexivity.
Qed.

Lemma trim_not_white (l : list ascii) :
  Forall (fun c => is_white_space c = false /\ code c < 128) l -> trim l = l.
Proof.
  intros F. unfold trim.
  assert (L : trim_left l = l).
  { destruct F as [| c t Hc _]; [reflexivity |]. apply trim_left_head, Hc. }
  assert (R : trim_right (rev l) = rev l).
  { apply Forall_rev in F.
    destruct F as [| c t Hc _]; [reflexivity |]. apply trim_right_head, Hc. }
  rewrite L, R. apply rev_involutive.
Qed.

Lemma span_digits_all (l : list ascii) :
  Forall (fun c => exists d, digit_value 10 c = Some d) l ->
  span_digits l = (l, []).
Proof.
  induction 1 as [| c t [d Hc] _ IH]; [reflexivity |].
  cbn [span_digits]. rewrite Hc, IH. reflexivity.
Qed.

Lemma digit_is_not (c : ascii) (d : Z) (s : string) :
  digit_value 10 c = Some d ->
  match s with
  | String c' EmptyString => digit_value 10 c' = None
  | _ => True
  end ->
  is_char c s = false.
Proof.
  intros H N. unfold is_char. destruct s as [| c' [| ? ?]]; try reflexivity.
  destruct (Ascii.eqb_spec c c') as [-> | _]; [congruence | reflexivity].
Qed.

(** On a string of decimal digits, [Number] is the number nearest to the
    integer the digits write. *)
Lemma Number_decimal_digits (s : string) (z : Z) :
  digits 10 (list_ascii_of_string s) = Some z -> Number s = Z2F z.
Proof.
  unfold Number. generalize (list_ascii_of_string s). clear s. intros l H.
  destruct l as [| c0 t]; [discriminate H |].
  unfold digits in H.
  destruct (digits_from_digits 10 (c0 :: t) ltac:(lia) _ _ H) as [F N].
  assert (W : Forall (fun c => is_white_space c = false /\ code c < 128)
                (c0 :: t)).
  { eapply Forall_impl; [| exact F]. cbv beta. intros c [d Hd].
    apply (digit_not_white 10 c d); [lia | exact Hd]. }
  unfold Number_of_chars. rewrite (trim_not_white _ W).
  destruct t as [| c1 r].
  - cbn [digits_from] in H.
    destruct (digit_value 10 c0) as [v |]; [| discriminate H].
    injection H as <-. reflexivity.
  - inversion F as [| ? ? [d0 H0] F1]; subst.
    inversion F1 as [| ? ? [d1 H1] _]; subst.
    rewrite (digit_is_not c1 d1 "x"), (digit_is_not c1 d1 "X"),
      (digit_is_not c1 d1 "o"), (digit_is_not c1 d1 "O"),
      (digit_is_not c1 d1 "b"), (digit_is_not c1 d1 "B"),
      (digit_is_not c0 d0 "-"), (digit_is_not c0 d0 "+")
      by (assumption || reflexivity).
    rewrite !andb_false_r. cbv iota.
    destruct (list_eq_dec ascii_dec (c0 :: c1 :: r)
                (list_ascii_of_string "Infinity")) as [E | _].
    { injection E as -> _. discriminate H0. }
    unfold unsigned_decimal. rewrite (span_digits_all _ F). cbv iota beta.
    rewrite app_nil_r. rewrite H.
    cbn [List.length Z.of_nat Z.opp]. unfold decimal_value.
    destruct z as [| p | p].
    + reflexivity.
    + cbn [Z.leb Z.compare]. change (Z.to_pos (10 ^ 0)) with 1%positive.
      rewrite Pos.mul_1_r. apply Q2F_one.
    + specialize (N ltac:(lia) ltac:(lia)). lia.
Qed.

(** Where [BigNumber.from] reads a string without a minus sign, [Number]
    reads the nearest number to the same integer. *)
Lemma Number_from_string (s : string) (z : Z) :
  BigNumber.from_string s = Ok z -> 0 < z -> Number s = Z2F z.
Proof.
  intros H Hz.
  assert (Neg : forall u v, digits 10 u = Some v \/ digits 16 u = Some v -> 0 <= v).
  { intros u v [D | D]; unfold digits in D; destruct u; try discriminate D.
    - apply (digits_from_digits 10 _ ltac:(lia) _ _ D); lia.
    - apply (digits_from_digits 16 _ ltac:(lia) _ _ D); lia. }
  unfold BigNumber.from_string in H.
  remember (list_ascii_of_string s) as l eqn:El.
  assert (U : match l with
              | c :: r => if is_char c "-" then (true, r) else (false, l)
              | [] => (false, l)
              end = (false, l)).
  { destruct l as [| c r]; [reflexivity |].
    destruct (is_char c "-") eqn:M; [| reflexivity]. exfalso.
    cbv beta iota in H.
    destruct (match r with
              | c0 :: c1 :: r0 =>
                  if is_char c0 "0" && is_char c1 "x" then digits 16 r0 else None
              | _ => None
              end) as [v |] eqn:Hex.
    - injection H as <-.
      assert (0 <= v); [| lia].
      destruct r as [| c0 [| c1 r0]]; try discriminate Hex.
      destruct (is_char c0 "0" && is_char c1 "x"); [| discriminate Hex].
      apply (Neg r0). right. exact Hex.
    - destruct (digits 10 r) as [v |] eqn:Dec; [| discriminate H].
      injection H as <-. assert (0 <= v); [| lia].
      apply (Neg r). left. exact Dec. }
  rewrite U in H.
  destruct (match l with
            | c0 :: c1 :: r0 =>
                if is_char c0 "0" && is_char c1 "x" then digits 16 r0 else None
            | _ => None
            end) as [v |] eqn:Hex.
  - injection H as <-.
    destruct l as [| c0 [| c1 r0]]; try discriminate Hex.
    destruct (is_char c0 "0") eqn:I0; [| discriminate Hex].
    destruct (is_char c1 "x") eqn:I1; [| discriminate Hex].
    cbn [andb] in Hex. unfold Number. rewrite <- El.
    unfold is_char in I0, I1.
    apply Ascii.eqb_eq in I0, I1. subst c0 c1.
    unfold Number_of_chars. rewrite trim_not_white.
    + cbn [is_char Ascii.eqb Bool.eqb andb orb]. rewrite Hex. reflexivity.
    + constructor; [split; reflexivity |].
      constructor; [split; reflexivity |].
      unfold digits in Hex. destruct r0 as [| c r]; [discriminate Hex |].
      destruct (digits_from_digits 16 _ ltac:(lia) _ _ Hex) as [F _].
      eapply Forall_impl; [| exact F]. cbv beta. intros c' [d Hd].
      apply (digit_not_white 16 c' d); [lia | exact Hd].
  - destruct (digits 10 l) as [v |] eqn:Dec; [| discriminate H].
    injection H as <-. apply Number_decimal_digits. rewrite <- El. exact Dec.
Qed.

(* ===================================================================== *)
(** * Further properties of the valuation *)
(* ===================================================================== *)

Lemma divBN_Err (a b : Z) (e : error) :
  divBN a b default_scale = Err e ->
  (e = NUMERIC_FAULT division_by_zero /\ b = 0) \/ e = NUMERIC_FAULT overflow.
Proof.
  destruct (Z.eq_dec b 0) as [-> | N].
  - rewrite divBN_zero. intros E. injection E as <-. left. split; reflexivity.
  - rewrite (divBN_value a b N).
    destruct (Z.abs (Z.quot (a * 10000) b) <? 2 ^ 53); [discriminate |].
    intros E. injection E as <-. right. reflexivity.
Qed.

Lemma getROI_Ok_bought (p : Position) (x : number) (vb : Z) :
  getROI p = Ok x -> BigNumber.from_string (valueBought p) = Ok vb -> vb <> 0.
Proof.
  unfold getROI. intros H Hvb.
  destruct (BigNumber.from_string (netQuantity p)); [| discriminate H].
  cbn [bind] in H.
  destruct (BigNumber.from_string (valueSold p)); [| discriminate H].
  cbn [bind] in H. rewrite Hvb in H. cbn [bind] in H.
  destruct (mulBN _ _ _); [| discriminate H]. cbn [bind] in H.
  intros ->. rewrite divBN_zero in H. discriminate H.
Qed.

(** X10.  The [invested] amount of a record is read by [Number] from the string
    that [BigNumber.from] reads [valueBought] from: where the valuation
    succeeds on an amount that is not negative, the amount is positive and
    [invested] is the number nearest to it. *)
Lemma invested_reads_valueBought (data : list Position)
    (out : list LeaderBoardPosition) :
  getAllPositions data = Ok out ->
  Forall2 (fun p r =>
             forall vb, BigNumber.from_string (valueBought p) = Ok vb ->
                        0 <= vb -> 0 < vb /\ invested r = Z2F vb)
          data out.
Proof.
  intros H. apply getAllPositions_Forall2 in H.
  induction H as [| p r ps rs Hpr _ IH]; constructor; [| exact IH].
  intros vb Hvb Hpos. unfold positionObject in Hpr.
  destruct (getEarnings p) as [x |]; [| discriminate Hpr]. cbn [bind] in Hpr.
  destruct (getROI p) as [y |] eqn:R; [| discriminate Hpr]. cbn [bind] in Hpr.
  injection Hpr as <-. cbn [invested].
  pose proof (getROI_Ok_bought p y vb R Hvb) as N.
  split; [lia |]. apply Number_from_string; [exact Hvb | lia].
Qed.

Lemma invested_reads_valueBought_witness :
  Forall2 (fun p r =>
             forall vb, BigNumber.from_string (valueBought p) = Ok vb ->
                        0 <= vb -> 0 < vb /\ invested r = Z2F vb)
          [regular_position] [record_of "a" 55 20 275]%float.
Proof.
  apply (invested_reads_valueBought [regular_position]).
  vm_compute. reflexivity.
Defined.

(** ** What the valuation can throw *)

Lemma from_number_round_Err (x : number) (e : error) :
  BigNumber.from_number (Math_round x) = Err e ->
  e = INVALID_ARGUMENT "NaN" \/ e = NUMERIC_FAULT overflow.
Proof.
  assert (G : forall y z, int_value y = Some z ->
              BigNumber.from_number y = Err e ->
              e = INVALID_ARGUMENT "NaN" \/ e = NUMERIC_FAULT overflow).
  { intros y z I. unfold BigNumber.from_number. rewrite I.
    destruct (Prim2SF y); intros E;
      try (injection E as <-; auto; fail);
      destruct ((BigNumber.MAX_SAFE <=? z) || (z <=? - BigNumber.MAX_SAFE));
      try discriminate E; injection E as <-; auto. }
  unfold Math_round. destruct (Prim2SF x) as [s | s | | s m ex] eqn:P.
  - apply (G x 0). unfold int_value. rewrite P. reflexivity.
  - unfold BigNumber.from_number. rewrite P. intros E. injection E as <-. auto.
  - unfold BigNumber.from_number. rewrite P. intros E. injection E as <-. auto.
  - destruct (Z.leb_spec 0 ex) as [L | L].
    + apply (G x (cond_Zopp s (Zpos m * 2 ^ ex))). unfold int_value.
      rewrite P. destruct (Z.leb_spec 0 ex); [reflexivity | lia].
    + cbv zeta.
      set (r := (2 * cond_Zopp s (Zpos m) + 2 ^ (- ex)) / 2 ^ (1 - ex)).
      destruct (Z.eqb_spec r 0) as [Z | NZ].
      * destruct s; [apply (G neg_zero 0) | apply (G zero 0)]; reflexivity.
      * apply (G (Z2F r) r). apply int_value_Z2F.
        destruct (Prim2SF_finite_bounds x s m ex P) as [Bm Be].
        assert (P1 : 2 <= 2 ^ (- ex)).
        { change 2 with (2 ^ 1) at 1. apply Z.pow_le_mono_r; lia. }
        assert (P2 : 2 ^ (1 - ex) = 2 * 2 ^ (- ex)).
        { replace (1 - ex) with (1 + - ex) by lia.
          rewrite Z.pow_add_r by lia. reflexivity. }
        assert (M : - 2 ^ 53 < cond_Zopp s (Zpos m) < 2 ^ 53)
          by (destruct s; unfold cond_Zopp; lia).
        subst r. rewrite P2. apply Z.abs_lt. split.
        -- apply Z.lt_le_trans with (- 2 ^ 52 - 1); [lia |].
           apply Z.div_le_lower_bound; [lia |].
           change (2 ^ 53) with (2 * 2 ^ 52) in M. nia.
        -- apply Z.div_lt_upper_bound; [lia |].
           change (2 ^ 53) with (2 * 2 ^ 52) in M. nia.
Qed.

Lemma mulBN_Err (a : Z) (b : number) (e : error) :
  mulBN a b default_scale = Err e ->
  e = INVALID_ARGUMENT "NaN" \/ e = NUMERIC_FAULT overflow.
Proof.
  unfold mulBN.
  destruct (BigNumber.from_number (Math_round (b * default_scale)%float))
    as [r | e'] eqn:R; cbn [bind].
  - rewrite from_number_default_scale. cbn [bind]. discriminate.
  - intros E. injection E as <-. apply (from_number_round_Err _ _ R).
Qed.

Lemma from_string_Err (s : string) (e : error) :
  BigNumber.from_string s = Err e -> e = INVALID_ARGUMENT s.
Proof.
  unfold BigNumber.from_string.
  destruct (match list_ascii_of_string s with
            | c :: r => if is_char c "-" then (true, r)
                        else (false, list_ascii_of_string s)
            | [] => (false, list_ascii_of_string s)
            end) as [neg u].
  destruct (match u with
            | c0 :: c1 :: r =>
                if is_char c0 "0" && is_char c1 "x" then digits 16 r else None
            | _ => None
            end); [discriminate |].
  destruct (digits 10 u); [discriminate |].
  intros E. injection E as <-. reflexivity.
Qed.

Lemma getEarnings_Err (p : Position) (e : error) :
  getEarnings p = Err e -> position_error p e.
Proof.
  unfold getEarnings, position_error.
  destruct (BigNumber.from_string (netQuantity p)) as [nq | e1] eqn:E1;
    cbn [bind].
  2:{ intros E. injection E as <-. left. apply (from_string_Err _ _ E1). }
  destruct (BigNumber.from_string (valueSold p)) as [vs | e2] eqn:E2;
    cbn [bind].
  2:{ intros E. injection E as <-. right. left. apply (from_string_Err _ _ E2). }
  destruct (BigNumber.from_string (valueBought p)) as [vb | e3] eqn:E3;
    cbn [bind].
  2:{ intros E. injection E as <-. right. right. left.
      apply (from_string_Err _ _ E3). }
  destruct (mulBN nq _ default_scale) as [nv | e4] eqn:E4; cbn [bind].
  2:{ intros E. injection E as <-.
      destruct (mulBN_Err _ _ _ E4) as [-> | ->]; tauto. }
  unfold BigNumber.toNumber.
  destruct (Z.abs _ <? 2 ^ 53); [discriminate |].
  intros E. injection E as <-. tauto.
Qed.

Lemma getROI_Err (p : Position) (e : error) :
  getROI p = Err e -> position_error p e.
Proof.
  unfold getROI, position_error.
  destruct (BigNumber.from_string (netQuantity p)) as [nq | e1] eqn:E1;
    cbn [bind].
  2:{ intros E. injection E as <-. left. apply (from_string_Err _ _ E1). }
  destruct (BigNumber.from_string (valueSold p)) as [vs | e2] eqn:E2;
    cbn [bind].
  2:{ intros E. injection E as <-. right. left. apply (from_string_Err _ _ E2). }
  destruct (BigNumber.from_string (valueBought p)) as [vb | e3] eqn:E3;
    cbn [bind].
  2:{ intros E. injection E as <-. right. right. left.
      apply (from_string_Err _ _ E3). }
  destruct (mulBN nq _ default_scale) as [nv | e4] eqn:E4; cbn [bind].
  2:{ intros E. injection E as <-.
      destruct (mulBN_Err _ _ _ E4) as [-> | ->]; tauto. }
  destruct (divBN _ vb default_scale) as [d | e5] eqn:E5; cbn [bind];
    [discriminate |].
  intros E. injection E as <-.
  destruct (divBN_Err _ _ _ E5) as [[-> ->] | ->]; tauto.
Qed.

Lemma forEach_push_Err_inv {X : Type}
    (callback : X -> result LeaderBoardPosition) (items : list X) (e : error) :
  forall array, forEach_push callback array items = Err e ->
    exists before x after,
      items = before ++ x :: after
      /\ Forall (fun y => exists obj, callback y = Ok obj) before
      /\ callback x = Err e.
Proof.
  induction items as [| x rest IH]; intros array H; cbn [forEach_push] in H.
  - discriminate H.
  - destruct (callback x) as [obj | e'] eqn:C; cbn [bind] in H.
    + destruct (IH _ H) as (before & y & after & -> & Hb & Hy).
      exists (x :: before), y, after. split; [reflexivity |].
      split; [| exact Hy]. constructor; [exists obj; exact C | exact Hb].
    + injection H as <-. exists [], x, rest.
      split; [reflexivity |]. split; [constructor | exact C].
Qed.

(** X11.  What [getAllPositions] can throw, on positions whose amounts
    [BigNumber.from] reads at once: the error of the first position it
    cannot value, which is an invalid argument naming one of the three
    amount strings of that position or ["NaN"] (a price that is no number),
    an overflow, or a division by zero on a [valueBought] of zero.  It
    never throws an underflow or a [TypeError]. *)
Lemma getAllPositions_errors (data : list Position) (e : error) :
  Forall read_at_once data ->
  getAllPositions data = Err e ->
  exists before p after,
    data = before ++ p :: after
    /\ Forall (fun y => exists obj, positionObject y = Ok obj) before
    /\ positionObject p = Err e
    /\ position_error p e.
Proof.
  intros _ H. apply forEach_push_Err_inv in H.
  destruct H as (before & p & after & E & Hb & Hp).
  exists before, p, after.
  split; [exact E |]. split; [exact Hb |]. split; [exact Hp |].
  unfold positionObject in Hp.
  destruct (getEarnings p) as [x | e1] eqn:E1; cbn [bind] in Hp.
  - destruct (getROI p) as [y | e2] eqn:E2; cbn [bind] in Hp;
      [discriminate Hp |].
    injection Hp as <-. apply getROI_Err, E2.
  - injection Hp as <-. apply getEarnings_Err, E1.
Qed.

Lemma getAllPositions_errors_witness :
  exists before p after,
    [regular_position; missing_price] = before ++ p :: after
    /\ Forall (fun y => exists obj, positionObject y = Ok obj) before
    /\ positionObject p = Err (INVALID_ARGUMENT "NaN")
    /\ position_error p (INVALID_ARGUMENT "NaN").
Proof.
  apply (getAllPositions_errors [regular_position; missing_price]).
  - repeat constructor.
  - vm_compute. reflexivity.
Defined.

(* ===================================================================== *)
(** * Prices with up to four decimals *)
(* ===================================================================== *)

Lemma span_digits_app (ip rest : list ascii) (c : ascii) :
  Forall (fun c => exists d, digit_value 10 c = Some d) ip ->
  digit_value 10 c = None ->
  span_digits (ip ++ c :: rest) = (ip, c :: rest).
Proof.
  intros F N. induction F as [| c' t [d Hc] _ IH]; cbn [span_digits app].
  - rewrite N. reflexivity.
  - rewrite Hc, IH. reflexivity.
Qed.

(** A string of two characters or more that has no sign, no radix prefix
    and is not [Infinity] is read as a decimal literal. *)
Lemma Number_of_chars_plain (c0 c1 : ascii) (r : list ascii) :
  Forall (fun c => is_white_space c = false /\ code c < 128)
    (c0 :: c1 :: r) ->
  (forall s, In s ["x"; "X"; "o"; "O"; "b"; "B"]%string -> is_char c1 s = false) ->
  (forall s, In s ["-"; "+"; "I"]%string -> is_char c0 s = false) ->
  Number_of_chars (c0 :: c1 :: r) =
  match unsigned_decimal (c0 :: c1 :: r) with
  | Some (m, e) => decimal_value false m e
  | None => nan
  end.
Proof.
  intros W H1 H0. unfold Number_of_chars. rewrite (trim_not_white _ W).
  rewrite (H1 "x"%string), (H1 "X"%string), (H1 "o"%string), (H1 "O"%string),
    (H1 "b"%string), (H1 "B"%string), (H0 "-"%string), (H0 "+"%string)
    by (cbn [In]; auto 10).
  rewrite !andb_false_r. cbv iota.
  destruct (list_eq_dec ascii_dec (c0 :: c1 :: r)
              (list_ascii_of_string "Infinity")) as [E | _]; [| reflexivity].
  injection E as -> _. specialize (H0 "I"%string ltac:(cbn [In]; auto 10)).
  discriminate H0.
Qed.

Lemma plain_char (c : ascii) :
  c = "."%char \/ (exists d, digit_value 10 c = Some d) ->
  forall s, In s ["x"; "X"; "o"; "O"; "b"; "B"; "-"; "+"; "I"]%string ->
            is_char c s = false.
Proof.
  intros [-> | [d Hd]] s Hs; cbn [In] in Hs;
    repeat (destruct Hs as [<- | Hs]; [try reflexivity |]);
    try contradiction;
    apply (digit_is_not c d); (exact Hd || reflexivity).
Qed.

(** [Number] on digits, a decimal point and digits. *)
Lemma Number_decimal_point (ip fp : list ascii) (m : Z) :
  digits 10 (ip ++ fp) = Some m ->
  Number (string_of_list_ascii (ip ++ "."%char :: fp))
  = decimal_value false m (- Z.of_nat (List.length fp)).
Proof.
  intros H. unfold Number. rewrite list_ascii_of_string_of_list_ascii.
  assert (F : Forall (fun c => exists d, digit_value 10 c = Some d) (ip ++ fp)).
  { unfold digits in H. destruct (ip ++ fp); [constructor |].
    apply (digits_from_digits 10 _ ltac:(lia) _ _ H). }
  apply Forall_app in F. destruct F as [Fi Ff].
  assert (P : Forall (fun c => c = "."%char
                               \/ exists d, digit_value 10 c = Some d)
                (ip ++ "."%char :: fp)).
  { apply Forall_app. split; [| constructor; [left; reflexivity |]];
      (eapply Forall_impl; [| eassumption]); cbv beta; intros c Hc;
      right; exact Hc. }
  assert (W : Forall (fun c => is_white_space c = false /\ code c < 128)
                (ip ++ "."%char :: fp)).
  { eapply Forall_impl; [| exact P]. cbv beta. intros c [-> | [d Hd]];
      [split; reflexivity | apply (digit_not_white 10 c d); [lia | exact Hd]]. }
  assert (U : unsigned_decimal (ip ++ "."%char :: fp)
              = Some (m, - Z.of_nat (List.length fp))).
  { unfold unsigned_decimal.
    rewrite (span_digits_app ip fp "."%char Fi) by reflexivity.
    cbn [is_char Ascii.eqb Bool.eqb andb]. rewrite (span_digits_all fp Ff).
    unfold digits in H. destruct (ip ++ fp) as [| c t]; [discriminate H |].
    rewrite H. reflexivity. }
  assert (L : exists c0 c1 r, ip ++ "."%char :: fp = c0 :: c1 :: r).
  { destruct ip as [| c0 [| c1 ip']].
    - destruct fp as [| c1 r]; [cbv in H; discriminate H |]. cbn [app]. eauto.
    - cbn [app]. eauto.
    - cbn [app]. eauto. }
  destruct L as (c0 & c1 & r & L). rewrite L in *.
  rewrite Number_of_chars_plain.
  - rewrite U. reflexivity.
  - exact W.
  - inversion P as [| ? ? _ P1]; subst. inversion P1 as [| ? ? Hc1 _]; subst.
    intros s Hs. apply (plain_char c1 Hc1). cbn [In] in *. tauto.
  - inversion P as [| ? ? Hc0 _]; subst.
    intros s Hs. apply (plain_char c0 Hc0). cbn [In] in *. tauto.
Qed.

Lemma nearest_integer_round (x : number) (n : Z) :
  nearest_integer x = Some n -> Z.abs n < BigNumber.MAX_SAFE ->
  BigNumber.from_number (Math_round x) = Ok n.
Proof.
  unfold nearest_integer, Math_round. intros H B.
  destruct (Prim2SF x) as [s | s | | s m e] eqn:P; try discriminate H.
  - injection H as <-. apply from_number_Ok; [| exact B].
    unfold int_value. rewrite P. reflexivity.
  - destruct (Z.leb_spec 0 e) as [L | L].
    + assert (H' : cond_Zopp s (Z.shiftl (Zpos m) e) = n) by congruence.
      apply from_number_Ok; [| exact B]. unfold int_value. rewrite P.
      destruct (Z.leb_spec 0 e); [| lia].
      rewrite Z.shiftl_mul_pow2 in H' by lia. rewrite <- H'. reflexivity.
    + assert (H' : Z.shiftr (2 * cond_Zopp s (Zpos m) + Z.shiftl 1 (- e))
                     (1 - e) = n) by congruence.
      cbv zeta.
      rewrite Z.shiftr_div_pow2, Z.shiftl_mul_pow2, Z.mul_1_l in H' by lia.
      rewrite H'.
      destruct (Z.eqb_spec n 0) as [-> | NZ].
      * destruct s; reflexivity.
      * apply from_number_Ok; [| exact B]. apply int_value_Z2F.
        unfold BigNumber.MAX_SAFE in B. lia.
Qed.

Lemma all_from_spec (f : Z -> bool) (n : nat) :
  forall m0, all_from f n m0 = true ->
    forall m, m0 <= m < m0 + Z.of_nat n -> f m = true.
Proof.
  induction n as [| n IH]; intros m0 H m Hm; [lia |].
  cbn [all_from] in H. apply andb_true_iff in H. destruct H as [H0 H1].
  destruct (Z.eq_dec m m0) as [-> | Ne]; [exact H0 |].
  apply (IH (m0 + 1) H1). lia.
Qed.

(** Every price of up to four decimals between 0 and 1, times the scale,
    rounds to the integer it stands for: checked on each of them. *)
Lemma decimal_prices_scaled :
  forallb (fun d =>
    all_from (fun m =>
      match nearest_integer
              (decimal_value false m (- Z.of_nat d) * default_scale)%float with
      | Some r => r =? m * 10 ^ (4 - Z.of_nat d)
      | None => false
      end) (S (10 ^ d)) 0) (seq 0 5) = true.
Proof. vm_compute. reflexivity. Qed.

(** X12.  A price written with at most four decimals, between 0 and 1, is applied
    exactly: [mulBN] returns [a] times the price, truncated towards
    zero. *)
Lemma mulBN_decimal_price (a : Z) (ip fp : list ascii) (m : Z) :
  digits 10 (ip ++ fp) = Some m ->
  (List.length fp <= 4)%nat ->
  m <= 10 ^ Z.of_nat (List.length fp) ->
  mulBN a (Number (string_of_list_ascii (ip ++ "."%char :: fp))) default_scale
  = Ok (Z.quot (a * (m * 10 ^ (4 - Z.of_nat (List.length fp)))) 10000).
Proof.
  intros H Hd Hm. rewrite (Number_decimal_point ip fp m H).
  assert (N : 0 <= m).
  { unfold digits in H. destruct (ip ++ fp); [discriminate H |].
    apply (digits_from_digits 10 _ ltac:(lia) _ _ H); lia. }
  pose proof decimal_prices_scaled as C.
  rewrite forallb_forall in C.
  specialize (C (List.length fp) ltac:(apply in_seq; lia)).
  assert (E : Z.of_nat (10 ^ List.length fp) = 10 ^ Z.of_nat (List.length fp)).
  { rewrite Nat2Z.inj_pow. reflexivity. }
  pose proof (all_from_spec _ _ _ C m ltac:(lia)) as Cm. cbv beta in Cm.
  destruct (nearest_integer _) as [r |] eqn:R; [| discriminate Cm].
  apply Z.eqb_eq in Cm. subst r.
  assert (B : Z.abs (m * 10 ^ (4 - Z.of_nat (List.length fp)))
              < BigNumber.MAX_SAFE).
  { assert (P : m * 10 ^ (4 - Z.of_nat (List.length fp)) <= 10 ^ 4).
    { replace 4 with (Z.of_nat (List.length fp)
                      + (4 - Z.of_nat (List.length fp))) at 2 by lia.
      rewrite Z.pow_add_r by lia.
      apply Z.mul_le_mono_nonneg_r; [apply Z.pow_nonneg; lia | exact Hm]. }
    assert (0 <= 10 ^ (4 - Z.of_nat (List.length fp)))
      by (apply Z.pow_nonneg; lia).
    rewrite Z.abs_eq by (apply Z.mul_nonneg_nonneg; assumption).
    unfold BigNumber.MAX_SAFE. change (10 ^ 4) with 10000 in P. lia. }
  unfold mulBN. rewrite (nearest_integer_round _ _ R B). cbn [bind].
  rewrite from_number_default_scale. cbn [bind].
  unfold BigNumber.div, BigNumber.mul. reflexivity.
Qed.

Lemma mulBN_decimal_price_witness :
  mulBN 101
    (Number (string_of_list_ascii
               (["0"%char] ++ "."%char :: ["2"%char; "5"%char])))
    default_scale
  = Ok (Z.quot (101 * (25 * 10 ^ (4 - Z.of_nat 2))) 10000).
Proof.
  apply (mulBN_decimal_price 101 ["0"%char] ["2"%char; "5"%char] 25).
  - reflexivity.
  - cbn [List.length]. lia.
  - vm_compute. discriminate.
Defined.

(* ===================================================================== *)
(** * Sums are never the negative zero *)
(* ===================================================================== *)

Lemma shr_1_div2 (mrs : shr_record) :
  0 <= shr_m mrs -> shr_m (shr_1 mrs) = shr_m mrs / 2.
Proof.
  destruct mrs as [m r s]. cbn [shr_m]. intros H.
  destruct m as [| [p | p |] | p]; cbn [shr_1 shr_m]; try lia;
    try reflexivity.
  - apply Z.div_unique with 1; lia.
  - apply Z.div_unique with 0; lia.
Qed.

Lemma shr_iter_div (n : nat) (mrs : shr_record) :
  0 <= shr_m mrs ->
  shr_m (Nat.iter n shr_1 mrs) = shr_m mrs / 2 ^ Z.of_nat n.
Proof.
  intros H. induction n as [| n IH].
  - change (Nat.iter 0 shr_1 mrs) with mrs. cbn [Z.of_nat].
    rewrite Z.pow_0_r, Z.div_1_r. reflexivity.
  - rewrite Nat.iter_succ, shr_1_div2.
    + rewrite IH, Nat2Z.inj_succ, Z.pow_succ_r by lia.
      rewrite Z.div_div by (try apply Z.pow_pos_nonneg; lia).
      f_equal. lia.
    + rewrite IH. apply Z.div_pos; [exact H |]. apply Z.pow_pos_nonneg; lia.
Qed.

(** Shifting a mantissa to its place never empties it when the exponent is
    not below the least one. *)
Lemma shr_fexp_pos (m e : Z) (l : location) :
  0 < m -> -1074 <= e ->
  0 < shr_m (fst (shr_fexp prec emax m e l))
  /\ -1074 <= snd (shr_fexp prec emax m e l).
Proof.
  intros Hm He. unfold shr_fexp.
  destruct m as [| p | p]; try lia. cbn [Zdigits2].
  pose proof (digits2_pos_bounds p) as [Bl Bu].
  set (d := Zpos (digits2_pos p)) in *.
  assert (D : 1 <= d) by (unfold d; lia).
  unfold fexp, SpecFloat.emin, prec, emax.
  assert (R : shr_m (shr_record_of_loc (Zpos p) l) = Zpos p).
  { destruct l as [| []]; reflexivity. }
  unfold shr.
  destruct (Z.max (d + e - 53) (3 - 1024 - 53) - e) as [| n | n] eqn:N;
    cbn [fst snd]; try (rewrite R; lia).
  rewrite iter_pos_nat, shr_iter_div by (rewrite R; lia).
  rewrite R, positive_nat_Z. split; [| lia].
  apply Z.div_str_pos. split; [apply Z.pow_pos_nonneg; lia |].
  apply Z.le_trans with (2 ^ (d - 1)); [| exact Bl].
  apply Z.pow_le_mono_r; lia.
Qed.

Lemma binary_round_aux_not_zero (s : bool) (m e : Z) (l : location) :
  0 < m -> -1074 <= e ->
  forall z, binary_round_aux prec emax s m e l <> S754_zero z.
Proof.
  intros Hm He z. unfold binary_round_aux.
  destruct (shr_fexp_pos m e l Hm He) as [P1 E1].
  destruct (shr_fexp prec emax m e l) as [mrs' e']. cbn [fst snd] in P1, E1.
  set (m1 := round_nearest_even (shr_m mrs') (loc_of_shr_record mrs')).
  assert (Hm1 : 0 < m1).
  { unfold m1, round_nearest_even.
    destruct (loc_of_shr_record mrs') as [| []]; try lia.
    destruct (Z.even (shr_m mrs')); lia. }
  destruct (shr_fexp_pos m1 e' loc_Exact Hm1 E1) as [P2 _].
  destruct (shr_fexp prec emax m1 e' loc_Exact) as [mrs'' e''].
  cbn [fst] in P2.
  destruct (shr_m mrs'') as [| q | q]; try lia.
  destruct (e'' <=? emax - prec); discriminate.
Qed.

Lemma binary_round_not_zero (s : bool) (m : positive) (e : Z) :
  -1074 <= e -> forall z, binary_round prec emax s m e <> S754_zero z.
Proof.
  intros He z. unfold binary_round, shl_align.
  destruct (fexp prec emax (Zpos (digits2_pos m) + e) - e) as [| k | k] eqn:K;
    apply binary_round_aux_not_zero; try lia.
  unfold fexp, SpecFloat.emin, prec, emax. lia.
Qed.

Lemma SFadd_not_neg_zero (x y : spec_float) :
  SpecFloat.valid_binary prec emax x = true ->
  SpecFloat.valid_binary prec emax y = true ->
  x <> S754_zero true -> SFadd prec emax x y <> S754_zero true.
Proof.
  intros Vx Vy Hx. unfold SFadd.
  destruct x as [sx | sx | | sx mx ex].
  - destruct sx; [congruence |]. destruct y as [[] | | |]; discriminate.
  - destruct y as [| sy | |]; try discriminate. destruct sx, sy; discriminate.
  - discriminate.
  - destruct y as [sy | sy | | sy my ey]; try discriminate.
    assert (Ex : -1074 <= ex /\ -1074 <= ey).
    { unfold SpecFloat.valid_binary, bounded, canonical_mantissa in Vx, Vy.
      apply andb_true_iff in Vx, Vy. destruct Vx as [Cx _], Vy as [Cy _].
      apply Z.eqb_eq in Cx, Cy.
      unfold fexp, SpecFloat.emin, prec, emax in Cx, Cy. lia. }
    unfold binary_normalize.
    destruct (cond_Zopp sx _ + cond_Zopp sy _) as [| p | p];
      [discriminate | |]; apply binary_round_not_zero; lia.
Qed.

Lemma add_not_neg_zero (t y : number) :
  Prim2SF t <> S754_zero true -> Prim2SF (t + y)%float <> S754_zero true.
Proof.
  intros H. rewrite add_spec.
  apply SFadd_not_neg_zero; [apply Prim2SF_valid | apply Prim2SF_valid | exact H].
Qed.

(** Adding to zero changes nothing but the negative zero. *)
Lemma zero_add (t : number) :
  Prim2SF t <> S754_zero true -> (0 + t)%float = t.
Proof.
  intros H. apply Prim2SF_inj. rewrite add_spec.
  change (Prim2SF 0) with (S754_zero false). unfold SF64add, SFadd.
  destruct (Prim2SF t) as [[] | | |]; try reflexivity. congruence.
Qed.

Lemma total_not_neg_zero (f : LeaderBoardPosition -> number)
    (l : list LeaderBoardPosition) :
  Prim2SF (total f l) <> S754_zero true.
Proof.
  unfold total.
  assert (G : forall t, Prim2SF t <> S754_zero true ->
              Prim2SF (fold_left (fun t p => (t + f p)%float) l t)
              <> S754_zero true).
  { induction l as [| p rest IH]; intros t Ht; cbn [fold_left]; [exact Ht |].
    apply IH, add_not_neg_zero, Ht. }
  apply G. discriminate.
Qed.

(** The total of a single total is that total. *)
Lemma total_single (f : LeaderBoardPosition -> number)
    (r : LeaderBoardPosition) (l : list LeaderBoardPosition) :
  f r = total f l -> total f [r] = total f l.
Proof.
  intros E. unfold total at 1. cbn [fold_left]. rewrite E.
  apply zero_add, total_not_neg_zero.
Qed.

(* ===================================================================== *)
(** * Array indices name one key each *)
(* ===================================================================== *)

Lemma digit_value_code (c : ascii) (d : Z) :
  digit_value 10 c = Some d -> code c = d + 48 /\ 0 <= d <= 9.
Proof.
  unfold digit_value. set (n := code c).
  destruct (Z.leb_spec 48 n), (Z.leb_spec n 57), (Z.leb_spec 97 n),
    (Z.leb_spec n 102), (Z.leb_spec 65 n), (Z.leb_spec n 70);
    cbn [andb]; try lia;
    match goal with |- context [?a <? 10] => destruct (Z.ltb_spec a 10) end;
    intros E; try discriminate E; injection E as <-; lia.
Qed.

Lemma digit_value_inj (c c' : ascii) (d : Z) :
  digit_value 10 c = Some d -> digit_value 10 c' = Some d -> c = c'.
Proof.
  intros H H'. apply digit_value_code in H, H'.
  destruct H as [H _], H' as [H' _]. unfold code in *.
  rewrite <- (ascii_nat_embedding c), <- (ascii_nat_embedding c').
  f_equal. lia.
Qed.

(** Two runs of digits of one length that write one integer are the same
    run. *)
Lemma digits_from_inj (l1 : list ascii) :
  forall l2 acc1 acc2 v,
    List.length l1 = List.length l2 ->
    digits_from 10 acc1 l1 = Some v -> digits_from 10 acc2 l2 = Some v ->
    acc1 = acc2 /\ l1 = l2.
Proof.
  induction l1 as [| c1 t1 IH]; intros [| c2 t2] acc1 acc2 v L H1 H2;
    try discriminate L; cbn [digits_from] in H1, H2.
  - split; [congruence | reflexivity].
  - destruct (digit_value 10 c1) as [d1 |] eqn:D1; [| discriminate H1].
    destruct (digit_value 10 c2) as [d2 |] eqn:D2; [| discriminate H2].
    injection L as L.
    destruct (IH t2 _ _ v L H1 H2) as [A ->].
    pose proof (digit_value_code _ _ D1) as [_ R1].
    pose proof (digit_value_code _ _ D2) as [_ R2].
    assert (d1 = d2) by lia. subst d2.
    split; [lia |]. f_equal. apply (digit_value_inj _ _ _ D1 D2).
Qed.

Lemma digits_from_bounds (l : list ascii) :
  forall acc v, 0 <= acc -> digits_from 10 acc l = Some v ->
    acc * 10 ^ Z.of_nat (List.length l) <= v
    < (acc + 1) * 10 ^ Z.of_nat (List.length l).
Proof.
  induction l as [| c t IH]; intros acc v A H; cbn [digits_from] in H.
  - injection H as <-. cbn [List.length Z.of_nat]. rewrite Z.pow_0_r. lia.
  - destruct (digit_value 10 c) as [d |] eqn:D; [| discriminate H].
    pose proof (digit_value_code _ _ D) as [_ R].
    specialize (IH (10 * acc + d) v ltac:(lia) H).
    cbn [List.length]. rewrite Nat2Z.inj_succ, Z.pow_succ_r by lia.
    assert (P : 0 < 10 ^ Z.of_nat (List.length t))
      by (apply Z.pow_pos_nonneg; lia).
    nia.
Qed.

(** The digits behind an array index: no leading zero unless the index is
    one digit. *)
Lemma array_index_digits (k : string) (i : Z) :
  array_index k = Some i ->
  exists c r d,
    list_ascii_of_string k = c :: r
    /\ digit_value 10 c = Some d
    /\ digits_from 10 d r = Some i
    /\ (r <> [] -> 1 <= d).
Proof.
  unfold array_index. destruct (list_ascii_of_string k) as [| c r]; [discriminate |].
  intros H.
  assert (G : digits 10 (c :: r) = Some i /\ (r <> [] -> is_char c "0" = false)).
  { destruct r as [| c1 r1]; [split; [exact H | congruence] |].
    destruct (is_char c "0"); [discriminate H |].
    destruct (digits 10 (c :: c1 :: r1)) as [v |]; [| discriminate H].
    destruct (v <? 2 ^ 32 - 1); [| discriminate H].
    injection H as <-. split; reflexivity. }
  destruct G as [G Z]. unfold digits in G. cbn [digits_from] in G.
  destruct (digit_value 10 c) as [d |] eqn:D; [| discriminate G].
  exists c, r, d. repeat split; try assumption.
  intros N. specialize (Z N).
  pose proof (digit_value_code _ _ D) as [_ R].
  destruct (Z.eq_dec d 0) as [-> | Nz]; [| lia].
  assert (c = "0"%char) by (apply (digit_value_inj c "0" 0 D); reflexivity).
  subst c. discriminate Z.
Qed.

Lemma array_index_inj (k k' : string) (i : Z) :
  array_index k = Some i -> array_index k' = Some i -> k = k'.
Proof.
  intros H H'.
  destruct (array_index_digits _ _ H) as (c & r & d & L & D & V & Z).
  destruct (array_index_digits _ _ H') as (c' & r' & d' & L' & D' & V' & Z').
  pose proof (digit_value_code _ _ D) as [_ R].
  pose proof (digit_value_code _ _ D') as [_ R'].
  pose proof (digits_from_bounds r d i ltac:(lia) V) as B.
  pose proof (digits_from_bounds r' d' i ltac:(lia) V') as B'.
  assert (Len : List.length r = List.length r').
  { assert (P : forall (r1 r2 : list ascii) d1 d2,
              0 <= d1 <= 9 -> 0 <= d2 <= 9 -> (r1 <> [] -> 1 <= d1) ->
              d1 * 10 ^ Z.of_nat (List.length r1) <= i ->
              i < (d2 + 1) * 10 ^ Z.of_nat (List.length r2) ->
              (List.length r1 <= List.length r2)%nat).
    { intros r1 r2 d1 d2 R1 R2 Z1 Lo Hi.
      destruct (Nat.le_gt_cases (List.length r1) (List.length r2)) as [Le | Gt];
        [exact Le | exfalso].
      assert (r1 <> []) by (destruct r1; [cbn in Gt; lia | discriminate]).
      specialize (Z1 ltac:(assumption)).
      assert (E : Z.of_nat (List.length r1)
                  = Z.of_nat (List.length r2) + 1
                    + (Z.of_nat (List.length r1) - Z.of_nat (List.length r2) - 1))
        by lia.
      rewrite E, !Z.pow_add_r in Lo by lia.
      change (10 ^ 1) with 10 in Lo.
      set (A := 10 ^ Z.of_nat (List.length r2)) in *.
      set (C := 10 ^ (Z.of_nat (List.length r1) - Z.of_nat (List.length r2) - 1))
        in *.
      assert (PA : 0 < A) by (apply Z.pow_pos_nonneg; lia).
      assert (PC : 0 < C) by (apply Z.pow_pos_nonneg; lia).
      assert (T1 : 1 <= d1 * C) by nia.
      assert (T2 : 10 * A * 1 <= 10 * A * (d1 * C))
        by (apply Z.mul_le_mono_nonneg_l; lia).
      assert (T3 : (d2 + 1) * A <= 10 * A)
        by (apply Z.mul_le_mono_nonneg_r; lia).
      replace (d1 * (A * 10 * C)) with (10 * A * (d1 * C)) in Lo by ring.
      lia. }
    apply Nat.le_antisymm.
    - apply (P r r' d d'); try assumption; lia.
    - apply (P r' r d' d); try assumption; lia. }
  destruct (digits_from_inj r r' d d' i Len V V') as [-> ->].
  rewrite <- (string_of_list_ascii_of_string k),
          <- (string_of_list_ascii_of_string k'), L, L'.
  f_equal. f_equal. apply (digit_value_inj _ _ _ D D').
Qed.

(** ** The order of keys is reached at once *)

Lemma first_occurrences_NoDup_id (ks : list string) :
  NoDup ks -> first_occurrences ks = ks.
Proof.
  induction 1 as [| k t N _ IH]; [reflexivity |].
  cbn [first_occurrences]. rewrite IH, notin_remove by exact N. reflexivity.
Qed.

Lemma insert_indexed_front {V : Type} (i : Z) (v : V) (l : list (Z * V)) :
  Forall (fun p => i < fst p) l -> insert_indexed i v l = (i, v) :: l.
Proof.
  intros F. destruct F as [| [j w] rest Hj _]; [reflexivity |].
  cbn [insert_indexed]. cbn [fst] in Hj.
  destruct (Z.ltb_spec i j); [reflexivity | lia].
Qed.

Lemma index_keys_named (ks : list string) :
  Forall (fun k => is_named k = true) ks -> index_keys ks = [].
Proof.
  induction 1 as [| k t Hk _ IH]; [reflexivity |].
  cbn [index_keys]. unfold is_named in Hk.
  destruct (array_index k); [discriminate Hk | exact IH].
Qed.

Lemma index_keys_sorted_id (ik : list (Z * string)) (named : list string) :
  StronglySorted (fun p q => fst p < fst q) ik ->
  Forall (fun p => array_index (snd p) = Some (fst p)) ik ->
  Forall (fun k => is_named k = true) named ->
  index_keys (map snd ik ++ named) = ik.
Proof.
  intros S F N. induction S as [| [i k] rest _ IH Hlt].
  - apply index_keys_named, N.
  - inversion F as [| ? ? Hk Fr]; subst. cbn [snd fst] in Hk.
    cbn [map app index_keys snd]. rewrite Hk, (IH Fr).
    apply insert_indexed_front. exact Hlt.
Qed.

Lemma index_keys_In (ks : list string) (p : Z * string) :
  In p (index_keys ks) -> In (snd p) ks.
Proof.
  induction ks as [| k t IH]; cbn [index_keys]; [contradiction |].
  destruct (array_index k) as [i |]; intros H.
  - apply (Permutation_in _ (insert_indexed_perm i k (index_keys t))) in H.
    destruct H as [<- | H]; [left; reflexivity | right; apply IH, H].
  - right. apply IH, H.
Qed.

Lemma index_keys_NoDup (ks : list string) :
  NoDup ks -> NoDup (map snd (index_keys ks)).
Proof.
  induction 1 as [| k t N _ IH]; cbn [index_keys]; [constructor |].
  destruct (array_index k) as [i |]; [| exact IH].
  apply (Permutation_NoDup
           (Permutation_sym
              (Permutation_map snd (insert_indexed_perm i k (index_keys t))))).
  cbn [map snd]. constructor; [| exact IH].
  intros I. apply in_map_iff in I. destruct I as (p & E & I).
  apply index_keys_In in I. rewrite E in I. contradiction.
Qed.

Lemma index_keys_strict (ks : list string) :
  NoDup ks -> StronglySorted (fun p q => fst p < fst q) (index_keys ks).
Proof.
  intros N. pose proof (index_keys_sorted ks) as S.
  pose proof (index_keys_index ks) as F.
  pose proof (index_keys_NoDup ks N) as D.
  induction (index_keys ks) as [| [i k] rest IH]; [constructor |].
  cbn [map fst snd] in *.
  inversion S as [| ? ? Sr Hle]; subst.
  inversion F as [| ? ? Hk Fr]; subst.
  inversion D as [| ? ? Nk Dr]; subst. cbn [fst snd] in *.
  constructor; [apply IH; assumption |].
  apply Forall_forall. intros [j k'] I. cbn [fst].
  rewrite Forall_forall in Hle, Fr.
  specialize (Hle j (in_map fst _ _ I)). specialize (Fr _ I). cbn [fst snd] in Fr.
  destruct (Z.eq_dec i j) as [-> | Ne]; [| lia].
  exfalso. apply Nk. rewrite (array_index_inj k k' j Hk Fr).
  apply (in_map snd _ _ I).
Qed.

(** Listing keys that are already in the order of listing changes
    nothing. *)
Lemma ordered_keys_idempotent (ks : list string) :
  NoDup ks -> ordered_keys (ordered_keys ks) = ordered_keys ks.
Proof.
  intros N. unfold ordered_keys at 1 3.
  assert (Fn : Forall (fun k => is_named k = true) (filter is_named ks)).
  { apply Forall_forall. intros k I. apply filter_In in I. tauto. }
  unfold ordered_keys.
  rewrite (index_keys_sorted_id (index_keys ks) (filter is_named ks)
             (index_keys_strict ks N) (index_keys_index ks) Fn).
  f_equal. rewrite filter_app.
  assert (E : filter is_named (map snd (index_keys ks)) = []).
  { pose proof (index_keys_index ks) as F.
    induction F as [| [i k] rest Hk _ IH]; [reflexivity |].
    cbn [map filter snd fst] in *. unfold is_named at 1. rewrite Hk. exact IH. }
  rewrite E. cbn [app].
  induction Fn as [| k t Hk _ IH]; [reflexivity |].
  cbn [filter]. rewrite Hk, IH. reflexivity.
Qed.

(* ===================================================================== *)
(** * Aggregating twice *)
(* ===================================================================== *)

Lemma members_rollup_out (u : string) (l : list LeaderBoardPosition)
    (K : list string) :
  ~ In u K -> members u (map (fun k => rollup k l) K) = [].
Proof.
  induction K as [| k t IH]; intros N; [reflexivity |].
  cbn [map]. unfold members in *. cbn [filter rollup lb_user].
  destruct (String.eqb_spec k u) as [-> | _].
  - exfalso. apply N. left. reflexivity.
  - apply IH. intros I. apply N. right. exact I.
Qed.

Lemma members_rollup (u : string) (l : list LeaderBoardPosition)
    (K : list string) :
  NoDup K -> In u K -> members u (map (fun k => rollup k l) K) = [rollup u l].
Proof.
  induction 1 as [| k t N _ IH]; intros I; [contradiction |].
  cbn [map]. unfold members. cbn [filter rollup lb_user].
  destruct (String.eqb_spec k u) as [-> | Ne].
  - f_equal. apply (members_rollup_out u l t N).
  - destruct I as [E | I]; [contradiction |]. apply (IH I).
Qed.

(** X13.  Aggregating records that are already aggregated returns them as they
    are: one record per user, in the same order, with the same totals. *)
Lemma getAggregatedPositions_idempotent (l : list LeaderBoardPosition) :
  exists agg,
    getAggregatedPositions l = Ok agg
    /\ getAggregatedPositions agg = Ok agg.
Proof.
  set (K0 := first_occurrences (map lb_user l)).
  set (K := ordered_keys K0).
  exists (map (fun u => rollup u l) K).
  split; [apply getAggregatedPositions_spec |].
  rewrite getAggregatedPositions_spec. f_equal.
  rewrite rollup_users.
  assert (N0 : NoDup K0) by apply first_occurrences_NoDup.
  assert (N : NoDup K).
  { apply (Permutation_NoDup (Permutation_sym (ordered_keys_perm K0))), N0. }
  rewrite (first_occurrences_NoDup_id K N).
  change (ordered_keys K) with (ordered_keys (ordered_keys K0)).
  rewrite (ordered_keys_idempotent K0 N0). fold K.
  apply map_ext_in. intros u I.
  unfold rollup at 1. rewrite (members_rollup u l K N I).
  unfold rollup. f_equal; apply total_single; reflexivity.
Qed.

(* ===================================================================== *)
(** * [mulBN] at a price that is not negative *)
(* ===================================================================== *)

Lemma binary_round_aux_sign (s : bool) (m e : Z) (l : location) :
  0 <= m ->
  match binary_round_aux prec emax s m e l with
  | S754_zero s' | S754_infinity s' | S754_finite s' _ _ => s' = s
  | S754_nan => False
  end.
Proof.
  intros H. pose proof (binary_round_aux_not_nan s m e l H) as N.
  unfold binary_round_aux in *.
  destruct (shr_fexp prec emax m e l) as [mrs' e'].
  destruct (shr_fexp prec emax _ e' loc_Exact) as [mrs'' e''].
  destruct (shr_m mrs'') as [| p | p]; try reflexivity; [| congruence].
  destruct (e'' <=? emax - prec); reflexivity.
Qed.

(** The scaled price of a price that is not negative rounds to an integer
    that is not negative. *)
Lemma scaled_price_nonneg (b : number) (r : Z) :
  (0 <=? b)%float = true ->
  BigNumber.from_number (Math_round (b * default_scale)%float) = Ok r ->
  0 <= r.
Proof.
  intros Hb.
  assert (S : match Prim2SF (b * default_scale)%float with
              | S754_finite s _ _ => s = false
              | _ => True
              end).
  { rewrite mul_spec. rewrite leb_spec in Hb.
    change (Prim2SF 0) with (S754_zero false) in Hb.
    change (Prim2SF default_scale)
      with (S754_finite false 5497558138880000 (-39)).
    unfold SF64mul, SFmul.
    destruct (Prim2SF b) as [s | s | | s m e]; try exact I.
    assert (s = false) by (destruct s; [discriminate Hb | reflexivity]).
    subst s. cbn [xorb].
    pose proof (binary_round_aux_sign false
                  (Zpos (m * 5497558138880000)) (e + -39) loc_Exact
                  ltac:(lia)) as B.
    destruct (binary_round_aux _ _ _ _ _ _); try exact I. exact B. }
  generalize dependent (b * default_scale)%float. clear b Hb.
  intros x S. unfold Math_round.
  assert (G : forall y z, int_value y = Some z -> 0 <= z ->
              BigNumber.from_number y = Ok r -> 0 <= r).
  { intros y z Iv Hz. unfold BigNumber.from_number. rewrite Iv.
    destruct (Prim2SF y); try discriminate;
      destruct ((BigNumber.MAX_SAFE <=? z) || (z <=? - BigNumber.MAX_SAFE));
      try discriminate; intros E; injection E as <-; exact Hz. }
  destruct (Prim2SF x) as [s | s | | s m e] eqn:P.
  - apply (G x 0); [| lia]. unfold int_value. rewrite P. reflexivity.
  - unfold BigNumber.from_number. rewrite P. discriminate.
  - unfold BigNumber.from_number. rewrite P. discriminate.
  - subst s. destruct (Z.leb_spec 0 e) as [L | L].
    + apply (G x (Zpos m * 2 ^ e)).
      * unfold int_value. rewrite P.
        destruct (Z.leb_spec 0 e); [reflexivity | lia].
      * assert (0 < 2 ^ e) by (apply Z.pow_pos_nonneg; lia). lia.
    + cbv zeta. cbn [cond_Zopp].
      set (q := (2 * Zpos m + 2 ^ (- e)) / 2 ^ (1 - e)).
      assert (Q : 0 <= q).
      { apply Z.div_pos; [| apply Z.pow_pos_nonneg; lia].
        assert (0 < 2 ^ (- e)) by (apply Z.pow_pos_nonneg; lia). lia. }
      destruct (Z.eqb_spec q 0) as [Z | NZ].
      * apply (G zero 0); [reflexivity | lia].
      * apply (G (Z2F q) q); [| exact Q].
        apply int_value_Z2F.
        destruct (Prim2SF_finite_bounds x false m e P) as [Bm Be].
        assert (P1 : 2 <= 2 ^ (- e)).
        { change 2 with (2 ^ 1) at 1. apply Z.pow_le_mono_r; lia. }
        assert (P2 : 2 ^ (1 - e) = 2 * 2 ^ (- e)).
        { replace (1 - e) with (1 + - e) by lia.
          rewrite Z.pow_add_r by lia. reflexivity. }
        rewrite Z.abs_eq by exact Q. subst q. rewrite P2.
        apply Z.div_lt_upper_bound; [lia |].
        change (2 ^ 53) with (2 * 2 ^ 52) in *. nia.
Qed.

(** X14.  At a price that is not negative, a larger holding is never
    valued lower. *)
Lemma mulBN_monotone (a a' : Z) (b : number) (x x' : Z) :
  (0 <=? b)%float = true -> a <= a' ->
  mulBN a b default_scale = Ok x -> mulBN a' b default_scale = Ok x' ->
  x <= x'.
Proof.
  intros Hb Ha. unfold mulBN.
  destruct (BigNumber.from_number (Math_round (b * default_scale)%float))
    as [r |] eqn:R; [| discriminate].
  cbn [bind]. rewrite from_number_default_scale. cbn [bind].
  unfold BigNumber.div, BigNumber.mul. cbn [Z.eqb].
  intros E E'. injection E as <-. injection E' as <-.
  pose proof (scaled_price_nonneg b r Hb R) as Hr.
  apply Z.quot_le_mono; [lia |].
  apply Z.mul_le_mono_nonneg_r; assumption.
Qed.

Lemma mulBN_monotone_witness :
  mulBN 100 (Number "0.25") default_scale = Ok 25
  /\ mulBN 200 (Number "0.25") default_scale = Ok 50
  /\ 25 <= 50.
Proof.
  split; [vm_compute; reflexivity |]. split; [vm_compute; reflexivity |].
  apply (mulBN_monotone 100 200 (Number "0.25") 25 50);
    vm_compute; (reflexivity || discriminate).
Defined.

(* ===================================================================== *)
(** * Aggregating batches of different users *)
(* ===================================================================== *)

Lemma first_occurrences_app (a b : list string) :
  (forall k, In k a -> ~ In k b) ->
  first_occurrences (a ++ b) = first_occurrences a ++ first_occurrences b.
Proof.
  induction a as [| k t IH]; intros D; [reflexivity |].
  cbn [app first_occurrences]. rewrite IH.
  - rewrite remove_app. f_equal. f_equal. apply notin_remove.
    rewrite first_occurrences_In. apply D. left. reflexivity.
  - intros k' I. apply D. right. exact I.
Qed.

Lemma members_out (u : string) (l : list LeaderBoardPosition) :
  ~ In u (map lb_user l) -> members u l = [].
Proof.
  induction l as [| p t IH]; intros N; [reflexivity |].
  unfold members in *. cbn [filter].
  destruct (String.eqb_spec (lb_user p) u) as [E | _].
  - exfalso. apply N. left. exact E.
  - apply IH. intros I. apply N. right. exact I.
Qed.

(** X15.  Two batches that share no user, of users whose names are no array
    indices, aggregate to the records of the first followed by the records
    of the second. *)
Lemma getAggregatedPositions_app (first second : list LeaderBoardPosition) :
  Forall (fun p => array_index (lb_user p) = None) (first ++ second) ->
  (forall p q, In p first -> In q second -> lb_user p <> lb_user q) ->
  getAggregatedPositions (first ++ second) =
  (a <- getAggregatedPositions first ;;
   b <- getAggregatedPositions second ;;
   Ok (a ++ b)).
Proof.
  intros Named Apart.
  assert (D : forall k, In k (map lb_user first) -> ~ In k (map lb_user second)).
  { intros k I1 I2. apply in_map_iff in I1, I2.
    destruct I1 as (p & E1 & I1), I2 as (q & E2 & I2).
    apply (Apart p q I1 I2). congruence. }
  assert (O : forall l, Forall (fun p => array_index (lb_user p) = None) l ->
              ordered_keys (first_occurrences (map lb_user l))
              = first_occurrences (map lb_user l)).
  { intros l F. apply ordered_keys_named. apply Forall_forall. intros k I.
    apply (proj1 (first_occurrences_In _ _)) in I.
    apply in_map_iff in I. destruct I as (p & <- & I).
    rewrite Forall_forall in F. apply F, I. }
  pose proof Named as Named'. apply Forall_app in Named'.
  destruct Named' as [N1 N2].
  rewrite !getAggregatedPositions_spec. cbn [bind].
  rewrite (O _ Named), (O _ N1), (O _ N2). f_equal.
  rewrite map_app, (first_occurrences_app _ _ D), map_app. f_equal.
  - apply map_ext_in. intros u I.
    apply (proj1 (first_occurrences_In _ _)) in I.
    unfold rollup, members. rewrite filter_app.
    fold (members u first). fold (members u second).
    rewrite (members_out u second (D u I)), app_nil_r. reflexivity.
  - apply map_ext_in. intros u I.
    apply (proj1 (first_occurrences_In _ _)) in I.
    unfold rollup, members. rewrite filter_app.
    fold (members u first). fold (members u second).
    rewrite (members_out u first); [reflexivity |].
    intros I'. apply (D u I' I).
Qed.

Lemma getAggregatedPositions_app_witness :
  getAggregatedPositions
    ([record_of "ann" 1 2 3; record_of "ann" 1 2 3]%float
     ++ [record_of "bob" 4 5 6]%float) =
  (a <- getAggregatedPositions
          [record_of "ann" 1 2 3; record_of "ann" 1 2 3]%float ;;
   b <- getAggregatedPositions [record_of "bob" 4 5 6]%float ;;
   Ok (a ++ b)).
Proof.
  apply (getAggregatedPositions_app
           [record_of "ann" 1 2 3; record_of "ann" 1 2 3]%float
           [record_of "bob" 4 5 6]%float).
  - repeat constructor.
  - intros p q Ip Iq.
    repeat (destruct Ip as [<- | Ip]; [| try contradiction]);
      repeat (destruct Iq as [<- | Iq]; [| try contradiction]);
      discriminate.
Defined.

(* ===================================================================== *)
(** * The three stages in a row, on arrays *)
(* ===================================================================== *)

(** X16.  Running [getAllPositions], [getAggregatedPositions] and [getTopTen]
    one after the other leaves the store as it was, the array of data
    included, and adds three arrays to it: the valuations, the aggregated
    records (in the order [sort] left them in) and the board. *)
Lemma stages_in_a_row (data : Store.ref) (h : Store.store)
    (l : list Position) (all agg : list LeaderBoardPosition) :
  Store.read data h = Some (Store.Positions l) ->
  getAllPositions l = Ok all ->
  getAggregatedPositions all = Ok agg ->
  (r1 <- Store.getAllPositions data h ;;
   r2 <- Store.getAggregatedPositions (fst r1) (snd r1) ;;
   Store.getTopTen (fst r2) (snd r2))
  = Ok (S (S (List.length h)),
        h ++ [ Store.Board all;
               Store.Board (Array_sort byEarnings agg);
               Store.Board (leaderBoardPositions (getTopTen agg)) ]).
Proof.
  intros Hd Hall Hagg.
  rewrite (store_getAllPositions data h l Hd), Hall. cbn [bind fst snd].
  assert (R1 : Store.read (List.length h) (h ++ [Store.Board all])
               = Some (Store.Board all)).
  { unfold Store.read. rewrite nth_error_app2 by lia.
    rewrite Nat.sub_diag. reflexivity. }
  rewrite (store_getAggregatedPositions _ _ all R1), Hagg. cbn [bind fst snd].
  assert (L : List.length (h ++ [Store.Board all]) = S (List.length h)).
  { rewrite length_app. cbn [List.length]. lia. }
  assert (R2 : Store.read (List.length (h ++ [Store.Board all]))
                 ((h ++ [Store.Board all]) ++ [Store.Board agg])
               = Some (Store.Board agg)).
  { unfold Store.read. rewrite nth_error_app2 by lia.
    rewrite Nat.sub_diag. reflexivity. }
  rewrite (store_getTopTen _ _ agg R2).
  rewrite length_app, L. cbn [List.length]. f_equal. f_equal; [lia |].
  rewrite <- L, store_write_last, <- !app_assoc. reflexivity.
Qed.

Lemma stages_in_a_row_witness :
  (r1 <- Store.getAllPositions 0%nat [Store.Positions uneven_positions] ;;
   r2 <- Store.getAggregatedPositions (fst r1) (snd r1) ;;
   Store.getTopTen (fst r2) (snd r2))
  = Ok (3%nat,
        [Store.Positions uneven_positions]
        ++ [ Store.Board uneven_stakes;
             Store.Board (Array_sort byEarnings uneven_rollup);
             Store.Board (leaderBoardPositions (getTopTen uneven_rollup)) ]).
Proof.
  apply (stages_in_a_row 0%nat [Store.Positions uneven_positions]
           uneven_positions uneven_stakes uneven_rollup);
    vm_compute; reflexivity.
Defined.

(* ===================================================================== *)
(** * Returns that are whole multiples of the investment *)
(* ===================================================================== *)

Lemma div_eucl_exact (q d : Z) : 0 < d -> Z.div_eucl (d * q) d = (q, 0).
Proof.
  intros H.
  assert (Q : (d * q) / d = q) by (rewrite Z.mul_comm; apply Z.div_mul; lia).
  assert (R : (d * q) mod d = 0) by (rewrite Z.mul_comm; apply Z.mod_mul; lia).
  unfold Z.div, Z.modulo in Q, R.
  destruct (Z.div_eucl (d * q) d) as [q' r']. cbn [fst snd] in *. congruence.
Qed.

(** Quotients of integers below [2 ^ 53] are exact when the division
    is. *)
Lemma SFdiv_canon (sa sb : bool) (qa qb k : positive) :
  Zpos qa = Zpos k * Zpos qb -> Zpos qa < 2 ^ 53 -> Zpos qb < 2 ^ 53 ->
  SFdiv prec emax (canon sa qa) (canon sb qb) = canon (xorb sa sb) k.
Proof.
  intros E Ha Hb.
  assert (Hk : Zpos k < 2 ^ 53) by nia.
  destruct (canon_digits qa Ha) as (Hda & Hma & H53a).
  destruct (canon_digits qb Hb) as (Hdb & Hmb & H53b).
  destruct (canon_digits k Hk) as (Hdk & Hmk & H53k).
  pose proof (digits2_pos_bounds qa) as Ba.
  pose proof (digits2_pos_bounds qb) as Bb.
  pose proof (digits2_pos_bounds k) as Bk.
  unfold canon, SFdiv, SFdiv_core_binary.
  set (da := Zpos (digits2_pos qa)) in *.
  set (db := Zpos (digits2_pos qb)) in *.
  set (dk := Zpos (digits2_pos k)) in *.
  set (ma := Z.to_pos (Zpos qa * 2 ^ (53 - da))) in *.
  set (mb := Z.to_pos (Zpos qb * 2 ^ (53 - db))) in *.
  set (mk := Z.to_pos (Zpos k * 2 ^ (53 - dk))) in *.
  assert (D : da <= dk + db).
  { destruct (Z_le_gt_dec da (dk + db)) as [L | G]; [exact L | exfalso].
    assert (P : 2 ^ (dk + db) <= 2 ^ (da - 1)) by (apply Z.pow_le_mono_r; lia).
    rewrite Z.pow_add_r in P by lia.
    assert (0 < 2 ^ dk) by (apply Z.pow_pos_nonneg; lia).
    assert (0 < 2 ^ db) by (apply Z.pow_pos_nonneg; lia).
    assert (M : Zpos k * Zpos qb < 2 ^ dk * 2 ^ db)
      by (apply Z.mul_lt_mono_nonneg; lia).
    lia. }
  cbn [Zdigits2]. rewrite H53a, H53b.
  unfold fexp, SpecFloat.emin, prec, emax.
  replace (Z.min (Z.max (53 + (da - 53) - (53 + (db - 53)) - 53) (3 - 1024 - 53))
             (da - 53 - (db - 53)))
    with (da - db - 53) by lia.
  replace (da - 53 - (db - 53) - (da - db - 53)) with 53 by lia.
  rewrite Z.shiftl_mul_pow2 by lia.
  assert (Q : Zpos ma * 2 ^ 53 = Zpos mb * (Zpos k * 2 ^ (53 - da + db))).
  { rewrite Hma, Hmb, E.
    replace (2 ^ 53) with (2 ^ (53 - db) * 2 ^ db)
      by (rewrite <- Z.pow_add_r by lia; f_equal; lia).
    replace (53 - da + db) with ((53 - da) + db) by lia.
    rewrite Z.pow_add_r by lia. ring. }
  rewrite Q, div_eucl_exact by lia.
  assert (NL : new_location (Zpos mb) 0 = loc_Exact).
  { unfold new_location, new_location_even, new_location_odd.
    destruct (Z.even (Zpos mb)); reflexivity. }
  rewrite NL.
  assert (PK : 0 < Zpos k * 2 ^ (53 - da + db)).
  { assert (0 < 2 ^ (53 - da + db)) by (apply Z.pow_pos_nonneg; lia). lia. }
  destruct (Zpos k * 2 ^ (53 - da + db)) as [| m | m] eqn:M; try lia.
  replace (dk - 53) with ((da - db - 53) + (dk + db - da)) by lia.
  apply binary_round_aux_exact; [lia | | exact H53k | lia].
  rewrite <- M, Hmk.
  replace (53 - da + db) with ((53 - dk) + (dk + db - da)) by lia.
  rewrite Z.pow_add_r by lia. ring.
Qed.

Lemma Z2F_div (k b : Z) :
  0 < b < 2 ^ 53 -> Z.abs (k * b) < 2 ^ 53 ->
  (Z2F (k * b) / Z2F b)%float = Z2F k.
Proof.
  intros Hb Hkb.
  assert (Hk : Z.abs k < 2 ^ 53) by nia.
  apply Prim2SF_inj. rewrite div_spec, !Prim2SF_Z2F by lia.
  destruct b as [| qb | qb]; try lia. rewrite (bn_pos qb) by lia.
  destruct k as [| qk | qk].
  - reflexivity.
  - cbn [Z.mul]. rewrite (bn_pos (qk * qb)), (bn_pos qk)
      by (cbn [Z.mul Z.abs] in *; lia).
    apply (SFdiv_canon false false); cbn [Z.mul Z.abs] in *; lia.
  - cbn [Z.mul]. rewrite (bn_neg (qk * qb)), (bn_neg qk)
      by (cbn [Z.mul Z.abs] in *; lia).
    apply (SFdiv_canon true false); cbn [Z.mul Z.abs] in *; lia.
Qed.

Lemma divBN_exact (a b k : Z) :
  b <> 0 -> a = k * b -> Z.abs k * 10000 < 2 ^ 53 ->
  divBN a b default_scale = Ok (Z2F k).
Proof.
  intros Hb -> Hk. rewrite (divBN_value _ _ Hb).
  replace (k * b * 10000) with (k * 10000 * b) by ring.
  rewrite Z.quot_mul by exact Hb.
  assert (B : Z.abs (k * 10000) < 2 ^ 53) by (rewrite Z.abs_mul; lia).
  destruct (Z.ltb_spec (Z.abs (k * 10000)) (2 ^ 53)); [| lia].
  f_equal. replace default_scale with (Z2F 10000) by (vm_compute; reflexivity).
  apply Z2F_div; lia.
Qed.

(** X17.  Where the net earnings are [k] times the amount bought, the return on
    investment is [100 * k] exactly: 0 for a position that breaks even,
    100 for one that doubled, -100 for one that lost all. *)
Lemma getROI_whole_multiple (p : Position) (nq vs vb nv k : Z) :
  BigNumber.from_string (netQuantity p) = Ok nq ->
  BigNumber.from_string (valueSold p) = Ok vs ->
  BigNumber.from_string (valueBought p) = Ok vb ->
  mulBN nq (Number_opt (price_entry p)) default_scale = Ok nv ->
  vb <> 0 -> nv + vs - vb = k * vb -> Z.abs k * 10000 < 2 ^ 53 ->
  getROI p = Ok (Z2F (100 * k)).
Proof.
  intros Hnq Hvs Hvb Hnv Nz E Hk. unfold getROI.
  rewrite Hnq, Hvs, Hvb. cbn [bind]. rewrite Hnv. cbn [bind].
  unfold BigNumber.sub, BigNumber.add.
  rewrite (divBN_exact _ vb k Nz E Hk). cbn [bind]. f_equal.
  replace 100%float with (Z2F 100) by (vm_compute; reflexivity).
  rewrite Z2F_mul by (try rewrite Z.abs_mul; lia).
  f_equal. lia.
Qed.

Lemma getROI_whole_multiple_witness :
  getROI (position_of "100" "35" "20" 1 ["0.5"; "0.25"]%string "a")
  = Ok (Z2F (100 * 2)).
Proof.
  apply (getROI_whole_multiple
           (position_of "100" "35" "20" 1 ["0.5"; "0.25"]%string "a")
           100 35 20 25 2);
    vm_compute; (reflexivity || discriminate).
Defined.

(* ===================================================================== *)
(** * The sign of the return on investment *)
(* ===================================================================== *)

(** [x] is a zero or has the sign [s]. *)
Lemma SFdiv_sign (s : bool) (x y : spec_float) :
  match x with
  | S754_zero _ => True
  | S754_finite s' _ _ => s' = s
  | _ => False
  end ->
  match y with
  | S754_finite false _ _ => True
  | _ => False
  end ->
  match SFdiv prec emax x y with
  | S754_zero _ => True
  | S754_finite s' _ _ | S754_infinity s' => s' = s
  | S754_nan => False
  end.
Proof.
  intros Hx Hy. unfold SFdiv.
  destruct y as [| | | [] my ey]; try contradiction.
  destruct x as [sx | | | sx mx ex]; try contradiction; [exact I |].
  subst sx. rewrite xorb_false_r.
  destruct (SFdiv_core_binary prec emax (Zpos mx) ex (Zpos my) ey)
    as [[q e] l] eqn:C.
  assert (Q : 0 <= q).
  { unfold SFdiv_core_binary in C.
    set (m' := match _ - _ - _ with 0 => Zpos mx | Zpos _ => _ | Zneg _ => 0 end)
      in C.
    assert (M : 0 <= m').
    { unfold m'. destruct (_ - _ - _); try lia.
      rewrite Z.shiftl_mul_pow2 by lia.
      apply Z.mul_nonneg_nonneg; [lia | apply Z.pow_nonneg; lia]. }
    pose proof (Z.div_pos m' (Zpos my) M ltac:(lia)) as D.
    unfold Z.div in D. destruct (Z.div_eucl m' (Zpos my)) as [q' r'].
    cbn [fst] in D. injection C as <- _ _. exact D. }
  pose proof (binary_round_aux_sign s q e l Q) as B.
  destruct (binary_round_aux prec emax s q e l); try exact I; exact B.
Qed.

Lemma SFmul_sign (s : bool) (x y : spec_float) :
  match x with
  | S754_zero _ => True
  | S754_finite s' _ _ | S754_infinity s' => s' = s
  | S754_nan => False
  end ->
  match y with
  | S754_finite false _ _ => True
  | _ => False
  end ->
  match SFmul prec emax x y with
  | S754_zero _ => True
  | S754_finite s' _ _ | S754_infinity s' => s' = s
  | S754_nan => False
  end.
Proof.
  intros Hx Hy. unfold SFmul.
  destruct y as [| | | [] my ey]; try contradiction.
  destruct x as [sx | sx | | sx mx ex]; try contradiction; try exact I.
  - subst sx. apply xorb_false_r.
  - subst sx. rewrite xorb_false_r.
    pose proof (binary_round_aux_sign s (Zpos (mx * my)) (ex + ey) loc_Exact
                  ltac:(lia)) as B.
    destruct (binary_round_aux _ _ _ _ _ _); try exact I; exact B.
Qed.

Lemma bn_sign (z : Z) :
  Z.abs z < 2 ^ 53 ->
  match bn z with
  | S754_zero _ => True
  | S754_finite s' _ _ => s' = (z <? 0)
  | _ => False
  end.
Proof.
  intros H. destruct z as [| q | q].
  - exact I.
  - rewrite bn_pos by lia. reflexivity.
  - rewrite bn_neg by lia. reflexivity.
Qed.

(** The percentage [divBN] and the factor 100 make of a quotient [q] is a
    zero or has the sign of [q]. *)
Lemma percent_sign (q : Z) :
  Z.abs q < 2 ^ 53 ->
  match Prim2SF (Z2F q / default_scale * 100)%float with
  | S754_zero _ => True
  | S754_finite s' _ _ | S754_infinity s' => s' = (q <? 0)
  | S754_nan => False
  end.
Proof.
  intros H. rewrite mul_spec, div_spec, (Prim2SF_Z2F q H).
  change (Prim2SF default_scale)
    with (S754_finite false 5497558138880000 (-39)).
  change (Prim2SF 100) with (S754_finite false 7036874417766400 (-46)).
  apply SFmul_sign; [| exact I].
  pose proof (SFdiv_sign (q <? 0) (bn q)
                (S754_finite false 5497558138880000 (-39))) as D.
  pose proof (bn_sign q H) as S.
  assert (Hx : match bn q with
               | S754_zero _ => True
               | S754_finite s' _ _ => s' = (q <? 0)
               | _ => False
               end) by exact S.
  specialize (D Hx I).
  unfold SF64div. destruct (SFdiv prec emax (bn q) _); try exact I; exact D.
Qed.

(** X19.  The return on investment has the sign of the net earnings, for an
    amount bought that is positive: it is never negative on a gain and
    never positive on a loss. *)
Lemma getROI_sign (p : Position) (nq vs vb nv : Z) (x : number) :
  BigNumber.from_string (netQuantity p) = Ok nq ->
  BigNumber.from_string (valueSold p) = Ok vs ->
  BigNumber.from_string (valueBought p) = Ok vb ->
  mulBN nq (Number_opt (price_entry p)) default_scale = Ok nv ->
  0 < vb ->
  getROI p = Ok x ->
  (0 <= nv + vs - vb -> (0 <=? x)%float = true)
  /\ (nv + vs - vb <= 0 -> (x <=? 0)%float = true).
Proof.
  intros Hnq Hvs Hvb Hnv Pos. unfold getROI.
  rewrite Hnq, Hvs, Hvb. cbn [bind]. rewrite Hnv. cbn [bind].
  unfold BigNumber.sub, BigNumber.add.
  rewrite (divBN_value _ vb) by lia.
  set (q := Z.quot ((nv + vs - vb) * 10000) vb).
  destruct (Z.ltb_spec (Z.abs q) (2 ^ 53)) as [B | B]; [| discriminate].
  cbn [bind]. intros E. injection E as <-.
  pose proof (percent_sign q B) as S.
  rewrite !leb_spec. change (Prim2SF 0) with (S754_zero false).
  split; intros G.
  - assert (Q : 0 <= q) by (apply Z.quot_pos; lia).
    destruct (Z.ltb_spec q 0) as [N | _]; [lia |].
    destruct (Prim2SF _) as [s | s | | s m e]; try contradiction;
      try subst s; try reflexivity; try (destruct s; reflexivity).
  - assert (Q : q <= 0).
    { unfold q.
      replace ((nv + vs - vb) * 10000) with (- ((vb - nv - vs) * 10000)) by ring.
      rewrite Z.quot_opp_l by lia.
      assert (0 <= Z.quot ((vb - nv - vs) * 10000) vb)
        by (apply Z.quot_pos; lia).
      lia. }
    destruct (Z.ltb_spec q 0) as [N | Z].
    + destruct (Prim2SF _) as [s | s | | s m e]; try contradiction;
        try subst s; try reflexivity; try (destruct s; reflexivity).
    + assert (q = 0) by lia.
      assert (R : (Z2F q / default_scale * 100)%float = 0%float).
      { replace q with 0 by lia. vm_compute. reflexivity. }
      rewrite R. reflexivity.
Qed.

Lemma getROI_sign_witness :
  getROI regular_position = Ok 275%float /\ (0 <=? 275)%float = true.
Proof.
  split; [vm_compute; reflexivity |].
  refine (proj1 (getROI_sign regular_position 100 50 20 25 275%float
                   _ _ _ _ _ _) _);
    try (vm_compute; reflexivity); lia.
Defined.

